(** * azure-cache: the Azure Blob Storage cache provider and its archive codec

    A shallow embedding of [src/providers/AzureCacheProvider.ts] and
    [src/archive/ArchiveUtils.ts], and the properties of the specification
    that bear on them: resolution by exact key and by prefix (C1, C2, C9),
    saving once (C3), the provider boundary (C4), blob names (C5), lookup
    without restore (C6), the key kept in the metadata (C7), the manifest
    of the archive (C8), and the extension of the archive (C10).

    - JavaScript strings are sequences of UTF-16 code units: [jsstring].
    - The asynchronous methods run their awaits one after the other, so a
      method is a function from the world before the call to an outcome
      (a value, a thrown error, or an await that never settles) and the
      world after it: the monad [M].
    - The world holds the container's blobs in the order the backend lists
      them, the files on disk, the log of [@actions/core], the record of
      the calls made to the outside, and the schedule of the failures that
      the outside will answer with.  A statement made for every world is
      made for every such schedule. *)

From Stdlib Require Import String Ascii NArith ZArith Bool Arith Lia List
  Permutation.
Import ListNotations.

Set Implicit Arguments.

(** ** JavaScript strings *)

Definition code_unit := N.
Definition jsstring := list code_unit.

Fixpoint str (s : string) : jsstring :=
  match s with
  | EmptyString => []
  | String c s' => N_of_ascii c :: str s'
  end.

Fixpoint jseq (a b : jsstring) : bool :=
  match a, b with
  | [], [] => true
  | x :: a', y :: b' => N.eqb x y && jseq a' b'
  | _, _ => false
  end.

(** [s.startsWith(p)] *)
Fixpoint startsWith (s p : jsstring) {struct p} : bool :=
  match p, s with
  | [], _ => true
  | y :: p', x :: s' => N.eqb x y && startsWith s' p'
  | _ :: _, [] => false
  end.

(** [s.endsWith(p)]: [p] is not longer than [s] and the last [p.length]
    code units of [s] are those of [p]. *)
Definition endsWith (s p : jsstring) : bool :=
  (length p <=? length s)%nat && jseq (skipn (length s - length p) s) p.

(** [s.substring(a, b)] for non-negative indices: both are clamped to the
    length and swapped when [a > b]. *)
Definition substring (a b : nat) (s : jsstring) : jsstring :=
  let a' := Nat.min a (length s) in
  let b' := Nat.min b (length s) in
  firstn (Nat.max a' b' - Nat.min a' b') (skipn (Nat.min a' b') s).

(** [parts.join(sep)] *)
Fixpoint join (sep : jsstring) (parts : list jsstring) : jsstring :=
  match parts with
  | [] => []
  | [p] => p
  | p :: rest => p ++ sep ++ join sep rest
  end.

(** [s.replace(/c/g, rep)] for a pattern that is one literal character. *)
Definition replace_char (c : code_unit) (rep : jsstring) (s : jsstring)
  : jsstring :=
  flat_map (fun x => if N.eqb x c then rep else [x]) s.

(** The class [\s] of ECMAScript regular expressions: WhiteSpace and
    LineTerminator code points. *)
Definition is_space (c : code_unit) : bool :=
  ((9 <=? c) && (c <=? 13) || (c =? 32) || (c =? 160) || (c =? 5760)
   || (8192 <=? c) && (c <=? 8202) || (c =? 8232) || (c =? 8233)
   || (c =? 8239) || (c =? 8287) || (c =? 12288) || (c =? 65279))%N.

(** [s.replace(/\s+/g, rep)]: every maximal run of white space becomes one
    [rep].  [in_run] says that the previous code unit was white space. *)
Fixpoint replace_space_runs (rep : jsstring) (in_run : bool) (s : jsstring)
  : jsstring :=
  match s with
  | [] => []
  | c :: s' =>
      if is_space c
      then (if in_run then [] else rep) ++ replace_space_runs rep true s'
      else c :: replace_space_runs rep false s'
  end.

(** Decimal rendering of an integer, as a template literal prints it. *)
Fixpoint digits_fuel (fuel : nat) (n : N) (acc : jsstring) : jsstring :=
  match fuel with
  | O => acc
  | S fuel' =>
      let acc' := (48 + n mod 10)%N :: acc in
      if (n <? 10)%N then acc' else digits_fuel fuel' (n / 10)%N acc'
  end.

Definition N_to_str (n : N) : jsstring :=
  digits_fuel (S (N.to_nat (N.log2 n))) n [].

Definition Z_to_str (z : Z) : jsstring :=
  if (z <? 0)%Z then str "-" ++ N_to_str (Z.abs_N z) else N_to_str (Z.abs_N z).

(** Decimal rendering padded with zeros on the left to [w] digits. *)
Definition pad_left (w : nat) (s : jsstring) : jsstring :=
  repeat 48%N (w - length s) ++ s.

(** ** [crypto.createHash("sha256").update(key).digest("hex")] *)

Module Sha256.
Local Open Scope N_scope.

Definition word := N.
Definition wrap (x : N) : word := x mod 4294967296.
Definition add (x y : word) : word := wrap (x + y).
Definition rotr (n : N) (x : word) : word :=
  N.lor (N.shiftr x n) (wrap (N.shiftl x (32 - n))).
Definition shr (n : N) (x : word) : word := N.shiftr x n.
Definition not32 (x : word) : word := N.lxor x 4294967295.

Definition ch (x y z : word) := N.lxor (N.land x y) (N.land (not32 x) z).
Definition maj (x y z : word) :=
  N.lxor (N.lxor (N.land x y) (N.land x z)) (N.land y z).
Definition bsig0 x := N.lxor (N.lxor (rotr 2 x) (rotr 13 x)) (rotr 22 x).
Definition bsig1 x := N.lxor (N.lxor (rotr 6 x) (rotr 11 x)) (rotr 25 x).
Definition ssig0 x := N.lxor (N.lxor (rotr 7 x) (rotr 18 x)) (shr 3 x).
Definition ssig1 x := N.lxor (N.lxor (rotr 17 x) (rotr 19 x)) (shr 10 x).

(** The constants are what FIPS 180-4 says they are: the first 32 bits of
    the fractional parts of the cube roots (for [K]) and of the square
    roots (for [init]) of the first primes. *)
Definition is_prime (n : N) : bool :=
  (1 <? n)
  && forallb (fun d => negb (n mod N.of_nat d =? 0))
             (seq 2 (N.to_nat (N.sqrt n) - 1)).

Definition primes : list N :=
  Eval vm_compute in filter is_prime (map N.of_nat (seq 2 310)).

(** The integer cube root, one bit after the other from bit [bits - 1]. *)
Fixpoint cube_root (bits : nat) (n r : N) : N :=
  match bits with
  | O => r
  | S bits' =>
      let r' := r + N.shiftl 1 (N.of_nat bits') in
      cube_root bits' n (if r' * r' * r' <=? n then r' else r)
  end.

Definition K : list word :=
  Eval vm_compute in
    map (fun p => wrap (cube_root 36 (N.shiftl p 96) 0)) (firstn 64 primes).

(** The eight working variables, and the chaining value, of one hash. *)
Record regs := Regs { ra : word; rb : word; rc : word; rd : word;
                      re : word; rf : word; rg : word; rh : word }.

Definition fractional_sqrt (p : N) : word := wrap (N.sqrt (N.shiftl p 64)).

Definition init : regs :=
  Eval vm_compute in
    Regs (fractional_sqrt 2) (fractional_sqrt 3) (fractional_sqrt 5)
         (fractional_sqrt 7) (fractional_sqrt 11) (fractional_sqrt 13)
         (fractional_sqrt 17) (fractional_sqrt 19).

(** Padding: a 1 bit, zeros up to 56 mod 64 bytes, the bit length on 64
    bits, big endian. *)
Definition be_bytes (count : nat) (x : N) : list N :=
  map (fun i => N.land (N.shiftr x (8 * N.of_nat i)) 255)
      (rev (seq 0 count)).

Definition pad (msg : list N) : list N :=
  let len := length msg in
  let zeros := ((119 - len mod 64) mod 64)%nat in
  msg ++ [128] ++ repeat 0 zeros ++ be_bytes 8 (8 * N.of_nat len).

Fixpoint words_of (fuel : nat) (bs : list N) : list word :=
  match fuel, bs with
  | S fuel', b0 :: b1 :: b2 :: b3 :: rest =>
      (N.shiftl b0 24 + N.shiftl b1 16 + N.shiftl b2 8 + b3)
        :: words_of fuel' rest
  | _, _ => []
  end.

(** The message schedule, kept most recent word first: [extend] adds
    W[t] from W[t-2], W[t-7], W[t-15] and W[t-16]. *)
Definition extend (w : list word) : list word :=
  add (add (ssig1 (nth 1 w 0)) (nth 6 w 0))
      (add (ssig0 (nth 14 w 0)) (nth 15 w 0)) :: w.

Definition schedule (block : list word) : list word :=
  rev (Nat.iter 48 extend (rev block)).

Definition round (r : regs) (kw : word * word) : regs :=
  let t1 := add (add (add (add (rh r) (bsig1 (re r)))
                           (ch (re r) (rf r) (rg r))) (fst kw)) (snd kw) in
  let t2 := add (bsig0 (ra r)) (maj (ra r) (rb r) (rc r)) in
  Regs (add t1 t2) (ra r) (rb r) (rc r) (add (rd r) t1) (re r) (rf r) (rg r).

Definition compress (h : regs) (block : list word) : regs :=
  let r := fold_left round (combine K (schedule block)) h in
  Regs (add (ra h) (ra r)) (add (rb h) (rb r)) (add (rc h) (rc r))
       (add (rd h) (rd r)) (add (re h) (re r)) (add (rf h) (rf r))
       (add (rg h) (rg r)) (add (rh h) (rh r)).

Fixpoint blocks (fuel : nat) (h : regs) (ws : list word) : regs :=
  match fuel, ws with
  | S fuel', _ :: _ => blocks fuel' (compress h (firstn 16 ws)) (skipn 16 ws)
  | _, _ => h
  end.

Definition digest (msg : list N) : regs :=
  let bs := pad msg in
  let ws := words_of (length bs) bs in
  blocks (length ws) init ws.

Definition hex_digit (d : N) : code_unit :=
  if d <? 10 then 48 + d else 87 + d.

Definition hex_word (x : word) : jsstring :=
  map (fun i => hex_digit (N.land (N.shiftr x (4 * N.of_nat i)) 15))
      (rev (seq 0 8)).

Definition hex (r : regs) : jsstring :=
  hex_word (ra r) ++ hex_word (rb r) ++ hex_word (rc r) ++ hex_word (rd r)
  ++ hex_word (re r) ++ hex_word (rf r) ++ hex_word (rg r)
  ++ hex_word (rh r).
End Sha256.

(** [update(key)] hashes the UTF-8 encoding of the string: a surrogate pair
    is one code point on four bytes, a lone surrogate is U+FFFD. *)
Definition is_high_surrogate (c : code_unit) : bool :=
  ((55296 <=? c) && (c <=? 56319))%N.
Definition is_low_surrogate (c : code_unit) : bool :=
  ((56320 <=? c) && (c <=? 57343))%N.

Definition utf8_point (p : N) : list N :=
  (if p <? 128 then [p]
   else if p <? 2048 then [192 + p / 64; 128 + p mod 64]
   else if p <? 65536
        then [224 + p / 4096; 128 + (p / 64) mod 64; 128 + p mod 64]
        else [240 + (p / 262144) mod 8; 128 + (p / 4096) mod 64;
              128 + (p / 64) mod 64; 128 + p mod 64])%N.

Fixpoint utf8 (s : jsstring) : list N :=
  match s with
  | [] => []
  | c :: s' =>
      if is_high_surrogate c then
        match s' with
        | d :: s'' =>
            if is_low_surrogate d
            then utf8_point (65536 + (c - 55296) * 1024 + (d - 56320))%N
                   ++ utf8 s''
            else utf8_point 65533 ++ utf8 s'
        | [] => utf8_point 65533
        end
      else if is_low_surrogate c then utf8_point 65533 ++ utf8 s'
      else utf8_point c ++ utf8 s'
  end.

Definition sha256_hex (s : jsstring) : jsstring :=
  Sha256.hex (Sha256.digest (utf8 s)).


(** ** [Date.prototype.toISOString] *)

(** The civil date of a day number counted from 1970-01-01, in the
    proleptic Gregorian calendar. *)
Definition civil_of_days (days : Z) : Z * Z * Z :=
  (let z := days + 719468 in
   let era := z / 146097 in
   let doe := z - era * 146097 in
   let yoe := (doe - doe / 1460 + doe / 36524 - doe / 146096) / 365 in
   let doy := doe - (365 * yoe + yoe / 4 - yoe / 100) in
   let mp := (5 * doy + 2) / 153 in
   let d := doy - (153 * mp + 2) / 5 + 1 in
   let m := if mp <? 10 then mp + 3 else mp - 9 in
   let y := yoe + era * 400 + (if m <=? 2 then 1 else 0) in
   (y, m, d))%Z.

Definition two (z : Z) : jsstring := pad_left 2 (Z_to_str z).

(** [t] is the time value in milliseconds since the epoch.  Years outside
    0..9999 are printed with a sign and six digits. *)
Definition toISOString (t : Z) : jsstring :=
  let '(y, m, d) := civil_of_days (t / 86400000) in
  let ms := (t mod 86400000)%Z in
  let year :=
    if ((0 <=? y) && (y <=? 9999))%Z then pad_left 4 (Z_to_str y)
    else (if (y <? 0)%Z then str "-" else str "+")
           ++ pad_left 6 (N_to_str (Z.abs_N y)) in
  year ++ str "-" ++ two m ++ str "-" ++ two d ++ str "T"
  ++ two (ms / 3600000) ++ str ":" ++ two ((ms / 60000) mod 60) ++ str ":"
  ++ two ((ms / 1000) mod 60) ++ str "."
  ++ pad_left 3 (Z_to_str (ms mod 1000)) ++ str "Z".

Definition is_digit (c : code_unit) : bool := ((48 <=? c) && (c <=? 57))%N.

(** The shape [YYYY-MM-DDTHH:mm:ss.sssZ]. *)
Definition is_iso8601 (s : jsstring) : bool :=
  match s with
  | [y1; y2; y3; y4; a; m1; m2; b; d1; d2; t; h1; h2; c; n1; n2; d; s1; s2;
     e; f1; f2; f3; z] =>
      forallb is_digit
        [y1; y2; y3; y4; m1; m2; d1; d2; h1; h2; n1; n2; s1; s2; f1; f2; f3]
      && jseq [a; b; t; c; d; e; z] (str "--T::.Z")
  | _ => false
  end.

(** ** [path]

    [path] is [path.posix], as it is on the Linux and macOS runners: the
    separator is "/", and [join], [normalize], [resolve] and [relative]
    work on the segments between separators.  ([path.win32] is not
    modelled.) *)

(** The parts of a path between separators, the empty ones included;
    [cur] holds the part being read, reversed. *)
Fixpoint split_slash (cur : jsstring) (s : jsstring) : list jsstring :=
  match s with
  | [] => [rev cur]
  | c :: s' =>
      if N.eqb c 47 then rev cur :: split_slash [] s'
      else split_slash (c :: cur) s'
  end.

(** One segment of [normalizeString]: an empty segment and "." are
    dropped; ".." takes the last segment away unless there is none or it
    is ".." itself, and then stays only where [allowAboveRoot]; another
    segment is kept. *)
Definition normalize_step (allowAboveRoot : bool) (res : list jsstring)
  (seg : jsstring) : list jsstring :=
  match seg with
  | [] => res
  | _ :: _ =>
      if jseq seg (str ".") then res
      else if jseq seg (str "..") then
        match rev res with
        | [] => if allowAboveRoot then [seg] else []
        | top :: below =>
            if jseq top (str "..")
            then (if allowAboveRoot then res ++ [seg] else res)
            else rev below
        end
      else res ++ [seg]
  end.

Definition normalize_segments (allowAboveRoot : bool) (path : jsstring)
  : list jsstring :=
  fold_left (normalize_step allowAboveRoot) (split_slash [] path) [].

Definition normalizeString (path : jsstring) (allowAboveRoot : bool)
  : jsstring :=
  join (str "/") (normalize_segments allowAboveRoot path).

(** [path.isAbsolute(p)] *)
Definition path_isAbsolute (p : jsstring) : bool :=
  match p with
  | c :: _ => N.eqb c 47
  | [] => false
  end.

Definition ends_with_slash (p : jsstring) : bool :=
  match rev p with
  | c :: _ => N.eqb c 47
  | [] => false
  end.

(** [path.normalize(p)] *)
Definition path_normalize (path : jsstring) : jsstring :=
  match path with
  | [] => str "."
  | _ :: _ =>
      let isAbsolute := path_isAbsolute path in
      let trailingSeparator := ends_with_slash path in
      match normalizeString path (negb isAbsolute) with
      | [] =>
          if isAbsolute then str "/"
          else if trailingSeparator then str "./" else str "."
      | c :: p =>
          (if isAbsolute then str "/" else [])
          ++ (c :: p)
          ++ (if trailingSeparator then str "/" else [])
      end
  end.

(** [path.join(a, b)]: the arguments that are not empty, with a separator
    between them, normalized. *)
Definition path_join (a b : jsstring) : jsstring :=
  match a, b with
  | [], [] => str "."
  | [], _ :: _ => path_normalize b
  | _ :: _, [] => path_normalize a
  | _ :: _, _ :: _ => path_normalize (a ++ str "/" ++ b)
  end.

(** [path.resolve(p)] in a process whose working directory is [cwd]. *)
Definition path_resolve (here p : jsstring) : jsstring :=
  let resolvedPath := match p with [] => [] | _ :: _ => p ++ str "/" end in
  let resolvedAbsolute := path_isAbsolute p in
  let resolvedPath' :=
    if resolvedAbsolute then resolvedPath
    else match here with
         | [] => resolvedPath
         | _ :: _ => here ++ str "/" ++ resolvedPath
         end in
  let resolvedAbsolute' :=
    if resolvedAbsolute then true else path_isAbsolute here in
  let normalized := normalizeString resolvedPath' (negb resolvedAbsolute') in
  if resolvedAbsolute' then str "/" ++ normalized
  else match normalized with
       | [] => str "."
       | _ :: _ => normalized
       end.

Fixpoint strip_common (a b : list jsstring)
  : list jsstring * list jsstring :=
  match a, b with
  | x :: a', y :: b' => if jseq x y then strip_common a' b' else (a, b)
  | _, _ => (a, b)
  end.

(** The segments of a resolved path. *)
Definition segments (p : jsstring) : list jsstring :=
  filter (fun seg => match seg with [] => false | _ :: _ => true end)
         (split_slash [] p).

(** [path.relative(from, to)]: both are resolved; past the segments they
    share, one ".." for each segment left of [from], then the segments left
    of [to]. *)
Definition path_relative (here from to : jsstring) : jsstring :=
  if jseq from to then []
  else
    let from' := path_resolve here from in
    let to' := path_resolve here to in
    if jseq from' to' then []
    else
      let (up, down) := strip_common (segments from') (segments to') in
      join (str "/") (map (fun _ => str "..") up ++ down).

(** A name that is one segment: not empty, without separator, and neither
    "." nor "..". *)
Definition one_segment (b : jsstring) : bool :=
  match b with [] => false | _ :: _ => true end
  && forallb (fun c => negb (N.eqb c 47)) b
  && negb (jseq b (str ".")) && negb (jseq b (str "..")).

(** What [path.join(a, b)] puts before [b] when [b] is one segment. *)
Definition dir_of (a : jsstring) : jsstring :=
  match a with
  | [] => []
  | _ :: _ =>
      (if path_isAbsolute a then str "/" else [])
      ++ flat_map (fun seg => seg ++ str "/")
           (normalize_segments (negb (path_isAbsolute a)) a)
  end.

(** ** The world outside the provider *)

(** A thrown [Error], by its [message]. *)
Definition Error := jsstring.

(** How an awaited call ends: with a value, with a thrown error, or not at
    all, when the promise it waits for is never settled. *)
Inductive Outcome (A : Type) : Type :=
| Returned (a : A)
| Thrown (e : Error)
| Unsettled.
Arguments Returned {A} a.
Arguments Thrown {A} e.
Arguments Unsettled {A}.

Definition Metadata := list (jsstring * jsstring).

(** A blob as [listBlobsFlat] and [getProperties] show it. *)
Record BlobItem := {
  name : jsstring;
  metadata : option Metadata;
  lastModified : option Z;        (* [Date.getTime()], milliseconds *)
  body : list N
}.

Inductive CompressionMethod := gzip | zstd | none.

(** Every call that leaves the process, as recorded in [calls]. *)
Inductive Call :=
| CreateIfNotExists
| Exists (blobName : jsstring)
| ListBlobsFlat (prefix : jsstring)
| GetProperties (blobName : jsstring)
| Download (blobName : jsstring)
| UploadStream (blobName : jsstring) (bufferSize : nat)
               (maxConcurrency : nat) (meta : Metadata)
| Which (tool : jsstring) (check : bool)
| Exec (tool : jsstring) (args : list jsstring) (cwd : jsstring)
| Mkdir (path : jsstring)
| Rm (path : jsstring)
| WriteFile (path : jsstring)
| Unlink (path : jsstring)
| Stat (path : jsstring)
| WriteStream (path : jsstring)
| Pipe (path : jsstring).

Inductive Level := Info | Warning | Debug.

(** What the process reads and never writes.  Time does not pass during
    a call: every reading of the clock gives [clock]. *)
Record Env := {
  RUNNER_TEMP : option jsstring;
  GITHUB_WORKSPACE : option jsstring;
  cwd : jsstring;                  (* [process.cwd()] *)
  tmpdir : jsstring;               (* [os.tmpdir()] *)
  platform : jsstring;             (* [process.platform] *)
  tar_on_path : option jsstring;   (* where [io.which] finds tar, if at all *)
  clock : Z;                       (* [Date.now()] *)
  random : jsstring                (* [Math.random().toString(36)] *)
}.

(** [faults] answers the calls in order: [Some e] makes the next call
    fail with [e] (it throws, or, where nobody listens, never ends),
    [None] lets it through, and so does an exhausted list.
    [tar_runs] does the same for the archiving tool: its exit code and
    the bytes it leaves in the archive when it creates one. *)
Record World := {
  env : Env;
  blobs : list BlobItem;
  files : list (jsstring * list N);
  dirs : list jsstring;
  faults : list (option Error);
  tar_runs : list (Z * list N);
  calls : list Call;
  log : list (Level * jsstring)
}.

Definition set_blobs (bs : list BlobItem) (w : World) : World :=
  {| env := env w; blobs := bs; files := files w; dirs := dirs w;
     faults := faults w; tar_runs := tar_runs w; calls := calls w;
     log := log w |}.
Definition set_files (fs : list (jsstring * list N)) (w : World) : World :=
  {| env := env w; blobs := blobs w; files := fs; dirs := dirs w;
     faults := faults w; tar_runs := tar_runs w; calls := calls w;
     log := log w |}.
Definition set_dirs (ds : list jsstring) (w : World) : World :=
  {| env := env w; blobs := blobs w; files := files w; dirs := ds;
     faults := faults w; tar_runs := tar_runs w; calls := calls w;
     log := log w |}.
Definition set_faults (fl : list (option Error)) (w : World) : World :=
  {| env := env w; blobs := blobs w; files := files w; dirs := dirs w;
     faults := fl; tar_runs := tar_runs w; calls := calls w;
     log := log w |}.
Definition set_tar_runs (tr : list (Z * list N)) (w : World) : World :=
  {| env := env w; blobs := blobs w; files := files w; dirs := dirs w;
     faults := faults w; tar_runs := tr; calls := calls w;
     log := log w |}.
Definition set_calls (cs : list Call) (w : World) : World :=
  {| env := env w; blobs := blobs w; files := files w; dirs := dirs w;
     faults := faults w; tar_runs := tar_runs w; calls := cs;
     log := log w |}.
Definition set_log (l : list (Level * jsstring)) (w : World) : World :=
  {| env := env w; blobs := blobs w; files := files w; dirs := dirs w;
     faults := faults w; tar_runs := tar_runs w; calls := calls w;
     log := l |}.

(** ** Awaited code: state and exceptions *)

Definition M (A : Type) : Type := World -> Outcome A * World.

Definition ret {A} (a : A) : M A := fun w => (Returned a, w).
Definition throw {A} (e : Error) : M A := fun w => (Thrown e, w).
Definition bind {A B} (m : M A) (k : A -> M B) : M B :=
  fun w => match m w with
           | (Returned a, w1) => k a w1
           | (Thrown e, w1) => (Thrown e, w1)
           | (Unsettled, w1) => (Unsettled, w1)
           end.

(** [try { body } catch (error) { handler }] *)
Definition try_catch {A} (body : M A) (handler : Error -> M A) : M A :=
  fun w => match body w with
           | (Returned a, w1) => (Returned a, w1)
           | (Thrown e, w1) => handler e w1
           | (Unsettled, w1) => (Unsettled, w1)
           end.

(** [try { body } finally { fin }]: [fin] runs on both exits, and an error
    thrown by it replaces the outcome of [body].  A body that never settles
    has no exit: [fin] does not run. *)
Definition try_finally {A} (body : M A) (fin : M unit) : M A :=
  fun w => let (r, w1) := body w in
           match r with
           | Unsettled => (Unsettled, w1)
           | _ =>
               match fin w1 with
               | (Returned _, w2) => (r, w2)
               | (Thrown e, w2) => (Thrown e, w2)
               | (Unsettled, w2) => (Unsettled, w2)
               end
           end.

Declare Scope await_scope.
Delimit Scope await_scope with await.
Notation "x <- m ;; k" := (bind m (fun x => k))
  (at level 61, m at next level, right associativity) : await_scope.
Notation "m ;; k" := (bind m (fun _ => k))
  (at level 61, right associativity) : await_scope.
Open Scope await_scope.

Definition get {A} (f : World -> A) : M A := fun w => (Returned (f w), w).
Definition modify (f : World -> World) : M unit := fun w => (Returned tt, f w).

(** A call to the outside: it is recorded, and it throws when the schedule
    of faults says so. *)
Definition outside (c : Call) : M unit :=
  fun w =>
    let w1 := set_calls (calls w ++ [c]) w in
    match faults w with
    | Some e :: rest => (Thrown e, set_faults rest w1)
    | None :: rest => (Returned tt, set_faults rest w1)
    | [] => (Returned tt, w1)
    end.

(** Work of the outside whose failure nobody listens for: it is recorded,
    and when the schedule of faults makes it fail, the promise that waits
    for its end is never settled. *)
Definition unheard (c : Call) : M unit :=
  fun w =>
    let w1 := set_calls (calls w ++ [c]) w in
    match faults w with
    | Some _ :: rest => (Unsettled, set_faults rest w1)
    | None :: rest => (Returned tt, set_faults rest w1)
    | [] => (Returned tt, w1)
    end.

(** [core.info], [core.warning], [core.debug] *)
Definition core_log (l : Level) (msg : jsstring) : M unit :=
  modify (fun w => set_log (log w ++ [(l, msg)]) w).
Definition info := core_log Info.
Definition warning := core_log Warning.
Definition debug := core_log Debug.

(** [a || b] on a string that may be undefined: the empty string is falsy. *)
Definition or_else (a : option jsstring) (b : jsstring) : jsstring :=
  match a with
  | Some (c :: s) => c :: s
  | _ => b
  end.

(** *** Files *)

Fixpoint file_get (p : jsstring) (fs : list (jsstring * list N))
  : option (list N) :=
  match fs with
  | [] => None
  | (q, c) :: fs' => if jseq q p then Some c else file_get p fs'
  end.

Definition file_remove (p : jsstring) (fs : list (jsstring * list N)) :=
  filter (fun e => negb (jseq (fst e) p)) fs.

Definition file_put (p : jsstring) (c : list N)
  (fs : list (jsstring * list N)) :=
  (p, c) :: file_remove p fs.

(** [p] is [dir] or lies below it. *)
Definition under (dir p : jsstring) : bool :=
  jseq p dir || startsWith p (dir ++ str "/").

Definition enoent (op path : jsstring) : Error :=
  str "ENOENT: no such file or directory, " ++ op ++ str " '" ++ path
  ++ str "'".

(** [fs.promises.mkdir(path, { recursive: true })] *)
Definition fs_mkdir (path : jsstring) : M unit :=
  outside (Mkdir path) ;;
  modify (fun w => set_dirs (path :: dirs w) w).

(** [fs.promises.rm(path, { recursive: true, force: true })] *)
Definition fs_rm (path : jsstring) : M unit :=
  outside (Rm path) ;;
  modify (fun w =>
    set_dirs (filter (fun d => negb (under path d)) (dirs w))
      (set_files (filter (fun e => negb (under path (fst e))) (files w)) w)).

(** [fs.promises.writeFile(path, text)] *)
Definition fs_writeFile (path : jsstring) (text : jsstring) : M unit :=
  outside (WriteFile path) ;;
  modify (fun w => set_files (file_put path (utf8 text) (files w)) w).

(** [fs.promises.unlink(path)] *)
Definition fs_unlink (path : jsstring) : M unit :=
  outside (Unlink path) ;;
  found <- get (fun w => file_get path (files w)) ;;
  match found with
  | Some _ => modify (fun w => set_files (file_remove path (files w)) w)
  | None => throw (enoent (str "unlink") path)
  end.

(** [(await fs.promises.stat(path)).size] *)
Definition fs_stat_size (path : jsstring) : M nat :=
  outside (Stat path) ;;
  found <- get (fun w => file_get path (files w)) ;;
  match found with
  | Some c => ret (length c)
  | None => throw (enoent (str "stat") path)
  end.

(** *** The container *)

Definition named (n : jsstring) (b : BlobItem) : bool := jseq (name b) n.

Definition stored (n : jsstring) (bs : list BlobItem) : bool :=
  existsb (named n) bs.

(** A block blob written under a name replaces the blob of that name, or
    is a new blob of the container. *)
Fixpoint store_put (b : BlobItem) (bs : list BlobItem) : list BlobItem :=
  match bs with
  | [] => [b]
  | b' :: bs' => if named (name b) b' then b :: bs' else b' :: store_put b bs'
  end.

Definition blobNotFound : Error := str "The specified blob does not exist.".

(** [containerClient.createIfNotExists()] *)
Definition createIfNotExists : M unit := outside CreateIfNotExists.

(** [containerClient.getBlobClient(n).exists()] *)
Definition blob_exists (n : jsstring) : M bool :=
  outside (Exists n) ;;
  get (fun w => stored n (blobs w)).

(** [containerClient.listBlobsFlat({ prefix })], read to its end *)
Definition listBlobsFlat (prefix : jsstring) : M (list BlobItem) :=
  outside (ListBlobsFlat prefix) ;;
  get (fun w => filter (fun b => startsWith (name b) prefix) (blobs w)).

(** [containerClient.getBlobClient(n).getProperties()] *)
Definition getProperties (n : jsstring) : M BlobItem :=
  outside (GetProperties n) ;;
  found <- get (fun w => find (named n) (blobs w)) ;;
  match found with
  | Some b => ret b
  | None => throw blobNotFound
  end.

(** [(await blobClient.download()).readableStreamBody] *)
Definition blob_download (n : jsstring) : M (option (list N)) :=
  outside (Download n) ;;
  found <- get (fun w => find (named n) (blobs w)) ;;
  match found with
  | Some b => ret (Some (body b))
  | None => throw blobNotFound
  end.

(** [stream.pipe(fs.createWriteStream(path)).on("finish", resolve)
    .on("error", reject)], awaited.  [pipe] returns its argument, so both
    listeners are on the write stream.  An error of the write stream (a
    fault of [WriteStream]) rejects.  An error of the body that is read (a
    fault of [Pipe]) has no listener: the write stream is never ended and
    the promise is never settled.  (What reached the file before such a
    failure is not followed.) *)
Definition pipe_to_file (stream : list N) (path : jsstring) : M unit :=
  outside (WriteStream path) ;;
  unheard (Pipe path) ;;
  modify (fun w => set_files (file_put path stream (files w)) w).

(** [blockBlobClient.uploadStream(fs.createReadStream(path), bufferSize,
    maxConcurrency, { metadata })]; the backend stamps [lastModified]. *)
Definition uploadStream (n path : jsstring) (bufferSize maxConcurrency : nat)
  (meta : Metadata) : M unit :=
  outside (UploadStream n bufferSize maxConcurrency meta) ;;
  found <- get (fun w => file_get path (files w)) ;;
  match found with
  | Some c =>
      modify (fun w =>
        set_blobs
          (store_put {| name := n; metadata := Some meta;
                        lastModified := Some (clock (env w)); body := c |}
                     (blobs w)) w)
  | None => throw (enoent (str "open") path)
  end.

(** *** Tools *)

(** The error of [io.which(tool, true)] for a tool that is not found. *)
Definition not_located (plat tool : jsstring) : Error :=
  str "Unable to locate executable file: " ++ tool
  ++ str ". Please verify either the file path exists or the file can be found within a directory specified by the PATH environment variable. Also "
  ++ (if jseq plat (str "win32")
      then str "verify the file has a valid extension for an executable file."
      else str "check the file mode to verify the file is executable.").

(** [io.which(tool, check)]: the empty string when the tool is missing and
    [check] is false, an error when [check] is true. *)
Definition io_which (tool : jsstring) (check : bool) : M jsstring :=
  outside (Which tool check) ;;
  found <- get (fun w => tar_on_path (env w)) ;;
  match found with
  | Some p => ret p
  | None =>
      if check
      then
        plat <- get (fun w => platform (env w)) ;;
        throw (not_located plat tool)
      else ret []
  end.

Fixpoint arg_after (flag : jsstring) (args : list jsstring)
  : option jsstring :=
  match args with
  | a :: rest =>
      if jseq a flag
      then match rest with b :: _ => Some b | [] => None end
      else arg_after flag rest
  | [] => None
  end.

(** What a run of tar leaves on disk: with [-c], the archive named after
    [-f].  What an extraction writes is not followed. *)
Definition tar_writes (args : list jsstring) (bytes : list N)
  (fs : list (jsstring * list N)) :=
  if existsb (jseq (str "-c")) args
  then match arg_after (str "-f") args with
       | Some out => file_put out bytes fs
       | None => fs
       end
  else fs.

(** The error of [exec.exec] for a tool that exits with a status other
    than 0. *)
Definition exec_failed (tool : jsstring) (code : Z) : Error :=
  str "The process '" ++ tool ++ str "' failed with exit code "
  ++ Z_to_str code.

(** [exec.exec(tool, args, { cwd })]: the exit code of the tool.  The
    callers pass no [ignoreReturnCode], so the library rejects when the
    tool exits with a status other than 0: the status that the callers are
    given is 0, and their own checks of it never fire.  (The tool path is
    taken as one word, as [io.which] gives it for tar.) *)
Definition exec_exec (tool : jsstring) (args : list jsstring)
  (dir : jsstring) : M Z :=
  outside (Exec tool args dir) ;;
  run <- get (fun w => hd (0%Z, []) (tar_runs w)) ;;
  modify (fun w =>
    set_tar_runs (tl (tar_runs w))
      (set_files (tar_writes args (snd run) (files w)) w)) ;;
  if (fst run =? 0)%Z
  then ret (fst run)
  else throw (exec_failed tool (fst run)).

(** ** [src/archive/ArchiveUtils.ts] *)

Record ArchiveOptions := { compressionMethod : CompressionMethod }.

Definition getCompressionExtension (method : CompressionMethod) : jsstring :=
  match method with
  | gzip => str ".tar.gz"
  | zstd => str ".tar.zst"
  | none => str ".tar"
  end.

Definition getCompressionArgs (method : CompressionMethod) : list jsstring :=
  match method with
  | gzip => [str "-z"]
  | zstd => [str "--zstd"]
  | none => []
  end.

Definition getTarPath : M jsstring :=
  plat <- get (fun w => platform (env w)) ;;
  if jseq plat (str "win32")
  then
    gnuTar <- try_catch (p <- io_which (str "tar") false ;; ret (Some p))
                        (fun _ => ret None) ;;
    match gnuTar with
    | Some (c :: p) => ret (c :: p)
    | _ => io_which (str "tar") true
    end
  else io_which (str "tar") true.

Definition workspace_root : M jsstring :=
  get (fun w => or_else (GITHUB_WORKSPACE (env w)) (cwd (env w))).

Definition manifest_path (archiveFolder : jsstring) : jsstring :=
  path_join archiveFolder (str "manifest.txt").

Definition archive_path (archiveFolder : jsstring)
  (method : CompressionMethod) : jsstring :=
  path_join archiveFolder (str "cache" ++ getCompressionExtension method).

(** The manifest, in a process whose working directory is [here]
    ([path.relative] resolves its arguments against it). *)
Definition manifest_content (here workspaceRoot : jsstring)
  (cachePaths : list jsstring) : jsstring :=
  join [10%N]
    (map (fun p =>
            let absPath :=
              if path_isAbsolute p then p else path_join workspaceRoot p in
            path_relative here workspaceRoot absPath)
         cachePaths).

Definition create_args (method : CompressionMethod)
  (archivePath workspaceRoot manifestPath : jsstring) : list jsstring :=
  [str "--posix"; str "-c"] ++ getCompressionArgs method
  ++ [str "-f"; archivePath; str "-P"; str "-C"; workspaceRoot;
      str "--files-from"; manifestPath].

Definition createArchive (archiveFolder : jsstring)
  (cachePaths : list jsstring) (options : ArchiveOptions) : M jsstring :=
  let archivePath := archive_path archiveFolder (compressionMethod options) in
  tarPath <- getTarPath ;;
  workspaceRoot <- workspace_root ;;
  let manifestPath := manifest_path archiveFolder in
  manifestContent <-
    get (fun w => manifest_content (cwd (env w)) workspaceRoot cachePaths) ;;
  fs_writeFile manifestPath manifestContent ;;
  let args := create_args (compressionMethod options) archivePath
                          workspaceRoot manifestPath in
  debug (str "Creating archive with: " ++ tarPath ++ str " "
         ++ join (str " ") args) ;;
  exitCode <- exec_exec tarPath args workspaceRoot ;;
  if negb (exitCode =? 0)%Z
  then throw (str "Tar failed with exit code " ++ Z_to_str exitCode)
  else
    (* Clean up manifest *)
    try_catch (fs_unlink manifestPath) (fun _ => ret tt) ;;
    ret archivePath.

Definition extract_args (method : CompressionMethod)
  (archivePath workspaceRoot : jsstring) : list jsstring :=
  [str "-x"] ++ getCompressionArgs method
  ++ [str "-f"; archivePath; str "-P"; str "-C"; workspaceRoot].

Definition extractArchive (archivePath : jsstring) (options : ArchiveOptions)
  : M unit :=
  tarPath <- getTarPath ;;
  workspaceRoot <- workspace_root ;;
  let args := extract_args (compressionMethod options) archivePath
                           workspaceRoot in
  debug (str "Extracting archive with: " ++ tarPath ++ str " "
         ++ join (str " ") args) ;;
  exitCode <- exec_exec tarPath args workspaceRoot ;;
  if negb (exitCode =? 0)%Z
  then throw (str "Tar extraction failed with exit code "
              ++ Z_to_str exitCode)
  else ret tt.

Definition detectCompressionMethod (archivePath : jsstring)
  : CompressionMethod :=
  if endsWith archivePath (str ".tar.gz") || endsWith archivePath (str ".tgz")
  then gzip
  else if endsWith archivePath (str ".tar.zst") then zstd
  else none.

Definition getArchiveExtension (method : CompressionMethod) : jsstring :=
  getCompressionExtension method.

(** ** [src/providers/AzureCacheProvider.ts] *)

Definition CACHE_KEY_METADATA : jsstring := str "cachekey".
Definition CREATED_AT_METADATA : jsstring := str "createdat".
Definition MAX_BLOB_NAME_LENGTH : nat := 1024.

(** The private field [compressionMethod], initialised to ["gzip"] and
    never assigned. *)
Definition this_compressionMethod : CompressionMethod := gzip.

Record CacheRestoreOptions := { lookupOnly : option bool }.

(** [options?.lookupOnly] as a condition *)
Definition lookupOnly_set (options : option CacheRestoreOptions) : bool :=
  match options with
  | Some o => match lookupOnly o with Some b => b | None => false end
  | None => false
  end.

Definition sanitized_chars (key : jsstring) : jsstring :=
  replace_space_runs (str "_") false
    (replace_char 35%N (str "_")
       (replace_char 63%N (str "_")
          (replace_char 92%N (str "_") key))).

Definition sanitizeBlobName (key : jsstring) : jsstring :=
  let sanitized := sanitized_chars key in
  if (MAX_BLOB_NAME_LENGTH <? length sanitized)%nat
  then
    let hash := substring 0 8 (sha256_hex key) in
    let maxBaseLength := (MAX_BLOB_NAME_LENGTH - length hash - 1)%nat in
    substring 0 maxBaseLength sanitized ++ str "_" ++ hash
  else sanitized.

Definition ensureContainerExists : M unit :=
  try_catch createIfNotExists
    (fun error => debug (str "Container check/create: " ++ error)).

(** [obj[key]] on a metadata object *)
Fixpoint meta_get (key : jsstring) (m : Metadata) : option jsstring :=
  match m with
  | [] => None
  | (k, v) :: m' => if jseq k key then Some v else meta_get key m'
  end.

(** [properties.metadata?.[CACHE_KEY_METADATA] || blob.name] *)
Definition original_key (properties blob : BlobItem) : jsstring :=
  or_else (match metadata properties with
           | Some m => meta_get CACHE_KEY_METADATA m
           | None => None
           end)
          (name blob).

(** An element of [matches]. *)
Record Candidate := { blobItem : BlobItem; candKey : jsstring }.

(** The result of [findMatchingBlob]. *)
Record Match := { cacheKey : jsstring; blobName : jsstring }.

(** [blobItem.properties.lastModified?.getTime() || 0] *)
Definition time_of (b : BlobItem) : Z :=
  match lastModified b with
  | Some t => t
  | None => 0%Z
  end.

(** [Array.prototype.sort(compare)]: the order is [compare]'s, and elements
    that compare equal stay in their order (the sort is stable). *)
Fixpoint insert_by {A} (compare : A -> A -> Z) (x : A) (l : list A) : list A :=
  match l with
  | [] => [x]
  | y :: l' =>
      if (compare x y <=? 0)%Z then x :: y :: l'
      else y :: insert_by compare x l'
  end.

Definition array_sort {A} (compare : A -> A -> Z) (l : list A) : list A :=
  fold_right (insert_by compare) [] l.

Definition by_recency (a b : Candidate) : Z :=
  let timeA := time_of (blobItem a) in
  let timeB := time_of (blobItem b) in
  (timeB - timeA)%Z.

(** The body of the [for await] loop over the listing. *)
Fixpoint collect_matches (listing : list BlobItem) (matches : list Candidate)
  : M (list Candidate) :=
  match listing with
  | [] => ret matches
  | blob :: rest =>
      properties <- getProperties (name blob) ;;
      let originalKey := original_key properties blob in
      collect_matches rest
        (matches ++ [{| blobItem := blob; candKey := originalKey |}])
  end.

(** The loop over [restoreKeys]. *)
Fixpoint scan_restore_keys (restoreKeys : list jsstring) : M (option Match) :=
  match restoreKeys with
  | [] => ret None
  | restoreKey :: rest =>
      let prefix := sanitizeBlobName restoreKey in
      listing <- listBlobsFlat prefix ;;
      matches <- collect_matches listing [] ;;
      if (0 <? length matches)%nat
      then
        match array_sort by_recency matches with
        | bestMatch :: _ =>
            ret (Some {| cacheKey := candKey bestMatch;
                         blobName := name (blobItem bestMatch) |})
        | [] => throw (str "Cannot read properties of undefined")
        end
      else scan_restore_keys rest
  end.

Definition findMatchingBlob (primaryKey : jsstring)
  (restoreKeys : list jsstring) : M (option Match) :=
  (* Try exact match first *)
  let primaryBlobName := sanitizeBlobName primaryKey in
  primaryExists <- blob_exists primaryBlobName ;;
  if primaryExists : bool
  then ret (Some {| cacheKey := primaryKey; blobName := primaryBlobName |})
  else scan_restore_keys restoreKeys.

Definition downloadBlob (blobName destinationPath : jsstring) : M unit :=
  info (str "Downloading cache from Azure Storage...") ;;
  readableStreamBody <- blob_download blobName ;;
  match readableStreamBody with
  | None => throw (str "Failed to get download stream")
  | Some stream =>
      pipe_to_file stream destinationPath ;;
      info (str "Download complete")
  end.

Definition uploadBlob (blobName sourcePath cacheKey : jsstring) : M unit :=
  info (str "Uploading cache to Azure Storage...") ;;
  size <- fs_stat_size sourcePath ;;
  now <- get (fun w => clock (env w)) ;;
  uploadStream blobName sourcePath size 4
    [(CACHE_KEY_METADATA, cacheKey);
     (CREATED_AT_METADATA, toISOString now)] ;;
  info (str "Upload complete").

Definition createTempDirectory : M jsstring :=
  tempBase <- get (fun w => or_else (RUNNER_TEMP (env w)) (tmpdir (env w))) ;;
  now <- get (fun w => clock (env w)) ;;
  rnd <- get (fun w => random (env w)) ;;
  let tempDir :=
    path_join tempBase
      (str "azure-cache-" ++ Z_to_str now ++ str "-" ++ substring 2 8 rnd) in
  fs_mkdir tempDir ;;
  ret tempDir.

Definition cleanupTempDirectory (tempDir : jsstring) : M unit :=
  try_catch (fs_rm tempDir)
    (fun error => debug (str "Failed to cleanup temp directory: " ++ error)).

(** [(size / 1024 / 1024).toFixed(2)]: the quotient is exact in a double, so
    the two decimals are those of the nearest hundredth, halves going up. *)
Definition megabytes (size : nat) : jsstring :=
  let n := ((200 * N.of_nat size + 1048576) / 2097152)%N in
  N_to_str (n / 100) ++ str "." ++ pad_left 2 (N_to_str (n mod 100)%N).

(** The [try] block of [restoreCache]. *)
Definition restoreCache_try (cachePaths : list jsstring)
  (primaryKey : jsstring) (restoreKeys : list jsstring)
  (options : option CacheRestoreOptions) : M (option jsstring) :=
  ensureContainerExists ;;
  found <- findMatchingBlob primaryKey restoreKeys ;;
  match found with
  | None =>
      info (str "No cache found matching the provided keys") ;;
      ret None
  | Some m =>
      info (str "Cache found for key: " ++ cacheKey m) ;;
      if lookupOnly_set options
      then
        info (str "Lookup only mode - skipping download") ;;
        ret (Some (cacheKey m))
      else
        tempDir <- createTempDirectory ;;
        let archiveExtension := getArchiveExtension this_compressionMethod in
        let archivePath := path_join tempDir (str "cache" ++ archiveExtension) in
        try_finally
          (downloadBlob (blobName m) archivePath ;;
           extractArchive archivePath
             {| compressionMethod := this_compressionMethod |} ;;
           info (str "Cache restored from key: " ++ cacheKey m) ;;
           ret (Some (cacheKey m)))
          (cleanupTempDirectory tempDir)
  end.

(** [undefined] is [None]. *)
Definition restoreCache (cachePaths : list jsstring) (primaryKey : jsstring)
  (restoreKeys : list jsstring) (options : option CacheRestoreOptions)
  : M (option jsstring) :=
  try_catch (restoreCache_try cachePaths primaryKey restoreKeys options)
    (fun error =>
       warning (str "Failed to restore cache: " ++ error) ;;
       ret None).

(** The [try] block of [saveCache]. *)
Definition saveCache_try (cachePaths : list jsstring) (primaryKey : jsstring)
  : M Z :=
  ensureContainerExists ;;
  let blobName := sanitizeBlobName primaryKey in
  exists_ <- blob_exists blobName ;;
  if exists_ : bool
  then
    info (str "Cache already exists for key: " ++ primaryKey
          ++ str ", skipping save") ;;
    ret (-1)%Z
  else
    tempDir <- createTempDirectory ;;
    try_finally
      (archivePath <- createArchive tempDir cachePaths
                        {| compressionMethod := this_compressionMethod |} ;;
       size <- fs_stat_size archivePath ;;
       info (str "Archive created: " ++ megabytes size ++ str " MB") ;;
       uploadBlob blobName archivePath primaryKey ;;
       info (str "Cache saved with key: " ++ primaryKey) ;;
       now <- get (fun w => clock (env w)) ;;
       ret now)
      (cleanupTempDirectory tempDir).

Definition saveCache (cachePaths : list jsstring) (primaryKey : jsstring)
  : M Z :=
  try_catch (saveCache_try cachePaths primaryKey)
    (fun error =>
       warning (str "Failed to save cache: " ++ error) ;;
       ret (-1)%Z).

(** ** What the statements below speak of *)

Definition is_hex (c : code_unit) : bool :=
  ((48 <=? c) && (c <=? 57) || (97 <=? c) && (c <=? 102))%N.

(** The calls of resolution: the container check, the existence checks,
    the listings and the properties.  None of them moves a blob, touches
    the disk or runs a tool. *)
Definition is_query (c : Call) : bool :=
  match c with
  | CreateIfNotExists | Exists _ | ListBlobsFlat _ | GetProperties _ => true
  | _ => false
  end.

(** The blobs a prefix listing answers with. *)
Definition listed (prefix : jsstring) (bs : list BlobItem) : list BlobItem :=
  filter (fun b => startsWith (name b) prefix) bs.

(** The properties [getProperties] answers with for a listed blob. *)
Definition properties_of (bs : list BlobItem) (b : BlobItem) : BlobItem :=
  match find (named (name b)) bs with
  | Some p => p
  | None => b
  end.

(** The blob that [uploadBlob] leaves in the container. *)
Definition saved_blob (w : World) (primaryKey : jsstring) (bytes : list N)
  : BlobItem :=
  {| name := sanitizeBlobName primaryKey;
     metadata := Some [(CACHE_KEY_METADATA, primaryKey);
                       (CREATED_AT_METADATA, toISOString (clock (env w)))];
     lastModified := Some (clock (env w));
     body := bytes |}.

(** Resolution as [restoreCache] runs it. *)
Definition resolution (primaryKey : jsstring) (restoreKeys : list jsstring)
  : M (option Match) :=
  ensureContainerExists ;; findMatchingBlob primaryKey restoreKeys.


(** The candidate the loop keeps for a listed blob. *)
Definition candidate_of (bs : list BlobItem) (b : BlobItem) : Candidate :=
  {| blobItem := b; candKey := original_key (properties_of bs b) b |}.

(** The match that [findMatchingBlob] reports for a listed blob. *)
Definition match_of (bs : list BlobItem) (b : BlobItem) : Match :=
  {| cacheKey := original_key (properties_of bs b) b; blobName := name b |}.

(** The first of the elements with the greatest time, in list order. *)
Fixpoint first_latest {A} (time : A -> Z) (l : list A) : option A :=
  match l with
  | [] => None
  | x :: l' =>
      match first_latest time l' with
      | Some y => if (time x <? time y)%Z then Some y else Some x
      | None => Some x
      end
  end.

(** The calls of the loop over the restore keys when nothing fails. *)
Fixpoint scan_calls (bs : list BlobItem) (restoreKeys : list jsstring)
  : list Call :=
  match restoreKeys with
  | [] => []
  | restoreKey :: rest =>
      let l := listed (sanitizeBlobName restoreKey) bs in
      ListBlobsFlat (sanitizeBlobName restoreKey)
        :: map (fun b => GetProperties (name b)) l
        ++ match l with
           | [] => scan_calls bs rest
           | _ :: _ => []
           end
  end.

(** The answer of the loop over the restore keys when nothing fails. *)
Fixpoint scan_answer (bs : list BlobItem) (restoreKeys : list jsstring)
  : option Match :=
  match restoreKeys with
  | [] => None
  | restoreKey :: rest =>
      match first_latest time_of
              (listed (sanitizeBlobName restoreKey) bs) with
      | Some b => Some (match_of bs b)
      | None => scan_answer bs rest
      end
  end.

Arguments sanitizeBlobName : simpl never.
Arguments toISOString : simpl never.
Arguments Z_to_str : simpl never.
Arguments N_to_str : simpl never.
Arguments megabytes : simpl never.
Arguments path_join : simpl never.
Arguments path_normalize : simpl never.
Arguments path_resolve : simpl never.
Arguments path_relative : simpl never.
Arguments exec_failed : simpl never.
Arguments not_located : simpl never.
Arguments manifest_content : simpl never.
Arguments substring : simpl never.
Arguments utf8 : simpl never.
Arguments str : simpl never.
Arguments join : simpl never.

(** The world after a step keeps the container and the environment. *)
Definition same_store (w w' : World) : Prop :=
  env w' = env w /\ blobs w' = blobs w.

(** The world after a step differs only by what was asked of the
    container: nothing on disk moved, no tool ran, and the new calls are
    queries. *)
Definition asked_only (w w' : World) : Prop :=
  env w' = env w /\ blobs w' = blobs w /\ files w' = files w
  /\ dirs w' = dirs w /\ tar_runs w' = tar_runs w
  /\ exists new, calls w' = calls w ++ new /\ forallb is_query new = true.

(** A relation between the worlds before and after that a computation
    maintains, whatever its outcome. *)
Definition keeps {A} (R : World -> World -> Prop) (m : M A) : Prop :=
  forall w, R w (snd (m w)).

(** A computation whose awaits all settle: it returns or it throws. *)
Definition settles {A} (m : M A) : Prop :=
  forall w, fst (m w) <> Unsettled.

(** A computation that always returns. *)
Definition total {A} (m : M A) : Prop :=
  forall w, exists a, fst (m w) = Returned a.

(** How many blobs of the container have a name. *)
Definition count_named (n : jsstring) (bs : list BlobItem) : nat :=
  length (filter (named n) bs).

(** What one call of [saveCache] can come to: an error, the skip
    sentinel with the container untouched, or the time of the call with
    the blob put under the sanitized name, which was free. *)
Definition save_result (primaryKey : jsstring) (w : World) (r : Outcome Z)
  (w' : World) : Prop :=
  env w' = env w
  /\ ((exists e, r = Thrown e /\ blobs w' = blobs w)
      \/ (r = Returned (-1)%Z /\ blobs w' = blobs w)
      \/ (stored (sanitizeBlobName primaryKey) (blobs w) = false
          /\ r = Returned (clock (env w))
          /\ exists bytes,
               blobs w'
               = store_put (saved_blob w primaryKey bytes) (blobs w))).

Definition digits_ok (width : nat) (z : Z) : bool :=
  let s := pad_left width (Z_to_str z) in
  (length s =? width)%nat && forallb is_digit s.

(** [f] holds on the [count] integers from [z] on. *)
Fixpoint all_from (f : Z -> bool) (count : nat) (z : Z) : bool :=
  match count with
  | O => true
  | S count' => f z && all_from f count' (z + 1)%Z
  end.

Definition level_eqb (a b : Level) : bool :=
  match a, b with
  | Info, Info | Warning, Warning | Debug, Debug => true
  | _, _ => false
  end.

(** A line of the log of the world. *)
Definition logged (l : Level) (msg : string) (w : World) : bool :=
  existsb (fun e => level_eqb (fst e) l && jseq (snd e) (str msg)) (log w).

Definition is_unlink (c : Call) : bool :=
  match c with
  | Unlink _ => true
  | _ => false
  end.
(** ** Worlds and keys for the examples *)

(** A key whose sanitized form is longer than a blob name may be. *)
Definition long_key : jsstring :=
  str "linux build\cache?#" ++ repeat 120%N 1100.

Definition runner : Env :=
  {| RUNNER_TEMP := Some (str "/home/runner/work/_temp");
     GITHUB_WORKSPACE := Some (str "/home/runner/work/app");
     cwd := str "/home/runner/work/app";
     tmpdir := str "/tmp";
     platform := str "linux";
     tar_on_path := Some (str "/usr/bin/tar");
     clock := 1700000000123%Z;
     random := str "0.k3j9x1abc" |}.

Definition blob (n key : string) (t : Z) : BlobItem :=
  {| name := str n;
     metadata := Some [(CACHE_KEY_METADATA, str key)];
     lastModified := Some t;
     body := [] |}.

(** A blob that was not written by [saveCache]: it has no metadata. *)
Definition legacy_blob (n : string) (t : Z) : BlobItem :=
  {| name := str n; metadata := None; lastModified := Some t; body := [] |}.

Definition world_of (bs : list BlobItem) (fl : list (option Error))
  (tr : list (Z * list N)) : World :=
  {| env := runner; blobs := bs; files := []; dirs := [];
     faults := fl; tar_runs := tr; calls := []; log := [] |}.

(** An exact match next to more recent blobs under the restore prefix. *)
Definition exact_and_prefix : World :=
  world_of [blob "linux-v2" "linux-v2" 100;
            blob "linux-v3" "linux-v3" 300] [] [].

(** No exact match; nothing under the first prefix, two blobs under the
    second. *)
Definition two_under_second_prefix : World :=
  world_of [blob "linux-a1" "linux-a1" 100;
            blob "macos-b7" "macos-b7" 500;
            blob "linux-a2" "linux-a2" 300] [] [].

(** Two blobs under one prefix with the same [lastModified], listed in one
    order and in the other. *)
Definition tie_listed_ab : World :=
  world_of [blob "linux-a" "linux-a" 500; blob "linux-b" "linux-b" 500] [] [].

Definition tie_listed_ba : World :=
  world_of [blob "linux-b" "linux-b" 500; blob "linux-a" "linux-a" 500] [] [].

(** What C9 states: resolution does not depend on the order of the
    listing; the same blobs, listed in another order, give the same
    result. *)
Definition listing_order_irrelevant : Prop :=
  forall (w1 w2 : World) (primaryKey : jsstring) (restoreKeys : list jsstring),
    Permutation (blobs w1) (blobs w2) ->
    faults w1 = [] -> faults w2 = [] ->
    fst (findMatchingBlob primaryKey restoreKeys w1)
    = fst (findMatchingBlob primaryKey restoreKeys w2).

(** An empty container and a runner on which everything works. *)
Definition fresh : World := world_of [] [] [].

(** The blob is found, and then the download fails. *)
Definition download_fails : World :=
  world_of [blob "linux-v1" "linux-v1" 100]
           [None; None; None; Some (str "socket hang up")] [].

(** The container is empty, and tar exits with status 2. *)
Definition tar_fails : World := world_of [] [] [(2%Z, [])].

(** The blob is found and its download begins; the body fails on its
    way to the file. *)
Definition body_stream_fails : World :=
  world_of [blob "linux-v1" "linux-v1" 100]
           [None; None; None; None; None; Some (str "aborted")] [].

(** The container does not answer the existence check. *)
Definition backend_down : World :=
  world_of [blob "linux-v1" "linux-v1" 100]
           [None; Some (str "getaddrinfo ENOTFOUND")] [].

(** There is no tar on the runner. *)
Definition no_tar : World :=
  {| env := {| RUNNER_TEMP := None; GITHUB_WORKSPACE := None;
               cwd := str "/home/runner/work/app"; tmpdir := str "/tmp";
               platform := str "linux"; tar_on_path := None;
               clock := 1700000000123%Z; random := str "0.k3j9x1abc" |};
     blobs := [blob "linux-v1" "linux-v1" 100]; files := []; dirs := [];
     faults := []; tar_runs := []; calls := []; log := [] |}.

(** The container cannot be created and the temporary directory cannot
    be removed; everything else works. *)
Definition no_create_no_cleanup : World :=
  world_of [blob "linux-v1" "linux-v1" 100]
           [Some (str "AuthorizationFailure"); None; None; None; None; None;
            None; None; Some (str "EBUSY")] [].

(** A blob without metadata under the restore prefix. *)
Definition legacy_world : World := world_of [legacy_blob "linux-old" 100] [] [].

(** A blob written by another tool: its [cachekey] metadata is there, and
    empty. *)
Definition empty_key_blob : BlobItem :=
  {| name := str "linux-x";
     metadata := Some [(CACHE_KEY_METADATA, [])];
     lastModified := Some 100%Z;
     body := [] |}.

Definition empty_key_world : World := world_of [empty_key_blob] [] [].

(** What C7 states of the reported key: it is the [cachekey] metadata of
    the blob whenever that metadata is there. *)
Definition key_from_metadata_when_present : Prop :=
  forall (w : World) (primaryKey : jsstring) (restoreKeys : list jsstring)
         (m : Match) (b : BlobItem) (md : Metadata) (k : jsstring),
    faults w = [] ->
    stored (sanitizeBlobName primaryKey) (blobs w) = false ->
    fst (findMatchingBlob primaryKey restoreKeys w) = Returned (Some m) ->
    find (named (blobName m)) (blobs w) = Some b ->
    metadata b = Some md ->
    meta_get CACHE_KEY_METADATA md = Some k ->
    cacheKey m = k.

(** ** More of the code, and what the further statements speak of *)

(** The characters that [sanitizeBlobName] replaces. *)
Definition illegal (c : code_unit) : bool :=
  ((c =? 92) || (c =? 63) || (c =? 35))%N || is_space c.

Definition legal_name (s : jsstring) : bool :=
  forallb (fun c => negb (illegal c)) s.


(** The directory that [createTempDirectory] makes in an environment. *)
Definition temp_dir (e : Env) : jsstring :=
  path_join (or_else (RUNNER_TEMP e) (tmpdir e))
    (str "azure-cache-" ++ Z_to_str (clock e) ++ str "-"
     ++ substring 2 8 (random e)).

(** The calls that make or remove a directory. *)
Definition on_directories (c : Call) : bool :=
  match c with
  | Mkdir _ | Rm _ => true
  | _ => false
  end.

Definition elsewhere (cs : list Call) : bool :=
  forallb (fun c => negb (on_directories c)) cs.

(** A step in passing: the environment and the directories stay, no call
    makes or removes a directory, and no failure is scheduled after it
    that was not scheduled before. *)
Definition in_passing (w w' : World) : Prop :=
  env w' = env w /\ dirs w' = dirs w
  /\ (faults w = [] -> faults w' = [])
  /\ exists new, calls w' = calls w ++ new /\ elsewhere new = true.

(** The calls of an operation that works in a directory of its own: none
    on directories; or the making of [d], which failed, as the last call;
    or the making of [d] and, as the last call, its removal. *)
Definition scoped (d : jsstring) (new : list Call) : Prop :=
  elsewhere new = true
  \/ (exists before,
         new = before ++ [Mkdir d] /\ elsewhere before = true)
  \/ (exists before during,
         new = before ++ Mkdir d :: during ++ [Rm d]
         /\ elsewhere before = true /\ elsewhere during = true).

(** The calls of an operation whose download never ends: the making of
    [d] and, as the last call, the piping of the body to [p]; no call
    removes a directory. *)
Definition stalled (d p : jsstring) (new : list Call) : Prop :=
  exists before during,
    new = before ++ Mkdir d :: during ++ [Pipe p]
    /\ elsewhere before = true /\ elsewhere during = true.

(** The archive that [restoreCache] downloads to, in an environment. *)
Definition temp_archive (e : Env) : jsstring :=
  path_join (temp_dir e) (str "cache.tar.gz").

(** A run that is scoped when it settles, and stalled when it does not. *)
Definition tidy {A} (w : World) (run : Outcome A * World) : Prop :=
  env (snd run) = env w
  /\ exists new,
       calls (snd run) = calls w ++ new
       /\ match fst run with
          | Unsettled =>
              stalled (temp_dir (env w)) (temp_archive (env w)) new
          | _ => scoped (temp_dir (env w)) new
          end.

Definition tidily {A} (m : M A) : Prop := forall w, tidy w (m w).

(** A computation that can fail to settle only at the piping to [p]. *)
Definition stalls_at {A} (p : jsstring) (m : M A) : Prop :=
  forall w,
    fst (m w) = Unsettled ->
    exists during, calls (snd (m w)) = calls w ++ during ++ [Pipe p].

(** A computation that settles when no failure is scheduled. *)
Definition settles_quietly {A} (m : M A) : Prop :=
  forall w, faults w = [] -> fst (m w) <> Unsettled.

(** No file and no directory at [d] or below it. *)
Definition nothing_under (d : jsstring) (w : World) : Prop :=
  forall p, under d p = true ->
            file_get p (files w) = None /\ ~ In p (dirs w).

(** An operation that leaves nothing under its temporary directory, when
    no call fails and nothing was there. *)
Definition left_clean (w w' : World) : Prop :=
  faults w = [] ->
  nothing_under (temp_dir (env w)) w ->
  nothing_under (temp_dir (env w)) w'.

(** A step that leaves the environment, the container, the files and the
    runs of tar yet to come. *)
Definition at_rest (w w' : World) : Prop :=
  env w' = env w /\ blobs w' = blobs w /\ files w' = files w
  /\ tar_runs w' = tar_runs w.

(** The run of tar that is next. *)
Definition next_run (w : World) : Z * list N := hd (0%Z, []) (tar_runs w).

(** The container is empty, and tar writes three bytes and exits with
    status 0. *)
Definition tar_writes_three : World :=
  world_of [] [] [(0%Z, [31%N; 139%N; 8%N])].

(** [process.env.GITHUB_WORKSPACE || process.cwd()] *)
Definition workspace_of (e : Env) : jsstring :=
  or_else (GITHUB_WORKSPACE e) (cwd e).
(** ** Strings *)

Lemma jseq_refl (a : jsstring) : jseq a a = true.
Proof.
  induction a as [|x a IH]; simpl; [reflexivity|].
  now rewrite N.eqb_refl, IH.
Qed.

Lemma jseq_eq (a b : jsstring) : jseq a b = true <-> a = b.
Proof.
  split; [|intros ->; apply jseq_refl].
  revert b; induction a as [|x a IH]; intros [|y b]; simpl;
    try discriminate; [reflexivity|].
  intros H; apply andb_true_iff in H as [H1 H2].
  apply N.eqb_eq in H1; subst; f_equal; auto.
Qed.

Lemma jseq_neq (a b : jsstring) : jseq a b = false -> a <> b.
Proof. intros H E. subst. rewrite jseq_refl in H. discriminate. Qed.

Lemma jseq_app_same (p a b : jsstring) : jseq (p ++ a) (p ++ b) = jseq a b.
Proof.
  induction p as [|x p IH]; simpl; [reflexivity|].
  now rewrite N.eqb_refl.
Qed.

Lemma startsWith_app (p t : jsstring) : startsWith (p ++ t) p = true.
Proof.
  induction p as [|x p IH]; simpl; [reflexivity|].
  now rewrite N.eqb_refl.
Qed.

Lemma startsWith_iff (s p : jsstring) :
  startsWith s p = true <-> exists t, s = p ++ t.
Proof.
  split.
  - revert s; induction p as [|y p IH]; intros s H; simpl in *.
    + now exists s.
    + destruct s as [|x s]; [discriminate|].
      apply andb_true_iff in H as [H1 H2].
      apply N.eqb_eq in H1; subst.
      destruct (IH _ H2) as [t ->]; now exists t.
  - intros [t ->]; apply startsWith_app.
Qed.

Lemma endsWith_iff (s p : jsstring) :
  endsWith s p = true <-> exists t, s = t ++ p.
Proof.
  unfold endsWith; split.
  - intros H; apply andb_true_iff in H as [H1 H2].
    apply jseq_eq in H2.
    exists (firstn (length s - length p) s).
    pose proof (firstn_skipn (length s - length p) s) as E.
    rewrite H2 in E. now symmetry.
  - intros [t ->]. rewrite length_app.
    replace (length t + length p - length p)%nat with (length t) by lia.
    rewrite skipn_app, Nat.sub_diag, skipn_all; simpl.
    rewrite jseq_refl, andb_true_r.
    apply Nat.leb_le; lia.
Qed.

(** Reading a string from its end turns a suffix test into a prefix test,
    which computes on a string whose end is known. *)
Lemma endsWith_rev (s p : jsstring) :
  endsWith s p = startsWith (rev s) (rev p).
Proof.
  apply eq_true_iff_eq. rewrite endsWith_iff, startsWith_iff. split.
  - intros [t ->]. exists (rev t). apply rev_app_distr.
  - intros [t H]. exists (rev t).
    rewrite <- (rev_involutive s), H, rev_app_distr.
    now rewrite rev_involutive.
Qed.

Lemma endsWith_known_end (t e p : jsstring) :
  endsWith (t ++ e) p = startsWith (rev e ++ rev t) (rev p).
Proof. now rewrite endsWith_rev, rev_app_distr. Qed.

(** ** Joining a folder and a name *)

Lemma split_slash_plain (b : jsstring) :
  forall cur,
    forallb (fun c => negb (N.eqb c 47)) b = true ->
    split_slash cur b = [rev cur ++ b].
Proof.
  induction b as [|c b IH]; intros cur H; cbn [split_slash].
  - now rewrite app_nil_r.
  - cbn [forallb] in H. apply andb_true_iff in H as [Hc Hb].
    apply negb_true_iff in Hc. rewrite Hc, IH by exact Hb.
    cbn [rev]. now rewrite <- app_assoc.
Qed.

Lemma split_slash_last (a b : jsstring) :
  forall cur,
    forallb (fun c => negb (N.eqb c 47)) b = true ->
    split_slash cur (a ++ 47%N :: b) = split_slash cur a ++ [b].
Proof.
  induction a as [|c a IH]; intros cur H; cbn [app split_slash].
  - rewrite N.eqb_refl. now rewrite (split_slash_plain b [] H).
  - destruct (N.eqb c 47); cbn [app]; now rewrite IH.
Qed.

Lemma one_segment_parts (b : jsstring) :
  one_segment b = true ->
  b <> [] /\ forallb (fun c => negb (N.eqb c 47)) b = true
  /\ jseq b (str ".") = false /\ jseq b (str "..") = false.
Proof.
  unfold one_segment. intros H.
  apply andb_true_iff in H as [H H4]. apply andb_true_iff in H as [H H3].
  apply andb_true_iff in H as [H1 H2].
  apply negb_true_iff in H3, H4.
  repeat split; try assumption. now destruct b.
Qed.

Lemma normalize_step_segment (allow : bool) (res : list jsstring)
  (b : jsstring) :
  one_segment b = true -> normalize_step allow res b = res ++ [b].
Proof.
  intros H. apply one_segment_parts in H as (N & _ & D1 & D2).
  unfold normalize_step. destruct b as [|c b]; [contradiction|].
  now rewrite D1, D2.
Qed.

Lemma join_last (sep : jsstring) (l : list jsstring) (b : jsstring) :
  join sep (l ++ [b]) = flat_map (fun s => s ++ sep) l ++ b.
Proof.
  induction l as [|x l IH]; [reflexivity|].
  cbn [app flat_map]. rewrite <- app_assoc, <- IH, <- app_assoc.
  destruct l; reflexivity.
Qed.

Lemma ends_with_slash_last (a b : jsstring) :
  b <> [] -> forallb (fun c => negb (N.eqb c 47)) b = true ->
  ends_with_slash (a ++ b) = false.
Proof.
  intros N H. unfold ends_with_slash. rewrite rev_app_distr.
  destruct (rev b) as [|c r] eqn:R.
  - apply (f_equal (@rev _)) in R. rewrite rev_involutive in R.
    contradiction.
  - cbn [app]. apply negb_true_iff.
    apply (proj1 (forallb_forall _ b) H).
    apply in_rev. rewrite R. now left.
Qed.

Lemma normalized_last (allow : bool) (a b : jsstring) :
  one_segment b = true ->
  normalizeString (a ++ 47%N :: b) allow
  = flat_map (fun seg => seg ++ str "/") (normalize_segments allow a) ++ b.
Proof.
  intros H. pose proof (one_segment_parts _ H) as (_ & S & _).
  unfold normalizeString, normalize_segments.
  rewrite split_slash_last by exact S.
  rewrite fold_left_app. cbn [fold_left].
  rewrite normalize_step_segment by exact H. apply join_last.
Qed.

(** [path.join] of a folder and a name of one segment ends with the name,
    and what comes before it depends on the folder only. *)
Lemma path_join_segment (a b : jsstring) :
  one_segment b = true -> path_join a b = dir_of a ++ b.
Proof.
  intros H. pose proof (one_segment_parts _ H) as (N & S & D1 & D2).
  destruct b as [|y b]; [contradiction|].
  unfold path_join, path_normalize. destruct a as [|x a].
  - assert (path_isAbsolute (y :: b) = false) as A.
    { cbn [forallb] in S. apply andb_true_iff in S as [Sy _].
      now apply negb_true_iff in Sy. }
    rewrite A. cbn [negb].
    pose proof (ends_with_slash_last [] N S) as T. cbn [app] in T.
    rewrite T.
    unfold normalizeString, normalize_segments.
    rewrite (split_slash_plain (y :: b) [] S). cbn [rev app fold_left].
    rewrite (@normalize_step_segment true [] _ H). cbn [app].
    change (join (str "/") [y :: b]) with (y :: b).
    cbn [dir_of app]. now rewrite app_nil_r.
  - change ((x :: a) ++ str "/" ++ y :: b)
      with ((x :: a) ++ 47%N :: y :: b).
    change (path_isAbsolute ((x :: a) ++ 47%N :: y :: b))
      with (path_isAbsolute (x :: a)).
    rewrite normalized_last by exact H.
    replace (ends_with_slash ((x :: a) ++ 47%N :: y :: b)) with false
      by (symmetry;
          apply (ends_with_slash_last ((x :: a) ++ [47%N]) N) in S;
          now rewrite <- app_assoc in S).
    cbn [app]. unfold dir_of.
    destruct (flat_map (fun seg => seg ++ str "/")
                (normalize_segments (negb (path_isAbsolute (x :: a)))
                   (x :: a)) ++ y :: b) as [|c p] eqn:E.
    + destruct (flat_map _ _); discriminate.
    + rewrite app_nil_r, <- app_assoc, E. reflexivity.
Qed.

Lemma path_join_end (a b : jsstring) :
  one_segment b = true -> exists t, path_join a b = t ++ b.
Proof. intros H. exists (dir_of a). now apply path_join_segment. Qed.

Lemma archive_name_segment (m : CompressionMethod) :
  one_segment (str "cache" ++ getCompressionExtension m) = true.
Proof. destruct m; reflexivity. Qed.

(** ** The archive extension and its detection *)

Lemma detect_known_end (m : CompressionMethod) (t : jsstring) :
  detectCompressionMethod (t ++ getCompressionExtension m) = m.
Proof.
  unfold detectCompressionMethod.
  destruct m; rewrite !endsWith_known_end; reflexivity.
Qed.

(** The archive that [createArchive] names for a method is detected as of
    that method, whatever the folder. *)
Lemma detect_archive_path (archiveFolder : jsstring) (m : CompressionMethod) :
  detectCompressionMethod (archive_path archiveFolder m) = m.
Proof.
  unfold archive_path.
  destruct (@path_join_end archiveFolder _ (archive_name_segment m)) as [t ->].
  rewrite app_assoc. apply detect_known_end.
Qed.

(** ** Blob names *)

(** The hash is SHA-256: the test vectors of FIPS 180-4, and the first and
    the last of its round constants. *)
Example sha256_abc :
  sha256_hex (str "abc")
  = str "ba7816bf8f01cfea414140de5dae2223b00361a396177a9cb410ff61f20015ad".
Proof. vm_compute. reflexivity. Qed.

Example sha256_empty :
  sha256_hex []
  = str "e3b0c44298fc1c149afbf4c8996fb92427ae41e4649b934ca495991b7852b855".
Proof. vm_compute. reflexivity. Qed.

Example sha256_two_blocks :
  sha256_hex (str "abcdbcdecdefdefgefghfghighijhijkijkljklmklmnlmnomnopnopq")
  = str "248d6a61d20638b8e5c026930c3e6039a33ce45964ff2167f6ecedd419db06c1".
Proof. vm_compute. reflexivity. Qed.

Example sha256_round_constants :
  length Sha256.K = 64%nat
  /\ hd 0%N Sha256.K = 0x428a2f98%N
  /\ last Sha256.K 0%N = 0xc67178f2%N.
Proof. repeat split. Qed.

(** A letter outside ASCII, a surrogate pair and a lone surrogate. *)
Example utf8_bytes :
  utf8 [233; 55357; 56832; 56832]%N
  = [195; 169; 240; 159; 152; 128; 239; 191; 189]%N.
Proof. reflexivity. Qed.

Lemma hex_word_length (x : N) : length (Sha256.hex_word x) = 8%nat.
Proof. reflexivity. Qed.

Lemma sha256_hex_length (s : jsstring) : length (sha256_hex s) = 64%nat.
Proof.
  unfold sha256_hex, Sha256.hex.
  now rewrite !length_app, !hex_word_length.
Qed.

Lemma hex_digit_is_hex (x : N) :
  is_hex (Sha256.hex_digit (N.land x 15)) = true.
Proof.
  change 15%N with (N.ones 4). rewrite N.land_ones.
  assert (x mod 2 ^ 4 < 16)%N as H by (apply N.mod_lt; discriminate).
  generalize dependent (x mod 2 ^ 4)%N. intros d H.
  unfold Sha256.hex_digit, is_hex.
  destruct (N.ltb_spec d 10).
  - apply orb_true_iff; left; apply andb_true_iff; split; apply N.leb_le; lia.
  - apply orb_true_iff; right; apply andb_true_iff; split; apply N.leb_le; lia.
Qed.

Lemma hex_word_is_hex (x : N) : forallb is_hex (Sha256.hex_word x) = true.
Proof.
  unfold Sha256.hex_word.
  change (rev (seq 0 8)) with [7; 6; 5; 4; 3; 2; 1; 0]%nat.
  cbn [map forallb]. now rewrite !hex_digit_is_hex.
Qed.

Lemma sha256_hex_is_hex (s : jsstring) : forallb is_hex (sha256_hex s) = true.
Proof.
  unfold sha256_hex, Sha256.hex.
  now rewrite !forallb_app, !hex_word_is_hex.
Qed.

Lemma substring_0 (n : nat) (s : jsstring) : substring 0 n s = firstn n s.
Proof.
  unfold substring.
  change (Nat.min 0 (length s)) with 0%nat.
  rewrite Nat.max_0_l, Nat.min_0_l, Nat.sub_0_r. cbn [skipn].
  destruct (Nat.le_ge_cases n (length s)).
  - now rewrite Nat.min_l.
  - rewrite Nat.min_r by assumption. now rewrite !firstn_all2.
Qed.

Lemma forallb_firstn {A} (f : A -> bool) (n : nat) (l : list A) :
  forallb f l = true -> forallb f (firstn n l) = true.
Proof.
  revert n; induction l as [|x l IH]; intros [|n]; simpl; auto.
  intros H; apply andb_true_iff in H as [-> H]; simpl; auto.
Qed.

(** Every blob name fits the backend's bound. *)
Lemma sanitizeBlobName_length (key : jsstring) :
  (length (sanitizeBlobName key) <= MAX_BLOB_NAME_LENGTH)%nat.
Proof.
  unfold sanitizeBlobName.
  destruct (Nat.ltb_spec MAX_BLOB_NAME_LENGTH (length (sanitized_chars key)))
    as [H|H]; [|exact H].
  rewrite !substring_0, !length_app, !length_firstn, sha256_hex_length.
  change (Init.Nat.min 8 64) with 8%nat.
  change (length (str "_")) with 1%nat.
  unfold MAX_BLOB_NAME_LENGTH in *. lia.
Qed.

(** C5. When the sanitized form of a key is longer than the maximum, the
    blob name is the sanitized form cut to 1015 code units, an underscore,
    and the first eight hexadecimal digits of the SHA-256 of the key as the
    caller gave it; its length is within the maximum.  The name is a
    function of the key: defined on every key, with one value. *)
Theorem sanitize_long_key (key : jsstring) :
  (MAX_BLOB_NAME_LENGTH < length (sanitized_chars key))%nat ->
  let digest := substring 0 8 (sha256_hex key) in
  sanitizeBlobName key
  = substring 0 1015 (sanitized_chars key) ++ str "_" ++ digest
  /\ length (substring 0 1015 (sanitized_chars key)) = 1015%nat
  /\ length digest = 8%nat
  /\ forallb is_hex digest = true
  /\ (length (sanitizeBlobName key) <= MAX_BLOB_NAME_LENGTH)%nat.
Proof.
  intros H digest.
  assert (length digest = 8%nat) as Hd.
  { unfold digest. rewrite substring_0, length_firstn, sha256_hex_length.
    reflexivity. }
  split; [|split; [|split; [|split]]].
  - unfold sanitizeBlobName.
    apply Nat.ltb_lt in H. rewrite H. fold digest. now rewrite Hd.
  - rewrite substring_0, length_firstn.
    unfold MAX_BLOB_NAME_LENGTH in H. lia.
  - exact Hd.
  - unfold digest. rewrite substring_0.
    apply forallb_firstn, sha256_hex_is_hex.
  - apply sanitizeBlobName_length.
Qed.

Lemma sanitize_long_key_witness :
  (MAX_BLOB_NAME_LENGTH < length (sanitized_chars long_key))%nat
  /\ sanitizeBlobName long_key
     = substring 0 1015 (sanitized_chars long_key) ++ str "_"
       ++ substring 0 8 (sha256_hex long_key)
  /\ (length (sanitizeBlobName long_key) <= MAX_BLOB_NAME_LENGTH)%nat.
Proof.
  assert (MAX_BLOB_NAME_LENGTH < length (sanitized_chars long_key))%nat as H
    by (apply Nat.ltb_lt; vm_compute; reflexivity).
  split; [exact H|].
  pose proof (sanitize_long_key long_key H) as T.
  split; [apply T | apply T].
Defined.

(** The digest is of the key, not of what is kept of it: two keys with
    the same sanitized form get different names. *)
Example sanitize_digest_of_original :
  sanitized_chars (str "a b" ++ repeat 120%N 1100)
  = sanitized_chars (str "a#b" ++ repeat 120%N 1100)
  /\ sanitizeBlobName (str "a b" ++ repeat 120%N 1100)
     <> sanitizeBlobName (str "a#b" ++ repeat 120%N 1100).
Proof.
  split; [vm_compute; reflexivity|].
  apply jseq_neq. vm_compute. reflexivity.
Qed.

(** ** Awaited code *)

Lemma bind_returned {A B} (m : M A) (k : A -> M B) w b w' :
  bind m k w = (Returned b, w') ->
  exists a w1, m w = (Returned a, w1) /\ k a w1 = (Returned b, w').
Proof.
  unfold bind. destruct (m w) as [[a|e|] w1]; [|discriminate|discriminate].
  intros H. now exists a, w1.
Qed.

Lemma bind_run {A B} (m : M A) (k : A -> M B) w a w1 :
  m w = (Returned a, w1) -> bind m k w = k a w1.
Proof. unfold bind. now intros ->. Qed.


(** A world in which only [calls] differs. *)
Lemma set_calls_twice (c1 c2 : list Call) (w : World) :
  set_calls c2 (set_calls c1 w) = set_calls c2 w.
Proof. reflexivity. Qed.

Ltac same_world :=
  rewrite ?set_calls_twice; cbn [app]; rewrite <- ?app_assoc; cbn [app];
  rewrite ?app_nil_r; reflexivity.

Lemma outside_quiet (c : Call) (w : World) :
  faults w = [] ->
  outside c w = (Returned tt, set_calls (calls w ++ [c]) w).
Proof. unfold outside. now intros ->. Qed.

(** ** The container's answers *)

Lemma named_name (b : BlobItem) : named (name b) b = true.
Proof. apply jseq_refl. Qed.

Lemma find_named_in (bs : list BlobItem) (b : BlobItem) :
  In b bs -> exists p, find (named (name b)) bs = Some p.
Proof.
  intros H. destruct (find (named (name b)) bs) as [p|] eqn:E.
  - now exists p.
  - pose proof (find_none _ _ E _ H) as F.
    rewrite named_name in F. discriminate.
Qed.

Lemma find_named_stored (n : jsstring) (bs : list BlobItem) :
  stored n bs = true <-> exists p, find (named n) bs = Some p.
Proof.
  unfold stored. induction bs as [|b bs IH]; simpl.
  - split; [discriminate|intros [p H]; discriminate].
  - destruct (named n b); simpl; [|exact IH].
    split; [now exists b|reflexivity].
Qed.

Lemma listed_in (prefix : jsstring) (bs : list BlobItem) (b : BlobItem) :
  In b (listed prefix bs) -> In b bs.
Proof. unfold listed. intros H. now apply filter_In in H. Qed.

Lemma getProperties_quiet (b : BlobItem) (w : World) :
  faults w = [] -> In b (blobs w) ->
  getProperties (name b) w
  = (Returned (properties_of (blobs w) b),
     set_calls (calls w ++ [GetProperties (name b)]) w).
Proof.
  intros F H. unfold getProperties, properties_of.
  rewrite (bind_run _ _ _ (outside_quiet _ _ F)).
  destruct (find_named_in _ _ H) as [p E].
  unfold bind, get. simpl. now rewrite E.
Qed.

Lemma collect_quiet (listing : list BlobItem) :
  forall (acc : list Candidate) (w : World),
    faults w = [] ->
    (forall b, In b listing -> In b (blobs w)) ->
    collect_matches listing acc w
    = (Returned (acc ++ map (candidate_of (blobs w)) listing),
       set_calls (calls w ++ map (fun b => GetProperties (name b)) listing) w).
Proof.
  induction listing as [|b listing IH]; intros acc w F H; simpl.
  - unfold ret. rewrite !app_nil_r. now destruct w.
  - rewrite (bind_run _ _ _ (getProperties_quiet b w F
                               (H b (or_introl eq_refl)))).
    rewrite IH; [|exact F|intros b' Hb'; apply H; now right].
    simpl. rewrite <- !app_assoc. reflexivity.
Qed.

(** ** The most recent candidate *)

Lemma insert_by_head {A} (compare : A -> A -> Z) (x : A) (l : list A) :
  hd_error (insert_by compare x l)
  = match hd_error l with
    | Some y => if (compare x y <=? 0)%Z then Some x else Some y
    | None => Some x
    end.
Proof.
  destruct l as [|y l]; simpl; [reflexivity|].
  now destruct (compare x y <=? 0)%Z.
Qed.

(** The head of the sorted array is the first of the most recent
    candidates: the comparator orders by time only, and the sort keeps
    equal candidates in their order. *)
Lemma sort_head (l : list Candidate) :
  hd_error (array_sort by_recency l)
  = first_latest (fun c => time_of (blobItem c)) l.
Proof.
  induction l as [|x l IH]; simpl; [reflexivity|].
  rewrite insert_by_head, IH.
  destruct (first_latest _ l) as [y|]; [|reflexivity].
  unfold by_recency.
  destruct (Z.leb_spec (time_of (blobItem y) - time_of (blobItem x)) 0),
           (Z.ltb_spec (time_of (blobItem x)) (time_of (blobItem y)));
    try reflexivity; lia.
Qed.

Lemma first_latest_map {A B} (f : A -> B) (time : B -> Z) (l : list A) :
  first_latest time (map f l)
  = option_map f (first_latest (fun a => time (f a)) l).
Proof.
  induction l as [|x l IH]; simpl; [reflexivity|].
  rewrite IH. destruct (first_latest _ l) as [y|]; simpl; [|reflexivity].
  now destruct (time (f x) <? time (f y))%Z.
Qed.

Lemma first_latest_none {A} (time : A -> Z) (l : list A) :
  first_latest time l = None <-> l = [].
Proof.
  destruct l as [|x l]; simpl; [tauto|].
  split; [|discriminate].
  destruct (first_latest time l) as [y|]; [|discriminate].
  now destruct (time x <? time y)%Z.
Qed.

(** What is listed before the chosen element is strictly older, what is
    listed after it is not more recent. *)
Lemma first_latest_spec {A} (time : A -> Z) (l : list A) (b : A) :
  first_latest time l = Some b ->
  exists l1 l2,
    l = l1 ++ b :: l2
    /\ (forall x, In x l1 -> (time x < time b)%Z)
    /\ (forall x, In x l2 -> (time x <= time b)%Z).
Proof.
  revert b; induction l as [|x l IH]; intros b; simpl; [discriminate|].
  destruct (first_latest time l) as [y|] eqn:E.
  - destruct (IH y eq_refl) as (l1 & l2 & -> & H1 & H2).
    destruct (Z.ltb_spec (time x) (time y)); intros [= <-].
    + exists (x :: l1), l2. split; [reflexivity|]. split; [|exact H2].
      intros z [<-|Hz]; [assumption|now apply H1].
    + exists [], (l1 ++ y :: l2). split; [reflexivity|].
      split; [intros z []|].
      intros z Hz. apply in_app_or in Hz as [Hz|[<-|Hz]].
      * specialize (H1 _ Hz). lia.
      * assumption.
      * specialize (H2 _ Hz). lia.
  - intros [= <-]. apply first_latest_none in E as ->.
    exists [], []. repeat split; intros z [].
Qed.

(** ** Resolution when nothing fails *)

Lemma scan_quiet (restoreKeys : list jsstring) :
  forall w : World,
    faults w = [] ->
    scan_restore_keys restoreKeys w
    = (Returned (scan_answer (blobs w) restoreKeys),
       set_calls (calls w ++ scan_calls (blobs w) restoreKeys) w).
Proof.
  induction restoreKeys as [|rk rest IH]; intros w F.
  - simpl. unfold ret. rewrite app_nil_r. now destruct w.
  - cbn [scan_restore_keys scan_answer scan_calls].
    unfold listBlobsFlat.
    rewrite (bind_run _ _ _ (bind_run _ _ _ (outside_quiet _ _ F))).
    unfold get. cbn [blobs set_calls].
    fold (listed (sanitizeBlobName rk) (blobs w)).
    set (l := listed (sanitizeBlobName rk) (blobs w)).
    erewrite bind_run;
      [|apply collect_quiet; [exact F|intros b Hb; eapply listed_in, Hb]].
    cbn [app blobs set_calls calls].
    pose proof (sort_head (map (candidate_of (blobs w)) l)) as S.
    rewrite first_latest_map in S. cbn [candidate_of blobItem] in S.
    change (fun a : BlobItem => time_of a) with time_of in S.
    destruct l as [|b l'] eqn:El.
    + cbn [map length Nat.ltb Nat.leb first_latest].
      rewrite IH by exact F. cbn [blobs calls set_calls].
      same_world.
    + assert (first_latest time_of (b :: l') <> None) as N
        by (rewrite first_latest_none; discriminate).
      destruct (first_latest time_of (b :: l')) as [best|]; [|congruence].
      cbn [option_map] in S.
      rewrite length_map. cbn [length Nat.ltb Nat.leb].
      destruct (array_sort by_recency (map (candidate_of (blobs w)) (b :: l')))
        as [|c cs]; [discriminate|].
      injection S as ->. unfold ret. cbn [candidate_of candKey blobItem].
      unfold match_of. same_world.
Qed.

Lemma find_quiet (primaryKey : jsstring) (restoreKeys : list jsstring)
  (w : World) :
  faults w = [] ->
  findMatchingBlob primaryKey restoreKeys w
  = if stored (sanitizeBlobName primaryKey) (blobs w)
    then (Returned (Some {| cacheKey := primaryKey;
                            blobName := sanitizeBlobName primaryKey |}),
          set_calls (calls w ++ [Exists (sanitizeBlobName primaryKey)]) w)
    else (Returned (scan_answer (blobs w) restoreKeys),
          set_calls (calls w ++ Exists (sanitizeBlobName primaryKey)
                       :: scan_calls (blobs w) restoreKeys) w).
Proof.
  intros F. unfold findMatchingBlob, blob_exists.
  rewrite (bind_run _ _ _ (bind_run _ _ _ (outside_quiet _ _ F))).
  unfold get. cbn [blobs set_calls].
  destruct (stored (sanitizeBlobName primaryKey) (blobs w)); [reflexivity|].
  rewrite scan_quiet by exact F. cbn [blobs calls set_calls].
  same_world.
Qed.

(** C1. When a blob is stored under the sanitized primary key and the
    existence check is answered, [findMatchingBlob] returns that blob with
    [cacheKey] the primary key as given, whatever the restore keys are; the
    existence check is its only call, so no prefix is listed. *)
Theorem exact_match_wins (primaryKey : jsstring)
  (restoreKeys : list jsstring) (w : World) :
  stored (sanitizeBlobName primaryKey) (blobs w) = true ->
  hd None (faults w) = None ->
  fst (findMatchingBlob primaryKey restoreKeys w)
  = Returned (Some {| cacheKey := primaryKey;
                      blobName := sanitizeBlobName primaryKey |})
  /\ calls (snd (findMatchingBlob primaryKey restoreKeys w))
     = calls w ++ [Exists (sanitizeBlobName primaryKey)].
Proof.
  intros S F.
  unfold findMatchingBlob, blob_exists, bind, outside, get.
  destruct (faults w) as [|[e|] rest]; try discriminate;
    cbn [blobs set_calls set_faults]; rewrite S; split; reflexivity.
Qed.

Lemma exact_match_wins_witness :
  stored (sanitizeBlobName (str "linux-v2")) (blobs exact_and_prefix) = true
  /\ hd None (faults exact_and_prefix) = None
  /\ fst (findMatchingBlob (str "linux-v2") [str "linux-"] exact_and_prefix)
     = Returned (Some {| cacheKey := str "linux-v2";
                         blobName := sanitizeBlobName (str "linux-v2") |}).
Proof.
  split; [reflexivity|]. split; [reflexivity|].
  apply (exact_match_wins (str "linux-v2") [str "linux-"] exact_and_prefix);
    reflexivity.
Defined.

(** ** Resolution by prefix *)

Lemma scan_skips (bs : list BlobItem) (before rest : list jsstring) :
  (forall q, In q before -> listed (sanitizeBlobName q) bs = []) ->
  scan_answer bs (before ++ rest) = scan_answer bs rest
  /\ scan_calls bs (before ++ rest)
     = map ListBlobsFlat (map sanitizeBlobName before) ++ scan_calls bs rest.
Proof.
  induction before as [|q before IH]; intros H; [now split|].
  destruct IH as [IH1 IH2]; [intros q' Hq'; apply H; now right|].
  cbn [app scan_answer scan_calls map].
  rewrite (H q (or_introl eq_refl)), IH1, IH2. now split.
Qed.

(** Shared by C2 and C9: without an exact match and without failures, the
    first restore key that lists anything decides, and among what it lists
    the first of the most recent blobs is returned. *)
Lemma fallback_choice (w : World) (primaryKey : jsstring)
  (before : list jsstring) (p : jsstring) (after : list jsstring) :
  faults w = [] ->
  stored (sanitizeBlobName primaryKey) (blobs w) = false ->
  (forall q, In q before -> listed (sanitizeBlobName q) (blobs w) = []) ->
  listed (sanitizeBlobName p) (blobs w) <> [] ->
  exists l1 b l2,
    listed (sanitizeBlobName p) (blobs w) = l1 ++ b :: l2
    /\ (forall x, In x l1 -> (time_of x < time_of b)%Z)
    /\ (forall x, In x l2 -> (time_of x <= time_of b)%Z)
    /\ fst (findMatchingBlob primaryKey (before ++ p :: after) w)
       = Returned (Some (match_of (blobs w) b))
    /\ calls (snd (findMatchingBlob primaryKey (before ++ p :: after) w))
       = calls w
         ++ Exists (sanitizeBlobName primaryKey)
         :: map ListBlobsFlat (map sanitizeBlobName before)
         ++ ListBlobsFlat (sanitizeBlobName p)
         :: map (fun b => GetProperties (name b))
                (listed (sanitizeBlobName p) (blobs w)).
Proof.
  intros F S Hb Hp.
  rewrite (find_quiet primaryKey (before ++ p :: after) w F), S.
  destruct (scan_skips (blobs w) before (p :: after) Hb) as [-> ->].
  cbn [fst snd calls set_calls scan_answer scan_calls].
  destruct (first_latest time_of (listed (sanitizeBlobName p) (blobs w)))
    as [b|] eqn:E; [|apply first_latest_none in E; contradiction].
  destruct (first_latest_spec _ _ E) as (l1 & l2 & El & H1 & H2).
  exists l1, b, l2. repeat (split; [assumption || reflexivity|]).
  destruct (listed (sanitizeBlobName p) (blobs w)); [contradiction|].
  now rewrite app_nil_r.
Qed.

Lemma fallback_nothing (w : World) (primaryKey : jsstring)
  (restoreKeys : list jsstring) :
  faults w = [] ->
  stored (sanitizeBlobName primaryKey) (blobs w) = false ->
  (forall q, In q restoreKeys ->
             listed (sanitizeBlobName q) (blobs w) = []) ->
  findMatchingBlob primaryKey restoreKeys w
  = (Returned None,
     set_calls (calls w ++ Exists (sanitizeBlobName primaryKey)
                  :: map ListBlobsFlat (map sanitizeBlobName restoreKeys)) w).
Proof.
  intros F S H.
  rewrite (find_quiet primaryKey restoreKeys w F), S.
  destruct (scan_skips (blobs w) restoreKeys [] H) as [E1 E2].
  rewrite app_nil_r in E1, E2. rewrite E1, E2. cbn [scan_answer scan_calls].
  now rewrite app_nil_r.
Qed.

(** C2. Without an exact match, and when the backend answers every call,
    [findMatchingBlob] returns a blob listed under the first restore key, in
    the caller's order, whose sanitized form is a prefix of some stored
    name; no blob listed under that prefix has a [lastModified] later than
    that of the blob returned (an item that carries none counts as time 0,
    as in the code); the calls end with the properties of that listing, so
    no later restore key is listed.  When no restore key lists anything the
    result is [undefined]. *)
Theorem fallback_resolution (w : World) (primaryKey : jsstring)
  (restoreKeys : list jsstring) :
  faults w = [] ->
  stored (sanitizeBlobName primaryKey) (blobs w) = false ->
  (forall before p after,
      restoreKeys = before ++ p :: after ->
      (forall q, In q before -> listed (sanitizeBlobName q) (blobs w) = []) ->
      listed (sanitizeBlobName p) (blobs w) <> [] ->
      exists b,
        In b (listed (sanitizeBlobName p) (blobs w))
        /\ (forall b', In b' (listed (sanitizeBlobName p) (blobs w)) ->
                       match lastModified b', lastModified b with
                       | Some t', Some t => (t' <= t)%Z
                       | Some t', None => (t' <= 0)%Z
                       | None, Some t => (0 <= t)%Z
                       | None, None => True
                       end)
        /\ fst (findMatchingBlob primaryKey restoreKeys w)
           = Returned (Some {| cacheKey :=
                                 original_key (properties_of (blobs w) b) b;
                               blobName := name b |})
        /\ calls (snd (findMatchingBlob primaryKey restoreKeys w))
           = calls w
             ++ Exists (sanitizeBlobName primaryKey)
             :: map ListBlobsFlat (map sanitizeBlobName before)
             ++ ListBlobsFlat (sanitizeBlobName p)
             :: map (fun b => GetProperties (name b))
                    (listed (sanitizeBlobName p) (blobs w)))
  /\ ((forall q, In q restoreKeys ->
                 listed (sanitizeBlobName q) (blobs w) = []) ->
      fst (findMatchingBlob primaryKey restoreKeys w) = Returned None).
Proof.
  intros F S. split.
  - intros before p after -> Hb Hp.
    destruct (fallback_choice w primaryKey before p after F S Hb Hp)
      as (l1 & b & l2 & El & H1 & H2 & R & C).
    exists b. split; [rewrite El; apply in_elt|].
    split; [|split; [exact R|exact C]].
    intros b' Hb'. rewrite El in Hb'.
    assert (time_of b' <= time_of b)%Z as T.
    { apply in_app_or in Hb' as [Hb'|[<-|Hb']].
      - specialize (H1 _ Hb'). lia.
      - lia.
      - now apply H2. }
    unfold time_of in T.
    destruct (lastModified b'), (lastModified b); try exact T; exact I.
  - intros H. now rewrite (fallback_nothing w primaryKey restoreKeys F S H).
Qed.

Lemma fallback_resolution_witness :
  faults two_under_second_prefix = []
  /\ stored (sanitizeBlobName (str "linux-a9-77"))
            (blobs two_under_second_prefix) = false
  /\ listed (sanitizeBlobName (str "linux-a9-"))
            (blobs two_under_second_prefix) = []
  /\ listed (sanitizeBlobName (str "linux-"))
            (blobs two_under_second_prefix)
     = [blob "linux-a1" "linux-a1" 100; blob "linux-a2" "linux-a2" 300]
  /\ exists b,
       name b = str "linux-a2"
       /\ lastModified b = Some 300%Z
       /\ fst (findMatchingBlob (str "linux-a9-77")
                 [str "linux-a9-"; str "linux-"] two_under_second_prefix)
          = Returned (Some {| cacheKey :=
                                original_key
                                  (properties_of
                                     (blobs two_under_second_prefix) b) b;
                              blobName := name b |}).
Proof.
  split; [reflexivity|]. split; [reflexivity|]. split; [reflexivity|].
  assert (listed (sanitizeBlobName (str "linux-"))
            (blobs two_under_second_prefix)
          = [blob "linux-a1" "linux-a1" 100; blob "linux-a2" "linux-a2" 300])
    as L by reflexivity.
  split; [exact L|].
  destruct (fallback_resolution two_under_second_prefix (str "linux-a9-77")
              [str "linux-a9-"; str "linux-"] eq_refl eq_refl) as [T _].
  destruct (T [str "linux-a9-"] (str "linux-") [] eq_refl)
    as (b & I & H & R & _).
  - intros q [<-|[]]. reflexivity.
  - discriminate.
  - exists b. rewrite L in I, H.
    specialize (H (blob "linux-a2" "linux-a2" 300)
                  (or_intror (or_introl eq_refl))).
    destruct I as [<-|[<-|[]]].
    + cbn [lastModified blob] in H. exfalso. apply H. reflexivity.
    + split; [reflexivity|]. split; [reflexivity|exact R].
Defined.

(** The scenario of the specification: nothing under the more specific
    prefix, two blobs under the second, and the more recent one returned. *)
Example fallback_resolution_run :
  fst (findMatchingBlob (str "linux-a9-77") [str "linux-a9-"; str "linux-"]
         two_under_second_prefix)
  = Returned (Some {| cacheKey := str "linux-a2";
                      blobName := str "linux-a2" |}).
Proof. vm_compute. reflexivity. Qed.

(** ** Blobs of the same age *)

Example tie_run_ab :
  fst (findMatchingBlob (str "linux-v9") [str "linux-"] tie_listed_ab)
  = Returned (Some {| cacheKey := str "linux-a"; blobName := str "linux-a" |}).
Proof. vm_compute. reflexivity. Qed.

Example tie_run_ba :
  fst (findMatchingBlob (str "linux-v9") [str "linux-"] tie_listed_ba)
  = Returned (Some {| cacheKey := str "linux-b"; blobName := str "linux-b" |}).
Proof. vm_compute. reflexivity. Qed.

(** C9, as stated, fails: the same two blobs of the same age, listed in
    the two possible orders, resolve to different blobs.  In the second
    listing the blob returned is not the first by name either. *)
Lemma tie_break_counterexample : ~ listing_order_irrelevant.
Proof.
  intros H.
  specialize (H tie_listed_ab tie_listed_ba (str "linux-v9") [str "linux-"]
                (perm_swap _ _ []) eq_refl eq_refl).
  rewrite tie_run_ab, tie_run_ba in H. discriminate.
Qed.

(** C9, amended. Among the blobs listed under the deciding prefix that
    share the latest time, [findMatchingBlob] returns the one the backend
    lists first: every blob listed before the returned one is strictly
    older, every blob listed after it is not more recent.  The result is
    thus fixed by the listing, and by nothing else. *)
Theorem tie_break_is_listing_order (w : World) (primaryKey : jsstring)
  (before : list jsstring) (p : jsstring) (after : list jsstring) :
  faults w = [] ->
  stored (sanitizeBlobName primaryKey) (blobs w) = false ->
  (forall q, In q before -> listed (sanitizeBlobName q) (blobs w) = []) ->
  listed (sanitizeBlobName p) (blobs w) <> [] ->
  exists l1 b l2,
    listed (sanitizeBlobName p) (blobs w) = l1 ++ b :: l2
    /\ (forall x, In x l1 -> (time_of x < time_of b)%Z)
    /\ (forall x, In x l2 -> (time_of x <= time_of b)%Z)
    /\ fst (findMatchingBlob primaryKey (before ++ p :: after) w)
       = Returned (Some {| cacheKey :=
                             original_key (properties_of (blobs w) b) b;
                           blobName := name b |}).
Proof.
  intros F S Hb Hp.
  destruct (fallback_choice w primaryKey before p after F S Hb Hp)
    as (l1 & b & l2 & El & H1 & H2 & R & _).
  exists l1, b, l2. auto.
Qed.

Lemma tie_break_is_listing_order_witness :
  faults tie_listed_ba = []
  /\ stored (sanitizeBlobName (str "linux-v9")) (blobs tie_listed_ba) = false
  /\ listed (sanitizeBlobName (str "linux-")) (blobs tie_listed_ba) <> []
  /\ exists l1 b l2,
       listed (sanitizeBlobName (str "linux-")) (blobs tie_listed_ba)
       = l1 ++ b :: l2
       /\ (forall x, In x l1 -> (time_of x < time_of b)%Z)
       /\ fst (findMatchingBlob (str "linux-v9") ([] ++ str "linux-" :: [])
                 tie_listed_ba)
          = Returned (Some {| cacheKey :=
                                original_key
                                  (properties_of (blobs tie_listed_ba) b) b;
                              blobName := name b |}).
Proof.
  split; [reflexivity|]. split; [reflexivity|]. split; [discriminate|].
  destruct (tie_break_is_listing_order tie_listed_ba (str "linux-v9")
              [] (str "linux-") [] eq_refl eq_refl)
    as (l1 & b & l2 & El & H1 & _ & R).
  - intros q [].
  - discriminate.
  - exists l1, b, l2. auto.
Defined.

(** ** What a computation maintains *)

Section Keeps.
Variable R : World -> World -> Prop.
Hypothesis R_refl : forall w, R w w.
Hypothesis R_trans : forall a b c, R a b -> R b c -> R a c.

Lemma keeps_ret {A} (a : A) : keeps R (ret a).
Proof. intros w. apply R_refl. Qed.

Lemma keeps_throw {A} (e : Error) : keeps R (@throw A e).
Proof. intros w. apply R_refl. Qed.

Lemma keeps_get {A} (f : World -> A) : keeps R (get f).
Proof. intros w. apply R_refl. Qed.

Lemma keeps_bind {A B} (m : M A) (k : A -> M B) :
  keeps R m -> (forall a, keeps R (k a)) -> keeps R (bind m k).
Proof.
  intros Hm Hk w. unfold bind. specialize (Hm w).
  destruct (m w) as [[a|e|] w1]; simpl in *; [|exact Hm|exact Hm].
  eapply R_trans; [exact Hm|apply Hk].
Qed.

Lemma keeps_try_catch {A} (m : M A) (h : Error -> M A) :
  keeps R m -> (forall e, keeps R (h e)) -> keeps R (try_catch m h).
Proof.
  intros Hm Hh w. unfold try_catch. specialize (Hm w).
  destruct (m w) as [[a|e|] w1]; simpl in *; [exact Hm| |exact Hm].
  eapply R_trans; [exact Hm|apply Hh].
Qed.

Lemma keeps_try_finally {A} (m : M A) (fin : M unit) :
  keeps R m -> keeps R fin -> keeps R (try_finally m fin).
Proof.
  intros Hm Hf w. unfold try_finally. specialize (Hm w).
  destruct (m w) as [r w1]; simpl in *. specialize (Hf w1).
  destruct r as [a|e|]; [| |exact Hm];
    destruct (fin w1) as [[u|e'|] w2]; simpl in *;
    eapply R_trans; eassumption.
Qed.


End Keeps.

Lemma total_ret {A} (a : A) : total (ret a).
Proof. intros w. now exists a. Qed.

Lemma total_try_catch {A} (m : M A) (h : Error -> M A) :
  settles m -> (forall e, total (h e)) -> total (try_catch m h).
Proof.
  intros S H w. unfold try_catch. specialize (S w).
  destruct (m w) as [[a|e|] w1]; [now exists a|apply H|now contradiction S].
Qed.

Lemma total_log (l : Level) (msg : jsstring) : total (core_log l msg).
Proof. intros w. now exists tt. Qed.

Lemma total_bind {A B} (m : M A) (k : A -> M B) :
  total m -> (forall a, total (k a)) -> total (bind m k).
Proof.
  intros Hm Hk w. unfold bind. destruct (Hm w) as [a Ha].
  destruct (m w) as [r w1]; simpl in Ha; subst. apply Hk.
Qed.

(** *** Awaits that settle *)

Lemma settles_ret {A} (a : A) : settles (ret a).
Proof. intros w. discriminate. Qed.

Lemma settles_throw {A} (e : Error) : settles (@throw A e).
Proof. intros w. discriminate. Qed.

Lemma settles_get {A} (f : World -> A) : settles (get f).
Proof. intros w. discriminate. Qed.

Lemma settles_modify (f : World -> World) : settles (modify f).
Proof. intros w. discriminate. Qed.

Lemma settles_log (l : Level) (msg : jsstring) : settles (core_log l msg).
Proof. intros w. discriminate. Qed.

Lemma settles_outside (c : Call) : settles (outside c).
Proof.
  intros w. unfold outside. destruct (faults w) as [|[e|] rest]; discriminate.
Qed.

Lemma settles_bind {A B} (m : M A) (k : A -> M B) :
  settles m -> (forall a, settles (k a)) -> settles (bind m k).
Proof.
  intros Hm Hk w. unfold bind. specialize (Hm w).
  destruct (m w) as [[a|e|] w1]; cbn [fst] in *;
    [apply Hk|discriminate|now contradiction Hm].
Qed.

Lemma settles_try_catch {A} (m : M A) (h : Error -> M A) :
  settles m -> (forall e, settles (h e)) -> settles (try_catch m h).
Proof.
  intros Hm Hh w. unfold try_catch. specialize (Hm w).
  destruct (m w) as [[a|e|] w1]; cbn [fst] in *;
    [discriminate|apply Hh|now contradiction Hm].
Qed.

Lemma settles_try_finally {A} (m : M A) (fin : M unit) :
  settles m -> settles fin -> settles (try_finally m fin).
Proof.
  intros Hm Hf w. unfold try_finally. specialize (Hm w).
  destruct (m w) as [r w1]. specialize (Hf w1). cbn [fst] in *.
  destruct r as [a|e|]; [| |now contradiction Hm];
    destruct (fin w1) as [[u|e'|] w2]; cbn [fst] in *;
    first [discriminate|now contradiction Hf].
Qed.

Create HintDb settles.

(** One step through the structure of a computation. *)
Ltac settles_step :=
  lazymatch goal with
  | |- settles (bind _ _) => apply settles_bind; [|intros ?]
  | |- settles (try_catch _ _) => apply settles_try_catch; [|intros ?]
  | |- settles (try_finally _ _) => apply settles_try_finally
  | |- settles (ret _) => apply settles_ret
  | |- settles (throw _) => apply settles_throw
  | |- settles (get _) => apply settles_get
  | |- settles (modify _) => apply settles_modify
  | |- settles (outside _) => apply settles_outside
  | |- settles (core_log _ _) => apply settles_log
  | |- settles (match ?o with Some _ => _ | None => _ end) => destruct o
  | |- settles (match ?l with [] => _ | _ :: _ => _ end) => destruct l
  | |- settles (match ?c with true => _ | false => _ end) => destruct c
  | |- settles _ => solve [auto with settles nocore]
  end.

Ltac settles_steps := repeat settles_step.

Lemma settles_ensure : settles ensureContainerExists.
Proof.
  unfold ensureContainerExists, createIfNotExists, debug. settles_steps.
Qed.

Lemma settles_exists (n : jsstring) : settles (blob_exists n).
Proof. unfold blob_exists. settles_steps. Qed.

Lemma settles_getProperties (n : jsstring) : settles (getProperties n).
Proof. unfold getProperties. settles_steps. Qed.

Lemma settles_listBlobsFlat (p : jsstring) : settles (listBlobsFlat p).
Proof. unfold listBlobsFlat. settles_steps. Qed.

Lemma settles_createTemp : settles createTempDirectory.
Proof. unfold createTempDirectory, fs_mkdir. settles_steps. Qed.

Lemma settles_cleanup (d : jsstring) : settles (cleanupTempDirectory d).
Proof. unfold cleanupTempDirectory, fs_rm, debug. settles_steps. Qed.

Lemma settles_which (t : jsstring) (c : bool) : settles (io_which t c).
Proof. unfold io_which. settles_steps. Qed.

#[local] Hint Resolve settles_which : settles.

Lemma settles_getTarPath : settles getTarPath.
Proof. unfold getTarPath. settles_steps. Qed.

Lemma settles_exec (t : jsstring) (args : list jsstring) (d : jsstring) :
  settles (exec_exec t args d).
Proof. unfold exec_exec. settles_steps. Qed.

Lemma settles_stat (p : jsstring) : settles (fs_stat_size p).
Proof. unfold fs_stat_size. settles_steps. Qed.

#[local] Hint Resolve settles_ensure settles_exists settles_getProperties
  settles_listBlobsFlat settles_createTemp settles_cleanup settles_getTarPath
  settles_exec settles_stat : settles.

Lemma settles_createArchive (d : jsstring) (ps : list jsstring)
  (o : ArchiveOptions) : settles (createArchive d ps o).
Proof.
  unfold createArchive, workspace_root, fs_writeFile, fs_unlink, debug.
  settles_steps.
Qed.

Lemma settles_extract (p : jsstring) (o : ArchiveOptions) :
  settles (extractArchive p o).
Proof. unfold extractArchive, workspace_root, debug. settles_steps. Qed.

Lemma settles_upload (n p k : jsstring) : settles (uploadBlob n p k).
Proof. unfold uploadBlob, uploadStream, info. settles_steps. Qed.

#[local] Hint Resolve settles_createArchive settles_extract settles_upload
  : settles.

Lemma settles_collect (listing : list BlobItem) :
  forall acc, settles (collect_matches listing acc).
Proof.
  induction listing as [|b listing IH]; intros acc; cbn [collect_matches].
  - apply settles_ret.
  - apply settles_bind; [apply settles_getProperties|intros p; apply IH].
Qed.

Lemma settles_scan (restoreKeys : list jsstring) :
  settles (scan_restore_keys restoreKeys).
Proof.
  induction restoreKeys as [|rk rest IH]; cbn [scan_restore_keys].
  - apply settles_ret.
  - apply settles_bind; [apply settles_listBlobsFlat|intros listing].
    apply settles_bind; [apply settles_collect|intros ms].
    destruct (0 <? length ms)%nat; [|exact IH].
    destruct (array_sort by_recency ms);
      [apply settles_throw|apply settles_ret].
Qed.

Lemma settles_find (primaryKey : jsstring) (restoreKeys : list jsstring) :
  settles (findMatchingBlob primaryKey restoreKeys).
Proof.
  unfold findMatchingBlob.
  apply settles_bind; [apply settles_exists|intros [|]];
    [apply settles_ret|apply settles_scan].
Qed.

Lemma settles_resolution (primaryKey : jsstring)
  (restoreKeys : list jsstring) :
  settles (resolution primaryKey restoreKeys).
Proof.
  unfold resolution.
  apply settles_bind; [apply settles_ensure|intros _; apply settles_find].
Qed.

#[local] Hint Resolve settles_find settles_resolution : settles.

(** *** The container and the environment *)

Lemma same_store_refl (w : World) : same_store w w.
Proof. now split. Qed.

Lemma same_store_trans (a b c : World) :
  same_store a b -> same_store b c -> same_store a c.
Proof. intros [H1 H2] [H3 H4]. split; congruence. Qed.

Lemma store_outside (c : Call) : keeps same_store (outside c).
Proof.
  intros w. unfold outside. destruct (faults w) as [|[e|] rest]; now split.
Qed.

Lemma store_unheard (c : Call) : keeps same_store (unheard c).
Proof.
  intros w. unfold unheard. destruct (faults w) as [|[e|] rest]; now split.
Qed.

Lemma store_modify (f : World -> World) :
  (forall w, same_store w (f w)) -> keeps same_store (modify f).
Proof. intros H w. apply H. Qed.

Lemma store_log (l : Level) (msg : jsstring) : keeps same_store (core_log l msg).
Proof. apply store_modify. now split. Qed.

Create HintDb keeps.

(** One step through the structure of a computation; what is not a
    combinator is looked up among the lemmas already proved. *)
Ltac keeps_step Rrefl Rtrans :=
  lazymatch goal with
  | |- keeps _ (bind _ _) => apply (keeps_bind Rtrans); [|intros ?]
  | |- keeps _ (try_catch _ _) => apply (keeps_try_catch Rtrans); [|intros ?]
  | |- keeps _ (try_finally _ _) => apply (keeps_try_finally Rtrans)
  | |- keeps _ (ret _) => apply (keeps_ret _ Rrefl)
  | |- keeps _ (throw _) => apply (keeps_throw _ Rrefl)
  | |- keeps _ (get _) => apply (keeps_get _ Rrefl)
  | |- keeps _ (match ?o with Some _ => _ | None => _ end) => destruct o
  | |- keeps _ (match ?l with [] => _ | _ :: _ => _ end) => destruct l
  | |- keeps _ (match ?c with true => _ | false => _ end) => destruct c
  | |- keeps _ _ => solve [auto with keeps nocore]
  end.

Ltac store_steps := repeat keeps_step same_store_refl same_store_trans.

#[local] Hint Resolve store_outside store_unheard store_log : keeps.
#[local] Hint Extern 1 (keeps same_store (modify _)) =>
  apply store_modify; intros ?; split; reflexivity : keeps.

Lemma store_ensure : keeps same_store ensureContainerExists.
Proof. unfold ensureContainerExists, createIfNotExists, debug. store_steps. Qed.

Lemma store_exists (n : jsstring) : keeps same_store (blob_exists n).
Proof. unfold blob_exists. store_steps. Qed.

Lemma store_mkdir (p : jsstring) : keeps same_store (fs_mkdir p).
Proof. unfold fs_mkdir. store_steps. Qed.

Lemma store_rm (p : jsstring) : keeps same_store (fs_rm p).
Proof. unfold fs_rm. store_steps. Qed.

Lemma store_writeFile (p t : jsstring) : keeps same_store (fs_writeFile p t).
Proof. unfold fs_writeFile. store_steps. Qed.

Lemma store_unlink (p : jsstring) : keeps same_store (fs_unlink p).
Proof. unfold fs_unlink. store_steps. Qed.

Lemma store_stat (p : jsstring) : keeps same_store (fs_stat_size p).
Proof. unfold fs_stat_size. store_steps. Qed.

Lemma store_which (t : jsstring) (c : bool) : keeps same_store (io_which t c).
Proof. unfold io_which. store_steps. Qed.

Lemma store_exec (t : jsstring) (args : list jsstring) (d : jsstring) :
  keeps same_store (exec_exec t args d).
Proof. unfold exec_exec. store_steps. Qed.

#[local] Hint Resolve store_ensure store_exists store_mkdir store_rm
  store_writeFile store_unlink store_stat store_which store_exec : keeps.

Lemma store_getTarPath : keeps same_store getTarPath.
Proof. unfold getTarPath. store_steps. Qed.

#[local] Hint Resolve store_getTarPath : keeps.

Lemma store_createArchive (d : jsstring) (ps : list jsstring)
  (o : ArchiveOptions) : keeps same_store (createArchive d ps o).
Proof. unfold createArchive, workspace_root, debug. store_steps. Qed.

Lemma store_createTemp : keeps same_store createTempDirectory.
Proof. unfold createTempDirectory. store_steps. Qed.

Lemma store_cleanup (d : jsstring) : keeps same_store (cleanupTempDirectory d).
Proof. unfold cleanupTempDirectory, debug. store_steps. Qed.

#[local] Hint Resolve store_createArchive store_createTemp store_cleanup
  : keeps.

(** ** Saving *)

(** Running down a computation made of primitives: the next fault and the
    next file looked up are told apart as they come. *)
Ltac run_down :=
  repeat
    (cbn [fst snd env blobs files dirs faults tar_runs calls log
          set_blobs set_files set_dirs set_faults set_tar_runs set_calls
          set_log];
     match goal with
     | |- context [match faults ?w with _ => _ end] =>
         destruct (faults w) as [|[?|] ?]
     | |- context [match ?l with [] => _ | _ :: _ => _ end] =>
         is_var l; destruct l as [|[?|] ?]
     | |- context [match file_get ?p ?f with _ => _ end] =>
         destruct (file_get p f) eqn:?
     end).

(** [uploadBlob] either throws and leaves the container as it was, or
    returns after the blob was put under the name with the two metadata
    fields. *)
Lemma uploadBlob_outcome (n path key : jsstring) (w : World) :
  env (snd (uploadBlob n path key w)) = env w
  /\ ((exists e, fst (uploadBlob n path key w) = Thrown e
                 /\ blobs (snd (uploadBlob n path key w)) = blobs w)
      \/ (fst (uploadBlob n path key w) = Returned tt
          /\ exists bytes,
               blobs (snd (uploadBlob n path key w))
               = store_put
                   {| name := n;
                      metadata :=
                        Some [(CACHE_KEY_METADATA, key);
                              (CREATED_AT_METADATA,
                               toISOString (clock (env w)))];
                      lastModified := Some (clock (env w));
                      body := bytes |} (blobs w))).
Proof.
  unfold uploadBlob, info, core_log, fs_stat_size, uploadStream, outside,
    bind, get, modify, ret, throw.
  run_down; (split; [reflexivity|]);
    first [ left; eexists; split; reflexivity
          | right; split; [reflexivity|]; eexists; reflexivity ].
Qed.

Lemma uploadBlob_result {n path key : jsstring} {w : World} {r w'} :
  uploadBlob n path key w = (r, w') ->
  env w' = env w
  /\ ((exists e, r = Thrown e /\ blobs w' = blobs w)
      \/ (r = Returned tt
          /\ exists bytes,
               blobs w'
               = store_put
                   {| name := n;
                      metadata :=
                        Some [(CACHE_KEY_METADATA, key);
                              (CREATED_AT_METADATA,
                               toISOString (clock (env w)))];
                      lastModified := Some (clock (env w));
                      body := bytes |} (blobs w))).
Proof.
  intros E. pose proof (uploadBlob_outcome n path key w) as H.
  now rewrite E in H.
Qed.

Lemma bind_cases {A B} {m : M A} {k : A -> M B} {w r w'} :
  settles m ->
  bind m k w = (r, w') ->
  (exists e, m w = (Thrown e, w') /\ r = Thrown e)
  \/ (exists a w1, m w = (Returned a, w1) /\ k a w1 = (r, w')).
Proof.
  intros S. specialize (S w). unfold bind.
  destruct (m w) as [[a|e|] w1].
  - intros H. right. now exists a, w1.
  - intros [= <- <-]. left. now exists e.
  - now contradiction S.
Qed.

Lemma kept {A} {R : World -> World -> Prop} {m : M A} {w r w'} :
  keeps R m -> m w = (r, w') -> R w w'.
Proof. intros K E. specialize (K w). now rewrite E in K. Qed.

Lemma log_run (l : Level) (msg : jsstring) (w : World) :
  core_log l msg w = (Returned tt, set_log (log w ++ [(l, msg)]) w).
Proof. reflexivity. Qed.

Lemma exists_answer (n : jsstring) (w : World) r w' :
  blob_exists n w = (r, w') ->
  (exists e, r = Thrown e) \/ r = Returned (stored n (blobs w)).
Proof.
  unfold blob_exists, outside, bind, get.
  destruct (faults w) as [|[e|] rest]; intros [= <- <-]; eauto.
Qed.


Lemma cleanup_total (d : jsstring) : total (cleanupTempDirectory d).
Proof.
  apply total_try_catch; [|intros e; apply total_log].
  unfold fs_rm. settles_steps.
Qed.

(** A body that settles, then a [finally] block that returns. *)
Lemma finally_cases {A} {body : M A} {fin : M unit} {w r w'} :
  settles body -> total fin ->
  try_finally body fin w = (r, w') ->
  exists w4, body w = (r, w4) /\ r <> Unsettled /\ fin w4 = (Returned tt, w').
Proof.
  intros S T. unfold try_finally. specialize (S w).
  destruct (body w) as [r4 w4]. cbn [fst] in S.
  destruct (T w4) as [[] Hc].
  destruct (fin w4) as [rc w5] eqn:Ef. cbn [fst] in Hc. subst rc.
  destruct r4 as [a|e|]; [| |now contradiction S];
    intros [= <- <-]; exists w4;
    (split; [reflexivity|]; split; [discriminate|exact Ef]).
Qed.

(** What [saveCache] does in its temporary directory. *)
Lemma finally_returned {A} {body : M A} {fin : M unit} {w a w'} :
  try_finally body fin w = (Returned a, w') ->
  exists w4, body w = (Returned a, w4) /\ fin w4 = (Returned tt, w').
Proof.
  unfold try_finally. destruct (body w) as [[b|e|] w4]; [| |discriminate];
    destruct (fin w4) as [[[]|e'|] w5] eqn:Ef; try discriminate.
  intros [= <- <-]. exists w4. split; [reflexivity|exact Ef].
Qed.

Lemma settles_save_body (cachePaths : list jsstring)
  (primaryKey d : jsstring) :
  settles
    (archivePath <- createArchive d cachePaths
                      {| compressionMethod := this_compressionMethod |} ;;
     size <- fs_stat_size archivePath ;;
     info (str "Archive created: " ++ megabytes size ++ str " MB") ;;
     uploadBlob (sanitizeBlobName primaryKey) archivePath primaryKey ;;
     info (str "Cache saved with key: " ++ primaryKey) ;;
     now <- get (fun w => clock (env w)) ;;
     ret now).
Proof. unfold info. settles_steps. Qed.

Lemma saveCache_try_result (cachePaths : list jsstring) (primaryKey : jsstring)
  (w : World) :
  save_result primaryKey w (fst (saveCache_try cachePaths primaryKey w))
    (snd (saveCache_try cachePaths primaryKey w)).
Proof.
  destruct (saveCache_try cachePaths primaryKey w) as [r w'] eqn:E.
  cbn [fst snd]. unfold saveCache_try in E.
  (* the container check *)
  apply (bind_cases settles_ensure) in E
    as [(e & Em & ->)|([] & w1 & Em & E)];
    pose proof (kept store_ensure Em) as [E1 B1].
  { split; [assumption|]. left. eauto. }
  (* the existence check *)
  apply (bind_cases (settles_exists _)) in E
    as [(e & Ex & ->)|(ex & w2 & Ex & E)];
    pose proof (kept (store_exists _) Ex) as [E2 B2].
  { split; [congruence|]. left. exists e. split; congruence. }
  apply exists_answer in Ex as [[e [=]]|[= ->]].
  destruct (stored (sanitizeBlobName primaryKey) (blobs w1)) eqn:S.
  { unfold info in E. rewrite (bind_run _ _ _ (log_run _ _ _)) in E.
    injection E as <- <-. split; [cbn; congruence|].
    right; left. split; [reflexivity|cbn; congruence]. }
  (* the temporary directory *)
  apply (bind_cases settles_createTemp) in E
    as [(e & Et & ->)|(tempDir & w3 & Et & E)];
    pose proof (kept store_createTemp Et) as [E3 B3].
  { split; [congruence|]. left. exists e. split; congruence. }
  apply (finally_cases (settles_save_body _ _ _) (cleanup_total _)) in E
    as (w4 & Eb & _ & Ec).
  pose proof (kept (store_cleanup tempDir) Ec) as [E5 B5].
  rename r into r4.
  assert (env w4 = env w /\
          ((exists e, r4 = Thrown e /\ blobs w4 = blobs w)
           \/ (r4 = Returned (clock (env w))
               /\ exists bytes,
                    blobs w4 = store_put (saved_blob w primaryKey bytes)
                                         (blobs w)))) as [E4 C4].
  { clear E5 B5 Ec w'.
    apply (bind_cases (settles_createArchive _ _ _)) in Eb
      as [(e & Ea & ->)|(archivePath & w5 & Ea & Eb)];
      pose proof (kept (store_createArchive _ _ _) Ea) as [E5 B5].
    { split; [congruence|]. left. exists e. split; congruence. }
    apply (bind_cases (settles_stat _)) in Eb
      as [(e & Es & ->)|(size & w6 & Es & Eb)];
      pose proof (kept (store_stat _) Es) as [E6 B6].
    { split; [congruence|]. left. exists e. split; congruence. }
    unfold info in Eb. rewrite (bind_run _ _ _ (log_run _ _ _)) in Eb.
    apply (bind_cases (settles_upload _ _ _)) in Eb
      as [(e & Eu & ->)|([] & w7 & Eu & Eb)];
      pose proof (uploadBlob_result Eu) as [E7 U];
      cbn [fst snd env blobs set_log] in E7, U.
    { split; [congruence|]. left. exists e. split; [reflexivity|].
      destruct U as [(e' & _ & U)|([=] & _)]. congruence. }
    rewrite (bind_run _ _ _ (log_run _ _ _)) in Eb.
    injection Eb as <- <-. cbn [env blobs set_log].
    split; [congruence|]. right.
    destruct U as [(e' & [=] & _)|(_ & bytes & U)].
    split; [do 2 f_equal; congruence|].
    exists bytes. rewrite U. unfold saved_blob.
    replace (env w6) with (env w) by congruence.
    replace (blobs w6) with (blobs w) by congruence. reflexivity. }
  split; [congruence|].
  destruct C4 as [(e & -> & B4)|(-> & bytes & B4)].
  - left. exists e. split; [reflexivity|congruence].
  - right; right. split; [congruence|]. split; [reflexivity|].
    exists bytes. congruence.
Qed.

Lemma saveCache_result (cachePaths : list jsstring) (primaryKey : jsstring)
  (w : World) :
  env (snd (saveCache cachePaths primaryKey w)) = env w
  /\ ((fst (saveCache cachePaths primaryKey w) = Returned (-1)%Z
       /\ blobs (snd (saveCache cachePaths primaryKey w)) = blobs w)
      \/ (stored (sanitizeBlobName primaryKey) (blobs w) = false
          /\ fst (saveCache cachePaths primaryKey w)
             = Returned (clock (env w))
          /\ exists bytes,
               blobs (snd (saveCache cachePaths primaryKey w))
               = store_put (saved_blob w primaryKey bytes) (blobs w))).
Proof.
  pose proof (saveCache_try_result cachePaths primaryKey w) as [E R].
  unfold saveCache, try_catch.
  destruct (saveCache_try cachePaths primaryKey w) as [[id|e|] w1];
    cbn [fst snd] in *.
  - split; [exact E|].
    destruct R as [(e & [=] & _)|[R|R]]; [now left|now right].
  - split; [exact E|]. left. split; [reflexivity|].
    destruct R as [(e' & _ & B)|[([=] & _)|(_ & [=] & _)]]. exact B.
  - destruct R as [(e' & [=] & _)|[([=] & _)|(_ & [=] & _)]].
Qed.

Lemma store_put_new (b : BlobItem) (bs : list BlobItem) :
  stored (name b) bs = false ->
  stored (name b) (store_put b bs) = true
  /\ count_named (name b) (store_put b bs) = 1%nat.
Proof.
  unfold stored, count_named.
  induction bs as [|b' bs IH]; cbn [existsb store_put filter].
  - intros _. rewrite named_name. now split.
  - intros H. apply orb_false_iff in H as [H1 H2].
    rewrite H1. cbn [existsb filter]. rewrite H1. now apply IH.
Qed.

Lemma count_named_stored (n : jsstring) (bs : list BlobItem) :
  stored n bs = true -> (1 <= count_named n bs)%nat.
Proof.
  unfold stored, count_named. induction bs as [|b bs IH]; cbn; [discriminate|].
  destruct (named n b); cbn; [lia|exact IH].
Qed.

(** When the blob is there, [saveCache] asks whether it is and stops. *)
Lemma save_skips (cachePaths : list jsstring) (primaryKey : jsstring)
  (w : World) :
  stored (sanitizeBlobName primaryKey) (blobs w) = true ->
  fst (saveCache cachePaths primaryKey w) = Returned (-1)%Z
  /\ blobs (snd (saveCache cachePaths primaryKey w)) = blobs w
  /\ files (snd (saveCache cachePaths primaryKey w)) = files w
  /\ calls (snd (saveCache cachePaths primaryKey w))
     = calls w ++ [CreateIfNotExists; Exists (sanitizeBlobName primaryKey)].
Proof.
  destruct w as [en bs fs ds fl tr cs lg]. cbn [blobs files calls]. intros S.
  unfold saveCache, saveCache_try, ensureContainerExists, createIfNotExists,
    blob_exists, try_catch, bind, outside, get, info, debug, warning,
    core_log, modify, ret.
  destruct fl as [|[e|] [|[e'|] rest]];
    cbn [fst snd env blobs files dirs faults tar_runs calls log
         set_blobs set_files set_dirs set_faults set_tar_runs set_calls
         set_log];
    rewrite ?S;
    cbn [fst snd env blobs files dirs faults tar_runs calls log
         set_blobs set_files set_dirs set_faults set_tar_runs set_calls
         set_log];
    rewrite <- ?app_assoc; repeat split; reflexivity.
Qed.

(** A save never leaves two blobs under the name. *)
Lemma save_keeps_one (cachePaths : list jsstring) (primaryKey : jsstring)
  (w : World) :
  (count_named (sanitizeBlobName primaryKey) (blobs w) <= 1)%nat ->
  (count_named (sanitizeBlobName primaryKey)
     (blobs (snd (saveCache cachePaths primaryKey w))) <= 1)%nat.
Proof.
  intros L.
  destruct (saveCache_result cachePaths primaryKey w)
    as [_ [[_ B]|(S & _ & bytes & B)]]; rewrite B; [exact L|].
  destruct (store_put_new (saved_blob w primaryKey bytes) (blobs w) S)
    as [_ C].
  cbn [saved_blob name] in C. rewrite C. constructor.
Qed.

(** C3. [saveCache] does not save twice.  When a blob is stored under the
    sanitized name, the call returns -1 after the container check and the
    existence check, its only calls: no archive is made, nothing is
    uploaded, and the container and the disk are as before.  Hence, of two
    calls with the same key and paths, once the blob is there (it was, or
    the first call put it) the second returns -1 and leaves the container as
    the first left it, with one blob under that name; and whatever the two
    calls come to, they never leave two blobs under it. *)
Theorem save_is_idempotent (cachePaths : list jsstring) (primaryKey : jsstring)
  (w : World) :
  let n := sanitizeBlobName primaryKey in
  let first := saveCache cachePaths primaryKey w in
  let second := saveCache cachePaths primaryKey (snd first) in
  (stored n (blobs w) = true ->
   fst first = Returned (-1)%Z
   /\ blobs (snd first) = blobs w
   /\ files (snd first) = files w
   /\ calls (snd first) = calls w ++ [CreateIfNotExists; Exists n])
  /\ (stored n (blobs w) = true \/ fst first <> Returned (-1)%Z ->
      fst second = Returned (-1)%Z
      /\ blobs (snd second) = blobs (snd first)
      /\ calls (snd second)
         = calls (snd first) ++ [CreateIfNotExists; Exists n]
      /\ ((count_named n (blobs w) <= 1)%nat ->
          count_named n (blobs (snd second)) = 1%nat))
  /\ ((count_named n (blobs w) <= 1)%nat ->
      (count_named n (blobs (snd second)) <= 1)%nat).
Proof.
  intros n first second. split; [apply save_skips|]. split.
  2:{ intros L. apply (save_keeps_one cachePaths), (save_keeps_one cachePaths).
      exact L. }
  intros H.
  assert (stored n (blobs (snd first)) = true
          /\ ((count_named n (blobs w) <= 1)%nat ->
              count_named n (blobs (snd first)) = 1%nat)) as [S C].
  { destruct (saveCache_result cachePaths primaryKey w)
      as [_ [[R B]|(S & R & bytes & B)]]; fold first in R, B.
    - destruct H as [H|H]; [|contradiction].
      rewrite B. split; [exact H|].
      pose proof (count_named_stored _ _ H). lia.
    - rewrite B.
      destruct (store_put_new (saved_blob w primaryKey bytes) (blobs w) S).
      now split. }
  destruct (save_skips cachePaths primaryKey (snd first) S)
    as (R2 & B2 & _ & C2).
  fold second in R2, B2, C2.
  repeat split; try assumption. intros L. rewrite B2. now apply C.
Qed.

Lemma save_is_idempotent_witness :
  fst (saveCache [str "build/"] (str "linux-v1") fresh) <> Returned (-1)%Z
  /\ (count_named (sanitizeBlobName (str "linux-v1")) (blobs fresh) <= 1)%nat
  /\ fst (saveCache [str "build/"] (str "linux-v1")
            (snd (saveCache [str "build/"] (str "linux-v1") fresh)))
     = Returned (-1)%Z
  /\ count_named (sanitizeBlobName (str "linux-v1"))
       (blobs (snd (saveCache [str "build/"] (str "linux-v1")
                      (snd (saveCache [str "build/"] (str "linux-v1")
                                      fresh)))))
     = 1%nat.
Proof.
  assert (fst (saveCache [str "build/"] (str "linux-v1") fresh)
          <> Returned (-1)%Z) as H by (vm_compute; discriminate).
  split; [exact H|]. split; [vm_compute; lia|].
  destruct (save_is_idempotent [str "build/"] (str "linux-v1") fresh)
    as (_ & T & _).
  destruct (T (or_intror H)) as (R & _ & _ & C).
  split; [exact R|]. apply C. vm_compute. lia.
Defined.

(** ** The provider boundary *)

(** What does hold at the boundary.  [saveCache] returns in every world
    and under every schedule of failures, and an error that leaves its
    [try] block is answered with -1 and one warning that carries its
    message.  [restoreCache] never throws: it returns, an error that
    leaves its [try] block being answered with [undefined] and one warning,
    or it never settles.  (A failed container creation, a failed removal of
    the manifest or of the temporary directory never leave the block: they
    are caught where they occur.) *)
Lemma save_returns (cachePaths : list jsstring) (primaryKey : jsstring) :
  total (saveCache cachePaths primaryKey).
Proof.
  unfold saveCache. apply total_try_catch.
  - unfold saveCache_try, info. settles_steps.
  - intros e. apply total_bind; [apply total_log|intros _; apply total_ret].
Qed.

Lemma boundary_absorbs_what_is_thrown (cachePaths : list jsstring)
  (primaryKey : jsstring) (restoreKeys : list jsstring)
  (options : option CacheRestoreOptions) (w : World) :
  ((exists r,
       fst (restoreCache cachePaths primaryKey restoreKeys options w)
       = Returned r)
   \/ fst (restoreCache cachePaths primaryKey restoreKeys options w)
      = Unsettled)
  /\ (forall e w1,
         restoreCache_try cachePaths primaryKey restoreKeys options w
         = (Thrown e, w1) ->
         restoreCache cachePaths primaryKey restoreKeys options w
         = (Returned None,
            set_log (log w1 ++ [(Warning,
                                 str "Failed to restore cache: " ++ e)]) w1))
  /\ (exists id, fst (saveCache cachePaths primaryKey w) = Returned id)
  /\ (forall e w1,
         saveCache_try cachePaths primaryKey w = (Thrown e, w1) ->
         saveCache cachePaths primaryKey w
         = (Returned (-1)%Z,
            set_log (log w1 ++ [(Warning,
                                 str "Failed to save cache: " ++ e)]) w1)).
Proof.
  split; [|split; [|split]].
  - unfold restoreCache, try_catch.
    destruct (restoreCache_try cachePaths primaryKey restoreKeys options w)
      as [[r|e|] w1]; cbn [fst]; [left; now exists r| |now right].
    left. now exists None.
  - intros e w1 E. unfold restoreCache, try_catch. now rewrite E.
  - apply save_returns.
  - intros e w1 E. unfold saveCache, try_catch. now rewrite E.
Qed.

(** C4: where the code departs from the claim.  The blob is found and its
    download begins; then the body fails on its way to the file.  The
    listeners that [downloadBlob] waits on are on the write stream, so
    nothing rejects: [restoreCache] never settles.  It does not return
    [undefined], it logs no warning, and the [finally] block does not run:
    the piping is its last call and the temporary directory stays. *)
Theorem download_body_failure_is_not_absorbed :
  let run := restoreCache [str "build/"] (str "linux-v1") [] None
               body_stream_fails in
  fst run = Unsettled
  /\ log (snd run)
     = [(Info, str "Cache found for key: linux-v1");
        (Info, str "Downloading cache from Azure Storage...")]
  /\ calls (snd run)
     = [CreateIfNotExists; Exists (str "linux-v1");
        Mkdir (str "/home/runner/work/_temp/azure-cache-1700000000123-k3j9x1");
        Download (str "linux-v1");
        WriteStream
          (str "/home/runner/work/_temp/azure-cache-1700000000123-k3j9x1/cache.tar.gz");
        Pipe
          (str "/home/runner/work/_temp/azure-cache-1700000000123-k3j9x1/cache.tar.gz")]
  /\ dirs (snd run)
     = [str "/home/runner/work/_temp/azure-cache-1700000000123-k3j9x1"].
Proof. cbv zeta. repeat split; vm_compute; reflexivity. Qed.

(** The failures that are absorbed: of the backend, of the request for the
    download, of the write stream, of a missing tool, of tar; and the two
    that are caught before the boundary. *)
Example backend_failure_is_absorbed :
  fst (restoreCache [str "build/"] (str "linux-v1") [] None backend_down)
  = Returned None
  /\ log (snd (restoreCache [str "build/"] (str "linux-v1") [] None
                 backend_down))
     = [(Warning, str "Failed to restore cache: getaddrinfo ENOTFOUND")]
  /\ fst (saveCache [str "build/"] (str "linux-v1") backend_down)
     = Returned (-1)%Z.
Proof. repeat split; vm_compute; reflexivity. Qed.

Example download_request_failure_is_absorbed :
  fst (restoreCache [str "build/"] (str "linux-v1") [] None download_fails)
  = Returned None
  /\ logged Warning "Failed to restore cache: socket hang up"
       (snd (restoreCache [str "build/"] (str "linux-v1") [] None
               download_fails))
     = true
  /\ dirs (snd (restoreCache [str "build/"] (str "linux-v1") [] None
                  download_fails))
     = [].
Proof. repeat split; vm_compute; reflexivity. Qed.

Example missing_tool_is_absorbed :
  fst (restoreCache [str "build/"] (str "linux-v1") [] None no_tar)
  = Returned None
  /\ logged Warning
       "Failed to restore cache: Unable to locate executable file: tar. Please verify either the file path exists or the file can be found within a directory specified by the PATH environment variable. Also check the file mode to verify the file is executable."
       (snd (restoreCache [str "build/"] (str "linux-v1") [] None no_tar))
     = true
  /\ fst (saveCache [str "build/"] (str "linux-v9") no_tar) = Returned (-1)%Z.
Proof. repeat split; vm_compute; reflexivity. Qed.

Example tar_failure_is_absorbed :
  fst (saveCache [str "build/"] (str "linux-v1") tar_fails) = Returned (-1)%Z
  /\ logged Warning
       "Failed to save cache: The process '/usr/bin/tar' failed with exit code 2"
       (snd (saveCache [str "build/"] (str "linux-v1") tar_fails))
     = true.
Proof. repeat split; vm_compute; reflexivity. Qed.

Example swallowed_failures_do_not_surface :
  fst (restoreCache [str "build/"] (str "linux-v1") [] None
         no_create_no_cleanup)
  = Returned (Some (str "linux-v1"))
  /\ logged Debug "Container check/create: AuthorizationFailure"
       (snd (restoreCache [str "build/"] (str "linux-v1") [] None
               no_create_no_cleanup))
     = true
  /\ logged Debug "Failed to cleanup temp directory: EBUSY"
       (snd (restoreCache [str "build/"] (str "linux-v1") [] None
               no_create_no_cleanup))
     = true.
Proof. repeat split; vm_compute; reflexivity. Qed.

(** ** Looking up without restoring *)

Lemma asked_only_refl (w : World) : asked_only w w.
Proof.
  repeat split. exists []. now rewrite app_nil_r.
Qed.

Lemma asked_only_trans (a b c : World) :
  asked_only a b -> asked_only b c -> asked_only a c.
Proof.
  intros (E1 & B1 & F1 & D1 & T1 & n1 & C1 & Q1)
         (E2 & B2 & F2 & D2 & T2 & n2 & C2 & Q2).
  repeat (split; [congruence|]).
  exists (n1 ++ n2). rewrite C2, C1, app_assoc, forallb_app, Q1, Q2.
  now split.
Qed.

Lemma asked_outside (c : Call) :
  is_query c = true -> keeps asked_only (outside c).
Proof.
  intros Q w. unfold outside.
  destruct (faults w) as [|[e|] rest]; repeat split;
    exists [c]; cbn; now rewrite Q.
Qed.

Lemma asked_log (l : Level) (msg : jsstring) : keeps asked_only (core_log l msg).
Proof.
  intros w. repeat split. exists []. cbn. now rewrite app_nil_r.
Qed.

#[local] Hint Resolve asked_log : keeps.
#[local] Hint Extern 1 (keeps asked_only (outside _)) =>
  apply asked_outside; reflexivity : keeps.

Ltac asked_steps := repeat keeps_step asked_only_refl asked_only_trans.

Lemma asked_ensure : keeps asked_only ensureContainerExists.
Proof. unfold ensureContainerExists, createIfNotExists, debug. asked_steps. Qed.

Lemma asked_collect (listing : list BlobItem) :
  forall acc, keeps asked_only (collect_matches listing acc).
Proof.
  induction listing as [|b listing IH]; intros acc; cbn [collect_matches].
  - asked_steps.
  - unfold getProperties. asked_steps.
Qed.

Lemma asked_scan (restoreKeys : list jsstring) :
  keeps asked_only (scan_restore_keys restoreKeys).
Proof.
  induction restoreKeys as [|rk rest IH]; cbn [scan_restore_keys].
  - asked_steps.
  - unfold listBlobsFlat.
    apply (keeps_bind asked_only_trans); [asked_steps|intros listing].
    apply (keeps_bind asked_only_trans); [apply asked_collect|intros ms].
    destruct (0 <? length ms)%nat; [|exact IH].
    destruct (array_sort by_recency ms); asked_steps.
Qed.

Lemma asked_find (primaryKey : jsstring) (restoreKeys : list jsstring) :
  keeps asked_only (findMatchingBlob primaryKey restoreKeys).
Proof.
  unfold findMatchingBlob, blob_exists.
  apply (keeps_bind asked_only_trans); [asked_steps|intros ex].
  destruct ex; [asked_steps|apply asked_scan].
Qed.

Lemma asked_resolution (primaryKey : jsstring) (restoreKeys : list jsstring) :
  keeps asked_only (resolution primaryKey restoreKeys).
Proof.
  unfold resolution.
  apply (keeps_bind asked_only_trans); [apply asked_ensure|intros _].
  apply asked_find.
Qed.

(** *** What resolution returns is in the container *)

Lemma collect_items (listing : list BlobItem) :
  forall acc w ms w',
    collect_matches listing acc w = (Returned ms, w') ->
    map blobItem ms = map blobItem acc ++ listing.
Proof.
  induction listing as [|b listing IH]; intros acc w ms w';
    cbn [collect_matches].
  - intros [= <- <-]. now rewrite app_nil_r.
  - intros E. apply bind_returned in E as (p & w1 & _ & E).
    apply IH in E. rewrite E, map_app, <- app_assoc. reflexivity.
Qed.

Lemma first_latest_in {A} (time : A -> Z) (l : list A) (x : A) :
  first_latest time l = Some x -> In x l.
Proof.
  intros H. destruct (first_latest_spec _ _ H) as (l1 & l2 & -> & _).
  apply in_elt.
Qed.

Lemma stored_in (b : BlobItem) (bs : list BlobItem) :
  In b bs -> stored (name b) bs = true.
Proof.
  intros H. apply existsb_exists. exists b. split; [exact H|apply named_name].
Qed.

Lemma scan_sound (restoreKeys : list jsstring) :
  forall w m w',
    scan_restore_keys restoreKeys w = (Returned (Some m), w') ->
    stored (blobName m) (blobs w) = true.
Proof.
  induction restoreKeys as [|rk rest IH]; intros w m w';
    cbn [scan_restore_keys]; [discriminate|].
  intros E.
  apply bind_returned in E as (listing & w1 & El & E).
  assert (blobs w1 = blobs w /\ listing = listed (sanitizeBlobName rk) (blobs w))
    as [B1 ->].
  { unfold listBlobsFlat, outside, bind, get in El.
    destruct (faults w) as [|[e|] r]; try discriminate;
      injection El as <- <-; now split. }
  apply bind_returned in E as (ms & w2 & Ec & E).
  pose proof (kept (asked_collect _ _) Ec) as (_ & B2 & _).
  apply collect_items in Ec. cbn [map app] in Ec.
  destruct (0 <? length ms)%nat.
  - pose proof (sort_head ms) as S.
    destruct (array_sort by_recency ms) as [|best rest']; [discriminate|].
    injection E as <- _. cbn [blobName hd_error] in *.
    symmetry in S. apply first_latest_in in S.
    apply (in_map blobItem) in S. rewrite Ec in S.
    apply stored_in. eapply listed_in, S.
  - rewrite <- B1, <- B2. eapply IH, E.
Qed.

Lemma find_sound (primaryKey : jsstring) (restoreKeys : list jsstring)
  (w : World) (m : Match) (w' : World) :
  findMatchingBlob primaryKey restoreKeys w = (Returned (Some m), w') ->
  stored (blobName m) (blobs w) = true.
Proof.
  unfold findMatchingBlob. intros E.
  apply bind_returned in E as (ex & w1 & Ex & E).
  pose proof (kept (store_exists _) Ex) as [_ B].
  pose proof (exists_answer _ _ Ex) as [[e [=]]|[= ->]].
  destruct (stored (sanitizeBlobName primaryKey) (blobs w)) eqn:S.
  - injection E as <- _. exact S.
  - rewrite <- B. eapply scan_sound, E.
Qed.

(** When resolution finds a blob and nothing fails afterwards, a full
    restore returns the key of that blob. *)
Lemma restore_full_success (cachePaths : list jsstring) (primaryKey : jsstring)
  (restoreKeys : list jsstring) (options : option CacheRestoreOptions)
  (w : World) (m : Match) (w1 : World) (tp : jsstring) :
  resolution primaryKey restoreKeys w = (Returned (Some m), w1) ->
  lookupOnly_set options = false ->
  faults w1 = [] ->
  tar_on_path (env w) = Some tp ->
  fst (hd (0%Z, []) (tar_runs w)) = 0%Z ->
  fst (restoreCache cachePaths primaryKey restoreKeys options w)
  = Returned (Some (cacheKey m)).
Proof.
  intros H L F T X.
  pose proof (kept (asked_resolution _ _) H) as (E & B & _ & _ & Tr & _).
  unfold resolution in H. apply bind_returned in H as ([] & w0 & He & Hf).
  pose proof (find_sound _ _ _ Hf) as S.
  pose proof (kept (asked_find _ _) Hf) as (_ & B0 & _).
  rewrite <- B0 in S. apply find_named_stored in S as [b Sb].
  unfold restoreCache, try_catch, restoreCache_try.
  rewrite (bind_run _ _ _ He), (bind_run _ _ _ Hf), L.
  rewrite <- E in T. rewrite <- Tr in X. clear He Hf E B B0 Tr w w0.
  destruct w1 as [en bs fs ds fl tr cs lg].
  cbn [faults blobs env tar_runs] in F, Sb, T, X. subst fl.
  unfold createTempDirectory, fs_mkdir, try_finally,
    downloadBlob, blob_download, pipe_to_file, extractArchive, getTarPath,
    io_which, workspace_root, exec_exec, cleanupTempDirectory, fs_rm,
    try_catch, info, debug, core_log, bind, outside, unheard, get, modify,
    ret, throw.
  repeat
    (cbn [fst snd env blobs files dirs faults tar_runs calls log
          set_blobs set_files set_dirs set_faults set_tar_runs set_calls
          set_log negb Z.eqb];
     first
       [ rewrite Sb | rewrite T | rewrite X
       | match goal with
         | |- context [jseq (platform en) ?s] =>
             destruct (jseq (platform en) s)
         | |- context [match tp with [] => _ | _ :: _ => _ end] =>
             destruct tp
         end ]);
    reflexivity.
Qed.

(** Whatever happens after resolution, a restore that returns gives the
    key that was resolved, or [undefined]. *)
Lemma restore_key_or_nothing (cachePaths : list jsstring)
  (primaryKey : jsstring) (restoreKeys : list jsstring)
  (options : option CacheRestoreOptions) (w : World) (m : Match) (w1 : World) :
  resolution primaryKey restoreKeys w = (Returned (Some m), w1) ->
  fst (restoreCache cachePaths primaryKey restoreKeys options w)
  = Returned (Some (cacheKey m))
  \/ fst (restoreCache cachePaths primaryKey restoreKeys options w)
     = Returned None
  \/ fst (restoreCache cachePaths primaryKey restoreKeys options w)
     = Unsettled.
Proof.
  intros H. unfold resolution in H.
  apply bind_returned in H as ([] & w0 & He & Hf).
  unfold restoreCache, try_catch.
  destruct (restoreCache_try cachePaths primaryKey restoreKeys options w)
    as [[r|e|] w2] eqn:E;
    [|right; left; reflexivity|right; right; reflexivity].
  left. cbn [fst]. f_equal.
  unfold restoreCache_try in E.
  rewrite (bind_run _ _ _ He), (bind_run _ _ _ Hf) in E. cbv beta iota in E.
  apply bind_returned in E as ([] & w3' & _ & E).
  destruct (lookupOnly_set options).
  - apply bind_returned in E as ([] & w4 & _ & E). now injection E as <- _.
  - apply bind_returned in E as (tempDir & w3 & _ & E).
    unfold try_finally in E.
    match type of E with
    | (let (_, _) := ?body w3 in _) = _ =>
        destruct (body w3) as [rb wb] eqn:Eb
    end.
    destruct rb as [vb|eb|]; try discriminate;
      destruct (cleanupTempDirectory tempDir wb) as [[[]|e|] wc];
      try discriminate.
    injection E as -> _.
    apply bind_returned in Eb as ([] & w4 & _ & Eb).
    apply bind_returned in Eb as ([] & w5 & _ & Eb).
    unfold info in Eb. rewrite (bind_run _ _ _ (log_run _ _ _)) in Eb.
    now injection Eb as <- _.
Qed.

(** C6. When resolution finds a blob, [restoreCache] with [lookupOnly]
    returns the key resolved, and the world after it is the world after
    resolution with two more lines of log: the calls are those of
    resolution, all of them queries to the container, so nothing is
    downloaded and no tool is run, and the disk is untouched.  The same call
    without [lookupOnly] returns that same key whenever it returns one (it
    returns that key or [undefined], unless the body of the download fails
    and it never settles), and it does return it when the download and the
    extraction go through. *)
Theorem lookup_only_probe (cachePaths : list jsstring) (primaryKey : jsstring)
  (restoreKeys : list jsstring) (w : World) (m : Match) (w1 : World) :
  resolution primaryKey restoreKeys w = (Returned (Some m), w1) ->
  let probe := restoreCache cachePaths primaryKey restoreKeys
                 (Some {| lookupOnly := Some true |}) w in
  fst probe = Returned (Some (cacheKey m))
  /\ calls (snd probe) = calls w1
  /\ (exists new, calls (snd probe) = calls w ++ new
                  /\ forallb is_query new = true)
  /\ files (snd probe) = files w
  /\ dirs (snd probe) = dirs w
  /\ blobs (snd probe) = blobs w
  /\ (forall options,
         lookupOnly_set options = false ->
         let full := restoreCache cachePaths primaryKey restoreKeys options w in
         (fst full = Returned (Some (cacheKey m)) \/ fst full = Returned None
          \/ fst full = Unsettled)
         /\ (forall tp,
                faults w1 = [] ->
                tar_on_path (env w) = Some tp ->
                fst (hd (0%Z, []) (tar_runs w)) = 0%Z ->
                fst full = Returned (Some (cacheKey m)))).
Proof.
  intros H probe.
  pose proof (kept (asked_resolution _ _) H) as (_ & B & F & D & _ & Q).
  assert (probe
          = (Returned (Some (cacheKey m)),
             set_log (log w1 ++ [(Info, str "Cache found for key: "
                                          ++ cacheKey m);
                                 (Info, str "Lookup only mode - skipping download")])
                     w1)) as P.
  { pose proof H as H'. unfold resolution in H'.
    apply bind_returned in H' as ([] & w0 & He & Hf).
    unfold probe, restoreCache, try_catch, restoreCache_try.
    rewrite (bind_run _ _ _ He), (bind_run _ _ _ Hf).
    cbn [lookupOnly_set lookupOnly]. unfold info.
    rewrite !(bind_run _ _ _ (log_run _ _ _)). unfold ret.
    cbn [set_log log]. now rewrite <- app_assoc. }
  rewrite P. cbn [fst snd calls files dirs blobs set_log].
  repeat (split; [assumption || reflexivity|]).
  intros options L. split.
  - eapply restore_key_or_nothing, H.
  - intros tp Fl T X. eapply restore_full_success; eassumption.
Qed.

Lemma lookup_only_probe_witness :
  fst (resolution (str "linux-a9-77") [str "linux-a9-"; str "linux-"]
         two_under_second_prefix)
  = Returned (Some {| cacheKey := str "linux-a2"; blobName := str "linux-a2" |})
  /\ fst (restoreCache [str "build/"] (str "linux-a9-77")
            [str "linux-a9-"; str "linux-"]
            (Some {| lookupOnly := Some true |}) two_under_second_prefix)
     = Returned (Some (str "linux-a2"))
  /\ fst (restoreCache [str "build/"] (str "linux-a9-77")
            [str "linux-a9-"; str "linux-"] None two_under_second_prefix)
     = Returned (Some (str "linux-a2")).
Proof.
  destruct (resolution (str "linux-a9-77") [str "linux-a9-"; str "linux-"]
              two_under_second_prefix) as [r w1] eqn:E.
  assert (r = Returned (Some {| cacheKey := str "linux-a2";
                                blobName := str "linux-a2" |})) as ->
    by (apply (f_equal fst) in E; vm_compute in E; now symmetry).
  assert (faults w1 = []) as F
    by (apply (f_equal (fun x => faults (snd x))) in E; vm_compute in E;
        now symmetry).
  destruct (lookup_only_probe [str "build/"] _ _ _ E)
    as (P & _ & _ & _ & _ & _ & T).
  split; [reflexivity|]. split; [exact P|].
  destruct (T None eq_refl) as [_ S].
  apply (S (str "/usr/bin/tar") F); reflexivity.
Defined.

(** ** The key in the metadata *)

Example empty_key_run :
  fst (findMatchingBlob (str "linux-v9") [str "linux-"] empty_key_world)
  = Returned (Some {| cacheKey := str "linux-x"; blobName := str "linux-x" |}).
Proof. vm_compute. reflexivity. Qed.

(** C7, as stated, fails: a blob whose [cachekey] metadata is present and
    empty is reported under its object name, not under its metadata. *)
Lemma metadata_key_counterexample : ~ key_from_metadata_when_present.
Proof.
  intros H.
  specialize (H empty_key_world (str "linux-v9") [str "linux-"]
                {| cacheKey := str "linux-x"; blobName := str "linux-x" |}
                empty_key_blob [(CACHE_KEY_METADATA, [])] []
                eq_refl eq_refl empty_key_run eq_refl eq_refl eq_refl).
  discriminate.
Qed.

(** A blob without metadata is reported under its object name. *)
Example legacy_blob_run :
  fst (findMatchingBlob (str "linux-v9") [str "linux-"] legacy_world)
  = Returned (Some {| cacheKey := str "linux-old";
                      blobName := str "linux-old" |}).
Proof. vm_compute. reflexivity. Qed.

Lemma find_store_put (b : BlobItem) (bs : list BlobItem) :
  find (named (name b)) (store_put b bs) = Some b.
Proof.
  induction bs as [|b' bs IH]; cbn [store_put find].
  - now rewrite named_name.
  - destruct (named (name b) b') eqn:E; cbn [find].
    + now rewrite named_name.
    + now rewrite E.
Qed.

(** The key a blob saved by [saveCache] is reported under is the key it was
    saved with. *)
Lemma saved_key_recovered (w : World) (key : jsstring) (bytes : list N)
  (bs : list BlobItem) (b : BlobItem) :
  name b = sanitizeBlobName key ->
  original_key
    (properties_of (store_put (saved_blob w key bytes) bs) b) b = key.
Proof.
  intros N. unfold properties_of. rewrite N.
  change (sanitizeBlobName key) with (name (saved_blob w key bytes)) at 1.
  rewrite find_store_put.
  unfold original_key, saved_blob. cbn [metadata meta_get].
  change (jseq CACHE_KEY_METADATA CACHE_KEY_METADATA) with true.
  cbn [or_else]. destruct key as [|c key]; [|reflexivity].
  rewrite N. reflexivity.
Qed.

Lemma original_key_cases (p b : BlobItem) :
  (forall md k, metadata p = Some md ->
                meta_get CACHE_KEY_METADATA md = Some k -> k <> [] ->
                original_key p b = k)
  /\ (metadata p = None -> original_key p b = name b)
  /\ (forall md, metadata p = Some md ->
                 meta_get CACHE_KEY_METADATA md = None
                 \/ meta_get CACHE_KEY_METADATA md = Some [] ->
                 original_key p b = name b).
Proof.
  unfold original_key. split; [|split].
  - intros md k -> -> N. destruct k; [contradiction|reflexivity].
  - now intros ->.
  - intros md -> [->| ->]; reflexivity.
Qed.

(** ** The shape of a timestamp *)

Lemma below_by_enumeration (f : Z -> bool) (count : nat) :
  forall z0, all_from f count z0 = true ->
  forall z, (z0 <= z < z0 + Z.of_nat count)%Z -> f z = true.
Proof.
  induction count as [|count IH]; intros z0 H z Hz; [lia|].
  cbn [all_from] in H. apply andb_true_iff in H as [H1 H2].
  destruct (Z.eq_dec z z0) as [->|N]; [exact H1|].
  apply (IH (z0 + 1)%Z H2). lia.
Qed.

Lemma digits_ok_2 (z : Z) : (0 <= z < 100)%Z -> digits_ok 2 z = true.
Proof.
  intros H. apply below_by_enumeration with (count := Z.to_nat 100) (z0 := 0%Z).
  - vm_compute. reflexivity.
  - rewrite Z2Nat.id; lia.
Qed.

Lemma digits_ok_3 (z : Z) : (0 <= z < 1000)%Z -> digits_ok 3 z = true.
Proof.
  intros H. apply below_by_enumeration with (count := Z.to_nat 1000) (z0 := 0%Z).
  - vm_compute. reflexivity.
  - rewrite Z2Nat.id; lia.
Qed.

Lemma digits_ok_4 (z : Z) : (0 <= z < 10000)%Z -> digits_ok 4 z = true.
Proof.
  intros H. apply below_by_enumeration with (count := Z.to_nat 10000) (z0 := 0%Z).
  - vm_compute. reflexivity.
  - rewrite Z2Nat.id; lia.
Qed.

Lemma digits_of {width : nat} {z : Z} :
  digits_ok width z = true ->
  length (pad_left width (Z_to_str z)) = width
  /\ forallb is_digit (pad_left width (Z_to_str z)) = true.
Proof.
  unfold digits_ok. intros H. apply andb_true_iff in H as [H1 H2].
  now apply Nat.eqb_eq in H1.
Qed.

(** For a time within the years 0 to 9999, the date of the day. *)
Lemma civil_bounds (t : Z) :
  (0 <= t < 253402300800000)%Z ->
  let '(y, m, d) := civil_of_days (t / 86400000) in
  (0 <= y <= 9999 /\ 1 <= m <= 12 /\ 1 <= d <= 31)%Z.
Proof.
  intros H. unfold civil_of_days. cbv zeta.
  set (days := (t / 86400000)%Z).
  assert (0 <= days <= 2932896)%Z as Hdays
    by (subst days; Z.div_mod_to_equations; lia).
  clearbody days. clear H t.
  set (z := (days + 719468)%Z).
  set (era := (z / 146097)%Z).
  set (doe := (z - era * 146097)%Z).
  assert (4 <= era <= 24 /\ 0 <= doe < 146097
          /\ (era = 24 -> doe <= 146036))%Z as (He & Hd & Hl)
    by (subst doe era z; Z.div_mod_to_equations; lia).
  clearbody doe. clearbody era. clear z Hdays days.
  set (yoe := ((doe - doe / 1460 + doe / 36524 - doe / 146096) / 365)%Z).
  set (doy := (doe - (365 * yoe + yoe / 4 - yoe / 100))%Z).
  assert (0 <= yoe <= 399 /\ 0 <= doy <= 365
          /\ (yoe = 399 -> doe <= 146036 -> doy <= 305))%Z
    as (Hy & Hdy & Hlast)
    by (subst doy yoe; Z.div_mod_to_equations; lia).
  clearbody doy. clearbody yoe.
  set (mp := ((5 * doy + 2) / 153)%Z).
  set (d := (doy - (153 * mp + 2) / 5 + 1)%Z).
  assert (0 <= mp <= 11 /\ 1 <= d <= 31 /\ (doy <= 305 -> mp < 10))%Z
    as (Hm & Hdd & Hmp)
    by (subst d mp; Z.div_mod_to_equations; lia).
  clearbody d. clearbody mp.
  destruct (Z.ltb_spec mp 10).
  - destruct (Z.leb_spec (mp + 3) 2); lia.
  - destruct (Z.leb_spec (mp - 9) 2); lia.
Qed.

Lemma iso_assemble (y1 y2 y3 y4 m1 m2 d1 d2 h1 h2 n1 n2 s1 s2 f1 f2 f3 : N) :
  forallb is_digit [y1; y2; y3; y4] = true ->
  forallb is_digit [m1; m2] = true ->
  forallb is_digit [d1; d2] = true ->
  forallb is_digit [h1; h2] = true ->
  forallb is_digit [n1; n2] = true ->
  forallb is_digit [s1; s2] = true ->
  forallb is_digit [f1; f2; f3] = true ->
  is_iso8601
    ([y1; y2; y3; y4] ++ str "-" ++ [m1; m2] ++ str "-" ++ [d1; d2]
     ++ str "T" ++ [h1; h2] ++ str ":" ++ [n1; n2] ++ str ":" ++ [s1; s2]
     ++ str "." ++ [f1; f2; f3] ++ str "Z") = true.
Proof.
  intros Hy Hm Hd Hh Hn Hs Hf.
  change (str "-") with [45%N]. change (str "T") with [84%N].
  change (str ":") with [58%N]. change (str ".") with [46%N].
  change (str "Z") with [90%N].
  cbn [app is_iso8601].
  change (str "--T::.Z") with [45; 45; 84; 58; 58; 46; 90]%N.
  cbn [jseq N.eqb Pos.eqb andb]. rewrite andb_true_r.
  change [y1; y2; y3; y4; m1; m2; d1; d2; h1; h2; n1; n2; s1; s2; f1; f2; f3]
    with ([y1; y2; y3; y4] ++ [m1; m2] ++ [d1; d2] ++ [h1; h2] ++ [n1; n2]
          ++ [s1; s2] ++ [f1; f2; f3]).
  rewrite !forallb_app.
  do 6 (apply andb_true_iff; split; [assumption|]). assumption.
Qed.

(** Within the years 0 to 9999 [toISOString] prints
    [YYYY-MM-DDTHH:mm:ss.sssZ]. *)
Lemma toISOString_shape (t : Z) :
  (0 <= t < 253402300800000)%Z -> is_iso8601 (toISOString t) = true.
Proof.
  intros H. unfold toISOString, two.
  pose proof (civil_bounds H) as B.
  destruct (civil_of_days (t / 86400000)) as [[y m] d].
  destruct B as (By & Bm & Bd).
  replace ((0 <=? y) && (y <=? 9999))%Z with true
    by (symmetry; apply andb_true_iff; split; apply Z.leb_le; lia).
  set (ms := (t mod 86400000)%Z).
  assert (0 <= ms < 86400000)%Z as Hms
    by (subst ms; apply Z.mod_pos_bound; lia).
  clearbody ms.
  destruct (digits_of (@digits_ok_4 y ltac:(lia))) as [Ly Dy].
  destruct (digits_of (@digits_ok_2 m ltac:(lia))) as [Lm Dm].
  destruct (digits_of (@digits_ok_2 d ltac:(lia))) as [Ld Dd].
  destruct (digits_of (@digits_ok_2 (ms / 3600000)
                         ltac:(Z.div_mod_to_equations; lia))) as [Lh Dh].
  destruct (digits_of (@digits_ok_2 ((ms / 60000) mod 60)
                         ltac:(Z.div_mod_to_equations; lia))) as [Ln Dn].
  destruct (digits_of (@digits_ok_2 ((ms / 1000) mod 60)
                         ltac:(Z.div_mod_to_equations; lia))) as [Ls Ds].
  destruct (digits_of (@digits_ok_3 (ms mod 1000)
                         ltac:(Z.div_mod_to_equations; lia))) as [Lf Df].
  destruct (pad_left 4 (Z_to_str y)) as [|y1 [|y2 [|y3 [|y4 [|]]]]];
    try discriminate.
  destruct (pad_left 2 (Z_to_str m)) as [|m1 [|m2 [|]]]; try discriminate.
  destruct (pad_left 2 (Z_to_str d)) as [|d1 [|d2 [|]]]; try discriminate.
  destruct (pad_left 2 (Z_to_str (ms / 3600000))) as [|h1 [|h2 [|]]];
    try discriminate.
  destruct (pad_left 2 (Z_to_str ((ms / 60000) mod 60))) as [|n1 [|n2 [|]]];
    try discriminate.
  destruct (pad_left 2 (Z_to_str ((ms / 1000) mod 60))) as [|s1 [|s2 [|]]];
    try discriminate.
  destruct (pad_left 3 (Z_to_str (ms mod 1000))) as [|f1 [|f2 [|f3 [|]]]];
    try discriminate.
  now apply iso_assemble.
Qed.

(** C7, amended. A save that returns an identifier other than -1 has put
    the blob under the sanitized name with exactly two metadata fields:
    [cachekey], the primary key as the caller gave it, and [createdat], the
    time of the call as [toISOString] prints it (of the ISO 8601 shape
    within the years 0 to 9999); whoever resolves that blob by prefix is
    told the key it was saved with.  The key of a candidate resolved by
    prefix is its [cachekey] metadata when that is present and not empty,
    and the object name when the metadata is absent or empty. *)
Theorem cache_key_in_metadata (cachePaths : list jsstring)
  (primaryKey : jsstring) (w : World) :
  (forall id,
      fst (saveCache cachePaths primaryKey w) = Returned id ->
      id <> (-1)%Z ->
      exists b,
        blobs (snd (saveCache cachePaths primaryKey w)) = store_put b (blobs w)
        /\ name b = sanitizeBlobName primaryKey
        /\ metadata b
           = Some [(CACHE_KEY_METADATA, primaryKey);
                   (CREATED_AT_METADATA, toISOString (clock (env w)))]
        /\ ((0 <= clock (env w) < 253402300800000)%Z ->
            is_iso8601 (toISOString (clock (env w))) = true)
        /\ (forall b', name b' = name b ->
                       original_key (properties_of (store_put b (blobs w)) b')
                                    b'
                       = primaryKey))
  /\ (forall requested before p after,
         faults w = [] ->
         stored (sanitizeBlobName requested) (blobs w) = false ->
         (forall q, In q before ->
                    listed (sanitizeBlobName q) (blobs w) = []) ->
         listed (sanitizeBlobName p) (blobs w) <> [] ->
         exists b,
           In b (listed (sanitizeBlobName p) (blobs w))
           /\ fst (findMatchingBlob requested (before ++ p :: after) w)
              = Returned
                  (Some {| cacheKey :=
                             original_key (properties_of (blobs w) b) b;
                           blobName := name b |})
           /\ (forall md k,
                  metadata (properties_of (blobs w) b) = Some md ->
                  meta_get CACHE_KEY_METADATA md = Some k ->
                  k <> [] ->
                  original_key (properties_of (blobs w) b) b = k)
           /\ (metadata (properties_of (blobs w) b) = None ->
               original_key (properties_of (blobs w) b) b = name b)
           /\ (forall md,
                  metadata (properties_of (blobs w) b) = Some md ->
                  meta_get CACHE_KEY_METADATA md = None
                  \/ meta_get CACHE_KEY_METADATA md = Some [] ->
                  original_key (properties_of (blobs w) b) b = name b)).
Proof.
  split.
  - intros id R N.
    destruct (saveCache_result cachePaths primaryKey w)
      as [_ [[R' _]|(_ & _ & bytes & B)]]; [congruence|].
    exists (saved_blob w primaryKey bytes).
    split; [exact B|]. split; [reflexivity|]. split; [reflexivity|].
    split; [apply toISOString_shape|].
    intros b' Hb'. now apply saved_key_recovered.
  - intros requested before p after F S Hb Hp.
    destruct (fallback_choice w requested before p after F S Hb Hp)
      as (l1 & b & l2 & El & _ & _ & R & _).
    exists b. split; [rewrite El; apply in_elt|]. split; [exact R|].
    apply original_key_cases.
Qed.

Lemma cache_key_in_metadata_witness :
  fst (saveCache [str "build/"] (str "linux-v1") fresh)
  = Returned 1700000000123%Z
  /\ (exists b,
         blobs (snd (saveCache [str "build/"] (str "linux-v1") fresh))
         = store_put b (blobs fresh)
         /\ metadata b
            = Some [(CACHE_KEY_METADATA, str "linux-v1");
                    (CREATED_AT_METADATA, toISOString (clock (env fresh)))])
  /\ (exists b,
         fst (findMatchingBlob (str "linux-v2") ([] ++ str "linux-" :: [])
                (snd (saveCache [str "build/"] (str "linux-v1") fresh)))
         = Returned
             (Some {| cacheKey :=
                        original_key
                          (properties_of
                             (blobs (snd (saveCache [str "build/"]
                                            (str "linux-v1") fresh))) b) b;
                      blobName := name b |})).
Proof.
  assert (fst (saveCache [str "build/"] (str "linux-v1") fresh)
          = Returned 1700000000123%Z) as R by (vm_compute; reflexivity).
  split; [exact R|].
  destruct (cache_key_in_metadata [str "build/"] (str "linux-v1") fresh)
    as [T _].
  destruct (T _ R ltac:(discriminate)) as (b & B & _ & M & _).
  split; [exists b; split; [exact B|exact M]|].
  destruct (cache_key_in_metadata [str "build/"] (str "linux-v1")
              (snd (saveCache [str "build/"] (str "linux-v1") fresh)))
    as [_ U].
  destruct (U (str "linux-v2") [] (str "linux-") [])
    as (b' & _ & Q & _).
  - vm_compute. reflexivity.
  - vm_compute. reflexivity.
  - intros q [].
  - vm_compute. discriminate.
  - exists b'. exact Q.
Defined.

(** The scenarios of the specification: a save into an empty container
    leaves one blob named after the key with [cachekey] the key, and a
    restore by prefix is told that key. *)
Example save_then_resolve_by_prefix :
  blobs (snd (saveCache [str "build/"] (str "linux-v1") fresh))
  = [{| name := str "linux-v1";
        metadata := Some [(str "cachekey", str "linux-v1");
                          (str "createdat", str "2023-11-14T22:13:20.123Z")];
        lastModified := Some 1700000000123%Z;
        body := [] |}]
  /\ fst (restoreCache [str "build/"] (str "linux-v2") [str "linux-"] None
            (snd (saveCache [str "build/"] (str "linux-v1") fresh)))
     = Returned (Some (str "linux-v1")).
Proof. split; vm_compute; reflexivity. Qed.

(** ** The manifest *)

(** C8: where the code departs from the claim.  tar exits with status 2:
    [exec.exec] rejects, so [createArchive] throws (with the error of the
    library; its own check of the status, which throws as well, comes
    after), the manifest it wrote is still in the archive folder, and no
    removal was attempted. *)
Theorem manifest_left_on_tar_failure :
  fst (createArchive (str "/tmp/azure-cache-1") [str "build/"]
         {| compressionMethod := gzip |} tar_fails)
  = Thrown (str "The process '/usr/bin/tar' failed with exit code 2")
  /\ file_get (manifest_path (str "/tmp/azure-cache-1"))
       (files (snd (createArchive (str "/tmp/azure-cache-1") [str "build/"]
                      {| compressionMethod := gzip |} tar_fails)))
     = Some (utf8 (str "build"))
  /\ existsb is_unlink
       (calls (snd (createArchive (str "/tmp/azure-cache-1") [str "build/"]
                      {| compressionMethod := gzip |} tar_fails)))
     = false.
Proof. repeat split; vm_compute; reflexivity. Qed.

(** When tar exits with status 0 the manifest is removed before the
    archive path is returned. *)
Example manifest_removed_on_success :
  fst (createArchive (str "/tmp/azure-cache-1") [str "build/"]
         {| compressionMethod := gzip |} fresh)
  = Returned (str "/tmp/azure-cache-1/cache.tar.gz")
  /\ file_get (manifest_path (str "/tmp/azure-cache-1"))
       (files (snd (createArchive (str "/tmp/azure-cache-1") [str "build/"]
                      {| compressionMethod := gzip |} fresh)))
     = None.
Proof. split; vm_compute; reflexivity. Qed.

(** In [saveCache] the manifest left by a failed tar goes with the
    temporary directory, which is removed in the [finally] block. *)
Example manifest_gone_with_temp_directory :
  fst (saveCache [str "build/"] (str "linux-v1") tar_fails) = Returned (-1)%Z
  /\ files (snd (saveCache [str "build/"] (str "linux-v1") tar_fails)) = [].
Proof. split; vm_compute; reflexivity. Qed.

Lemma path_join_same_start (a : jsstring) :
  exists t, forall b, one_segment b = true -> path_join a b = t ++ b.
Proof. exists (dir_of a). intros b. apply path_join_segment. Qed.

Lemma manifest_is_not_archive (d : jsstring) (m : CompressionMethod) :
  jseq (archive_path d m) (manifest_path d) = false
  /\ jseq (manifest_path d) (archive_path d m) = false.
Proof.
  unfold archive_path, manifest_path.
  destruct (path_join_same_start d) as [t E].
  rewrite (E _ (archive_name_segment m)), (E (str "manifest.txt") eq_refl).
  rewrite !jseq_app_same. now destruct m.
Qed.

Lemma tar_creates (m : CompressionMethod) (a r mp : jsstring)
  (bytes : list N) (fs : list (jsstring * list N)) :
  tar_writes (create_args m a r mp) bytes fs = file_put a bytes fs.
Proof. now destruct m. Qed.

Lemma manifest_survives_tar (d text : jsstring) (m : CompressionMethod)
  (bytes : list N) (fs : list (jsstring * list N)) :
  file_get (manifest_path d)
    (file_put (archive_path d m) bytes
       (file_put (manifest_path d) (utf8 text) fs))
  = Some (utf8 text).
Proof.
  destruct (manifest_is_not_archive d m) as [E1 E2].
  unfold file_put, file_remove. cbn [file_get filter fst].
  rewrite E1, E2. cbn [negb file_get]. now rewrite jseq_refl.
Qed.

(** Without a failure of the calls themselves, a tar that exits with a
    status other than 0 makes [createArchive] throw with the manifest
    still where it was written: the removal comes after the run of tar. *)
Lemma createArchive_tar_failure (d : jsstring) (ps : list jsstring)
  (o : ArchiveOptions) (w : World) (tp : jsstring) (code : Z)
  (bytes : list N) (rest : list (Z * list N)) :
  faults w = [] ->
  tar_on_path (env w) = Some tp ->
  tar_runs w = (code, bytes) :: rest ->
  code <> 0%Z ->
  fst (createArchive d ps o w) = Thrown (exec_failed tp code)
  /\ file_get (manifest_path d) (files (snd (createArchive d ps o w)))
     = Some (utf8 (manifest_content (cwd (env w))
                     (or_else (GITHUB_WORKSPACE (env w)) (cwd (env w))) ps)).
Proof.
  destruct w as [en bs fs ds fl tr cs lg].
  cbn [faults env tar_runs]. intros -> T -> N.
  apply Z.eqb_neq in N.
  unfold createArchive, getTarPath, io_which, workspace_root, fs_writeFile,
    exec_exec, try_catch, debug, core_log, bind, outside, get, modify, ret,
    throw.
  repeat
    (cbn [fst snd hd tl env blobs files dirs faults tar_runs calls log
          set_blobs set_files set_dirs set_faults set_tar_runs set_calls
          set_log negb];
     first
       [ rewrite T | rewrite N | rewrite tar_creates
       | rewrite manifest_survives_tar
       | match goal with
         | |- context [jseq (platform en) ?s] =>
             destruct (jseq (platform en) s)
         | |- context [match tp with [] => _ | _ :: _ => _ end] =>
             destruct tp
         end ]);
    split; reflexivity.
Qed.

(** ** The archive that is created *)

(** What [createArchive] returns is the archive it named, whose
    extension is that of the compression method. *)
Lemma createArchive_returns (d : jsstring) (ps : list jsstring)
  (o : ArchiveOptions) (w : World) (p : jsstring) (w' : World) :
  createArchive d ps o w = (Returned p, w') ->
  p = archive_path d (compressionMethod o).
Proof.
  unfold createArchive. intros E.
  apply bind_returned in E as (tarPath & w1 & _ & E).
  apply bind_returned in E as (root & w2 & _ & E).
  apply bind_returned in E as (text & w2' & _ & E).
  apply bind_returned in E as ([] & w3 & _ & E).
  apply bind_returned in E as ([] & w4 & _ & E).
  apply bind_returned in E as (code & w5 & _ & E).
  destruct (negb (code =? 0)%Z); [discriminate|].
  apply bind_returned in E as ([] & w6 & _ & E).
  now injection E as <- _.
Qed.

Lemma archive_path_end (d : jsstring) (m : CompressionMethod) :
  endsWith (archive_path d m) (getArchiveExtension m) = true.
Proof.
  unfold archive_path, getArchiveExtension.
  destruct (@path_join_end d _ (archive_name_segment m)) as [t ->].
  apply endsWith_iff. exists (t ++ str "cache"). now rewrite <- app_assoc.
Qed.

(** C10. Detection inverts the assignment of extensions: on every archive
    path that ends with the extension of a compression method,
    [detectCompressionMethod] answers that method; the path that
    [createArchive] returns for a method is such a path. *)
Theorem detect_inverts_extension (m : CompressionMethod) :
  (forall archivePath,
      endsWith archivePath (getArchiveExtension m) = true ->
      detectCompressionMethod archivePath = m)
  /\ (forall archiveFolder cachePaths w p w',
         createArchive archiveFolder cachePaths {| compressionMethod := m |} w
         = (Returned p, w') ->
         endsWith p (getArchiveExtension m) = true
         /\ detectCompressionMethod p = m).
Proof.
  split.
  - intros archivePath H. apply endsWith_iff in H as [t ->].
    apply detect_known_end.
  - intros archiveFolder cachePaths w p w' E.
    apply createArchive_returns in E as ->. cbn [compressionMethod].
    split; [apply archive_path_end|apply detect_archive_path].
Qed.

Lemma detect_inverts_extension_witness :
  endsWith (str "/tmp/azure-cache-1/cache.tar.zst") (getArchiveExtension zstd)
  = true
  /\ detectCompressionMethod (str "/tmp/azure-cache-1/cache.tar.zst") = zstd
  /\ fst (createArchive (str "/tmp/azure-cache-1") [str "build/"]
            {| compressionMethod := gzip |} fresh)
     = Returned (str "/tmp/azure-cache-1/cache.tar.gz")
  /\ detectCompressionMethod (str "/tmp/azure-cache-1/cache.tar.gz") = gzip.
Proof.
  split; [reflexivity|].
  split.
  - apply (proj1 (detect_inverts_extension zstd)). reflexivity.
  - destruct (createArchive (str "/tmp/azure-cache-1") [str "build/"]
                {| compressionMethod := gzip |} fresh) as [r w'] eqn:E.
    assert (r = Returned (str "/tmp/azure-cache-1/cache.tar.gz")) as ->
      by (apply (f_equal fst) in E; vm_compute in E; now symmetry).
    split; [reflexivity|].
    apply (proj2 (detect_inverts_extension gzip) _ _ _ _ _ E).
Defined.

(** * Further properties of the code *)

(** ** Blob names, continued *)

Lemma forallb_and {A} (f g : A -> bool) (l : list A) :
  forallb (fun x => f x && g x) l = forallb f l && forallb g l.
Proof.
  induction l as [|x l IH]; cbn [forallb]; [reflexivity|].
  rewrite IH. destruct (f x), (g x), (forallb f l); reflexivity.
Qed.

Lemma forallb_imp {A} (f g : A -> bool) (l : list A) :
  (forall x, f x = true -> g x = true) ->
  forallb f l = true -> forallb g l = true.
Proof.
  intros H. induction l as [|x l IH]; cbn [forallb]; [reflexivity|].
  intros E. apply andb_true_iff in E as [E1 E2].
  now rewrite (H x E1), IH.
Qed.

(** One replacement keeps what holds of every character and of "_". *)
Lemma replace_char_forallb (P : code_unit -> bool) (c : code_unit)
  (s : jsstring) :
  P 95%N = true ->
  (forall x, In x s -> N.eqb x c = false -> P x = true) ->
  forallb P (replace_char c (str "_") s) = true.
Proof.
  intros Hu. unfold replace_char.
  induction s as [|x s IH]; intros H; cbn [flat_map]; [reflexivity|].
  rewrite forallb_app, IH by (intros y Hy; apply H; now right).
  rewrite andb_true_r.
  destruct (N.eqb x c) eqn:E.
  - change (str "_") with [95%N]. cbn [forallb]. now rewrite Hu.
  - cbn [forallb]. rewrite (H x (or_introl eq_refl) E). reflexivity.
Qed.

Lemma replace_space_runs_forallb (P : code_unit -> bool) (s : jsstring) :
  P 95%N = true ->
  forall b,
    (forall x, In x s -> is_space x = false -> P x = true) ->
    forallb P (replace_space_runs (str "_") b s) = true.
Proof.
  intros Hu. induction s as [|x s IH]; intros b H;
    cbn [replace_space_runs]; [reflexivity|].
  destruct (is_space x) eqn:E.
  - rewrite forallb_app, IH by (intros y Hy; apply H; now right).
    rewrite andb_true_r. destruct b; [reflexivity|].
    change (str "_") with [95%N]. cbn [forallb]. now rewrite Hu.
  - cbn [forallb].
    rewrite (H x (or_introl eq_refl) E), IH
      by (intros y Hy; apply H; now right).
    reflexivity.
Qed.

Lemma forallb_In {A} (P : A -> bool) (l : list A) (x : A) :
  forallb P l = true -> In x l -> P x = true.
Proof. intros H. now apply forallb_forall. Qed.

Lemma sanitized_chars_legal (key : jsstring) :
  legal_name (sanitized_chars key) = true.
Proof.
  unfold legal_name, sanitized_chars.
  set (s1 := replace_char 92%N (str "_") key).
  set (s2 := replace_char 63%N (str "_") s1).
  set (s3 := replace_char 35%N (str "_") s2).
  assert (forallb (fun x => negb (x =? 92)%N) s1 = true) as H1.
  { apply replace_char_forallb; [reflexivity|]. now intros x _ ->. }
  assert (forallb (fun x => negb (x =? 92)%N && negb (x =? 63)%N) s2 = true)
    as H2.
  { apply replace_char_forallb; [reflexivity|].
    intros x Hx ->. now rewrite (forallb_In _ _ _ H1 Hx). }
  assert (forallb (fun x => negb (x =? 92)%N && negb (x =? 63)%N
                            && negb (x =? 35)%N) s3 = true) as H3.
  { apply replace_char_forallb; [reflexivity|].
    intros x Hx ->. now rewrite (forallb_In _ _ _ H2 Hx). }
  apply replace_space_runs_forallb; [reflexivity|].
  intros x Hx E. unfold illegal. rewrite E.
  pose proof (forallb_In _ _ _ H3 Hx) as H. cbv beta in H.
  destruct (x =? 92)%N, (x =? 63)%N, (x =? 35)%N; try discriminate.
  reflexivity.
Qed.

Lemma hex_is_legal (c : code_unit) : is_hex c = true -> illegal c = false.
Proof.
  unfold is_hex. intros H. apply orb_true_iff in H.
  assert ((48 <= c <= 57) \/ (97 <= c <= 102))%N as B.
  { destruct H as [H|H]; apply andb_true_iff in H as [H1 H2];
      apply N.leb_le in H1, H2; [left|right]; now split. }
  unfold illegal, is_space.
  rewrite (proj2 (N.eqb_neq c 92)), (proj2 (N.eqb_neq c 63)),
    (proj2 (N.eqb_neq c 35)), (proj2 (N.eqb_neq c 32)),
    (proj2 (N.eqb_neq c 160)), (proj2 (N.eqb_neq c 5760)),
    (proj2 (N.eqb_neq c 8232)), (proj2 (N.eqb_neq c 8233)),
    (proj2 (N.eqb_neq c 8239)), (proj2 (N.eqb_neq c 8287)),
    (proj2 (N.eqb_neq c 12288)), (proj2 (N.eqb_neq c 65279)) by lia.
  rewrite (proj2 (N.leb_gt c 13)), (proj2 (N.leb_gt 8192 c)) by lia.
  now rewrite andb_false_r.
Qed.

Lemma sanitizeBlobName_legal (key : jsstring) :
  legal_name (sanitizeBlobName key) = true.
Proof.
  unfold sanitizeBlobName.
  destruct (MAX_BLOB_NAME_LENGTH <? length (sanitized_chars key))%nat;
    [|apply sanitized_chars_legal].
  unfold legal_name. rewrite !substring_0, !forallb_app.
  rewrite (forallb_firstn _ _ _ (sanitized_chars_legal key)).
  change (forallb (fun c => negb (illegal c)) (str "_")) with true.
  cbn [andb]. apply forallb_firstn.
  apply (forallb_imp is_hex); [|apply sha256_hex_is_hex].
  intros c H. now rewrite (hex_is_legal c H).
Qed.

(** X1. No blob name holds a backslash, a question mark, a hash sign or
    white space, whatever the key: neither the short names nor the cut
    ones with their digest. *)
Theorem blob_name_is_legal (key : jsstring) :
  forall c, In c (sanitizeBlobName key) ->
            c <> 92%N /\ c <> 63%N /\ c <> 35%N /\ is_space c = false.
Proof.
  intros c H.
  pose proof (forallb_In _ _ _ (sanitizeBlobName_legal key) H) as L.
  cbv beta in L. unfold illegal in L.
  destruct (N.eqb_spec c 92), (N.eqb_spec c 63), (N.eqb_spec c 35),
    (is_space c); try discriminate.
  auto.
Qed.

Lemma blob_name_is_legal_witness :
  In 95%N (sanitizeBlobName (str "a b"))
  /\ 95%N <> 92%N /\ is_space 95%N = false.
Proof.
  assert (In 95%N (sanitizeBlobName (str "a b"))) as H
    by (vm_compute; right; left; reflexivity).
  split; [exact H|].
  destruct (blob_name_is_legal (str "a b") 95%N H) as (A & _ & _ & B).
  now split.
Defined.

Lemma replace_char_clean (c : code_unit) (rep s : jsstring) :
  forallb (fun x => negb (N.eqb x c)) s = true -> replace_char c rep s = s.
Proof.
  unfold replace_char. induction s as [|x s IH]; cbn [forallb flat_map];
    [reflexivity|].
  intros H. apply andb_true_iff in H as [H1 H2].
  apply negb_true_iff in H1. rewrite H1, IH by assumption. reflexivity.
Qed.

Lemma replace_space_runs_clean (rep s : jsstring) :
  forall b, forallb (fun x => negb (is_space x)) s = true ->
            replace_space_runs rep b s = s.
Proof.
  induction s as [|x s IH]; intros b; cbn [forallb replace_space_runs];
    [reflexivity|].
  intros H. apply andb_true_iff in H as [H1 H2].
  apply negb_true_iff in H1. rewrite H1, IH by assumption. reflexivity.
Qed.

Lemma sanitized_chars_clean (s : jsstring) :
  legal_name s = true -> sanitized_chars s = s.
Proof.
  unfold legal_name, sanitized_chars. intros H.
  assert (forall P, (forall x, illegal x = false -> P x = true) ->
                    forallb P s = true) as A.
  { intros P HP. apply (forallb_imp _ _ _ (fun x E => HP x (proj1 (negb_true_iff _) E)) H). }
  assert (forall x, illegal x = false ->
                    (x =? 92)%N = false /\ (x =? 63)%N = false
                    /\ (x =? 35)%N = false /\ is_space x = false) as I.
  { intros x E. unfold illegal in E.
    destruct (x =? 92)%N, (x =? 63)%N, (x =? 35)%N, (is_space x);
      try discriminate. auto. }
  rewrite (replace_char_clean 92%N (str "_") s)
    by (apply A; intros x E; now rewrite (proj1 (I x E))).
  rewrite (replace_char_clean 63%N (str "_") s)
    by (apply A; intros x E; now rewrite (proj1 (proj2 (I x E)))).
  rewrite (replace_char_clean 35%N (str "_") s)
    by (apply A; intros x E; now rewrite (proj1 (proj2 (proj2 (I x E))))).
  apply replace_space_runs_clean.
  apply A; intros x E; now rewrite (proj2 (proj2 (proj2 (I x E)))).
Qed.

Lemma sanitizeBlobName_clean (key : jsstring) :
  legal_name key = true ->
  (length key <= MAX_BLOB_NAME_LENGTH)%nat ->
  sanitizeBlobName key = key.
Proof.
  intros L B. unfold sanitizeBlobName.
  rewrite (sanitized_chars_clean key L).
  apply Nat.ltb_ge in B. now rewrite B.
Qed.

(** X2. A key that is already a legal name, of a legal length, is its own
    blob name: sanitizing turns no character of it and adds no digest. *)
Theorem clean_key_is_its_own_name (key : jsstring) :
  legal_name key = true ->
  (length key <= MAX_BLOB_NAME_LENGTH)%nat ->
  sanitizeBlobName key = key.
Proof. apply sanitizeBlobName_clean. Qed.

Lemma clean_key_is_its_own_name_witness :
  legal_name (str "Linux-node-18-a1b2c3/deps.v2") = true
  /\ sanitizeBlobName (str "Linux-node-18-a1b2c3/deps.v2")
     = str "Linux-node-18-a1b2c3/deps.v2".
Proof.
  split; [reflexivity|].
  apply (clean_key_is_its_own_name (str "Linux-node-18-a1b2c3/deps.v2"));
    [reflexivity|].
  apply Nat.leb_le. reflexivity.
Defined.

(** X3. Sanitizing is idempotent on every key: a blob name is its own blob
    name, so a name read back from a listing can be used as a key for the
    same blob. *)
Theorem sanitize_twice (key : jsstring) :
  sanitizeBlobName (sanitizeBlobName key) = sanitizeBlobName key.
Proof.
  apply sanitizeBlobName_clean;
    [apply sanitizeBlobName_legal|apply sanitizeBlobName_length].
Qed.

Lemma replace_char_length (c : code_unit) (s : jsstring) :
  length (replace_char c (str "_") s) = length s.
Proof.
  unfold replace_char. induction s as [|x s IH]; cbn [flat_map];
    [reflexivity|].
  rewrite length_app, IH. now destruct (N.eqb x c).
Qed.

Lemma replace_space_runs_length (s : jsstring) :
  forall b, (length (replace_space_runs (str "_") b s) <= length s)%nat.
Proof.
  induction s as [|x s IH]; intros b; cbn [replace_space_runs];
    [constructor|].
  destruct (is_space x).
  - rewrite length_app. specialize (IH true). cbn [length].
    destruct b; cbn [length]; change (length (str "_")) with 1%nat; lia.
  - cbn [length]. specialize (IH false). lia.
Qed.

Lemma sanitized_chars_length (key : jsstring) :
  (length (sanitized_chars key) <= length key)%nat.
Proof.
  unfold sanitized_chars.
  etransitivity; [apply replace_space_runs_length|].
  now rewrite !replace_char_length.
Qed.

(** X4. A blob name is never longer than its key: characters are replaced
    one for one, runs of white space shrink to one underscore, and a name
    is cut only when the sanitized form is longer than 1024. *)
Theorem blob_name_not_longer (key : jsstring) :
  (length (sanitizeBlobName key) <= length key)%nat
  /\ (length (sanitized_chars key) <= MAX_BLOB_NAME_LENGTH ->
      sanitizeBlobName key = sanitized_chars key)%nat.
Proof.
  pose proof (sanitized_chars_length key) as L. split.
  - pose proof (sanitizeBlobName_length key) as B.
    unfold sanitizeBlobName in *.
    destruct (Nat.ltb_spec MAX_BLOB_NAME_LENGTH (length (sanitized_chars key)));
      lia.
  - intros H. unfold sanitizeBlobName. apply Nat.ltb_ge in H. now rewrite H.
Qed.

Lemma blob_name_not_longer_witness :
  (length (sanitized_chars (str "a  b\c")) <= MAX_BLOB_NAME_LENGTH)%nat
  /\ sanitizeBlobName (str "a  b\c") = str "a_b_c".
Proof.
  assert (length (sanitized_chars (str "a  b\c")) <= MAX_BLOB_NAME_LENGTH)%nat
    as H by (apply Nat.leb_le; reflexivity).
  split; [exact H|].
  rewrite (proj2 (blob_name_not_longer (str "a  b\c")) H). reflexivity.
Defined.

(** ** The container under restore and save *)

Lemma asked_is_store {A} (m : M A) : keeps asked_only m -> keeps same_store m.
Proof. intros K w. destruct (K w) as (E & B & _). now split. Qed.

Lemma store_find (primaryKey : jsstring) (restoreKeys : list jsstring) :
  keeps same_store (findMatchingBlob primaryKey restoreKeys).
Proof. apply asked_is_store, asked_find. Qed.

Lemma store_download (n p : jsstring) : keeps same_store (downloadBlob n p).
Proof.
  unfold downloadBlob, blob_download, pipe_to_file, info. store_steps.
Qed.

Lemma store_extract (p : jsstring) (o : ArchiveOptions) :
  keeps same_store (extractArchive p o).
Proof. unfold extractArchive, workspace_root, debug. store_steps. Qed.

#[local] Hint Resolve store_find store_download store_extract : keeps.

Lemma store_restore (cachePaths : list jsstring) (primaryKey : jsstring)
  (restoreKeys : list jsstring) (options : option CacheRestoreOptions) :
  keeps same_store (restoreCache cachePaths primaryKey restoreKeys options).
Proof.
  unfold restoreCache, restoreCache_try, info, warning. store_steps.
Qed.

(** X5. [restoreCache] never writes to the container: after the call, hit
    or miss, lookup or full restore, and whatever failed on the way, the
    container holds the blobs it held. *)
Theorem restore_leaves_container (cachePaths : list jsstring)
  (primaryKey : jsstring) (restoreKeys : list jsstring)
  (options : option CacheRestoreOptions) (w : World) :
  blobs (snd (restoreCache cachePaths primaryKey restoreKeys options w))
  = blobs w.
Proof. apply store_restore. Qed.

Lemma store_put_others (b : BlobItem) (bs : list BlobItem) :
  filter (fun x => negb (named (name b) x)) (store_put b bs)
  = filter (fun x => negb (named (name b) x)) bs.
Proof.
  induction bs as [|b' bs IH]; cbn [store_put filter].
  - now rewrite named_name.
  - destruct (named (name b) b') eqn:E; cbn [filter negb].
    + now rewrite named_name.
    + now rewrite E, IH.
Qed.

(** X6. [saveCache] touches the container under one name only: the blobs
    whose name is not the sanitized key are after the call the blobs they
    were before it, in the same order, in every world. *)
Theorem save_leaves_other_blobs (cachePaths : list jsstring)
  (primaryKey : jsstring) (w : World) :
  filter (fun x => negb (named (sanitizeBlobName primaryKey) x))
         (blobs (snd (saveCache cachePaths primaryKey w)))
  = filter (fun x => negb (named (sanitizeBlobName primaryKey) x)) (blobs w).
Proof.
  destruct (saveCache_result cachePaths primaryKey w)
    as [_ [[_ B]|(_ & _ & bytes & B)]]; rewrite B; [reflexivity|].
  apply (store_put_others (saved_blob w primaryKey bytes)).
Qed.

(** ** What a restore reports *)

Lemma bind_thrown {A B} (m : M A) (k : A -> M B) w e w1 :
  m w = (Thrown e, w1) -> bind m k w = (Thrown e, w1).
Proof. unfold bind. now intros ->. Qed.

(** [restoreCache] by the outcome of its resolution. *)
Lemma restore_after_resolution (cachePaths : list jsstring)
  (primaryKey : jsstring) (restoreKeys : list jsstring)
  (options : option CacheRestoreOptions) (w : World) :
  (forall e w1,
      resolution primaryKey restoreKeys w = (Thrown e, w1) ->
      restoreCache cachePaths primaryKey restoreKeys options w
      = (Returned None,
         set_log (log w1 ++ [(Warning,
                              str "Failed to restore cache: " ++ e)]) w1))
  /\ (forall w1,
         resolution primaryKey restoreKeys w = (Returned None, w1) ->
         restoreCache cachePaths primaryKey restoreKeys options w
         = (Returned None,
            set_log (log w1 ++ [(Info,
                                 str "No cache found matching the provided keys")])
                    w1)).
Proof.
  unfold resolution, restoreCache, try_catch, restoreCache_try. split.
  - intros e w1 H.
    apply (bind_cases settles_ensure) in H
      as [(e' & He & [= <-])|([] & w0 & He & Hf)].
    + now rewrite (bind_thrown _ _ _ He).
    + now rewrite (bind_run _ _ _ He), (bind_thrown _ _ _ Hf).
  - intros w1 H. apply bind_returned in H as ([] & w0 & He & Hf).
    now rewrite (bind_run _ _ _ He), (bind_run _ _ _ Hf).
Qed.

Lemma getProperties_answer (b : BlobItem) (w : World) (p : BlobItem)
  (w' : World) :
  getProperties (name b) w = (Returned p, w') ->
  p = properties_of (blobs w) b /\ blobs w' = blobs w.
Proof.
  unfold getProperties, properties_of, outside, bind, get.
  destruct (faults w) as [|[e|] rest]; cbn [blobs set_calls set_faults];
    try discriminate;
    destruct (find (named (name b)) (blobs w)); intros [= <- <-];
    now split.
Qed.

Lemma collect_full (listing : list BlobItem) :
  forall acc w ms w',
    collect_matches listing acc w = (Returned ms, w') ->
    ms = acc ++ map (candidate_of (blobs w)) listing.
Proof.
  induction listing as [|b listing IH]; intros acc w ms w';
    cbn [collect_matches map].
  - intros [= <- <-]. now rewrite app_nil_r.
  - intros E. apply bind_returned in E as (p & w1 & Ep & E).
    apply getProperties_answer in Ep as [-> B].
    apply IH in E. rewrite E, B, <- app_assoc. reflexivity.
Qed.

Lemma listBlobsFlat_answer (prefix : jsstring) (w : World)
  (l : list BlobItem) (w' : World) :
  listBlobsFlat prefix w = (Returned l, w') ->
  l = listed prefix (blobs w) /\ blobs w' = blobs w.
Proof.
  unfold listBlobsFlat, listed, outside, bind, get.
  destruct (faults w) as [|[e|] rest]; try discriminate;
    intros [= <- <-]; now split.
Qed.

(** In every world, a hit of the loop over the restore keys is the first
    of the most recent blobs listed under one of them. *)
Lemma scan_hit (restoreKeys : list jsstring) :
  forall w m w',
    scan_restore_keys restoreKeys w = (Returned (Some m), w') ->
    exists rk b,
      In rk restoreKeys
      /\ first_latest time_of (listed (sanitizeBlobName rk) (blobs w)) = Some b
      /\ m = match_of (blobs w) b.
Proof.
  induction restoreKeys as [|rk rest IH]; intros w m w';
    cbn [scan_restore_keys]; [discriminate|].
  intros E.
  apply bind_returned in E as (listing & w1 & El & E).
  apply listBlobsFlat_answer in El as [-> B1].
  apply bind_returned in E as (ms & w2 & Ec & E).
  pose proof (kept (asked_collect _ _) Ec) as (_ & B2 & _).
  apply collect_full in Ec. cbn [app] in Ec. subst ms.
  rewrite length_map in E.
  destruct (0 <? length (listed (sanitizeBlobName rk) (blobs w)))%nat.
  - pose proof (sort_head (map (candidate_of (blobs w1))
                             (listed (sanitizeBlobName rk) (blobs w)))) as S.
    rewrite first_latest_map in S. cbn [candidate_of blobItem] in S.
    change (fun a : BlobItem => time_of a) with time_of in S.
    destruct (array_sort by_recency _) as [|best rest']; [discriminate|].
    injection E as <- _. cbn [hd_error] in S.
    destruct (first_latest time_of (listed (sanitizeBlobName rk) (blobs w)))
      as [b|] eqn:F; [|discriminate].
    cbn [option_map] in S. injection S as ->.
    exists rk, b. split; [now left|]. split; [exact F|].
    unfold match_of. cbn [candidate_of candKey blobItem]. now rewrite B1.
  - destruct (IH _ _ _ E) as (rk' & b & I & F & ->).
    exists rk', b. rewrite <- B1, <- B2. split; [now right|]. now split.
Qed.

Lemma find_hit (primaryKey : jsstring) (restoreKeys : list jsstring)
  (w : World) (m : Match) (w' : World) :
  findMatchingBlob primaryKey restoreKeys w = (Returned (Some m), w') ->
  (stored (sanitizeBlobName primaryKey) (blobs w) = true
   /\ m = {| cacheKey := primaryKey;
             blobName := sanitizeBlobName primaryKey |})
  \/ (stored (sanitizeBlobName primaryKey) (blobs w) = false
      /\ exists rk b,
           In rk restoreKeys
           /\ first_latest time_of (listed (sanitizeBlobName rk) (blobs w))
              = Some b
           /\ m = match_of (blobs w) b).
Proof.
  unfold findMatchingBlob. intros E.
  apply bind_returned in E as (ex & w1 & Ex & E).
  pose proof (kept (store_exists _) Ex) as [_ B].
  pose proof (exists_answer _ _ Ex) as [[e [=]]|[= ->]].
  destruct (stored (sanitizeBlobName primaryKey) (blobs w)) eqn:S.
  - left. injection E as <- _. now split.
  - right. split; [reflexivity|]. rewrite <- B. eapply scan_hit, E.
Qed.

Lemma restore_hit (cachePaths : list jsstring) (primaryKey : jsstring)
  (restoreKeys : list jsstring) (options : option CacheRestoreOptions)
  (w : World) (k : jsstring) :
  fst (restoreCache cachePaths primaryKey restoreKeys options w)
  = Returned (Some k) ->
  exists m w1,
    resolution primaryKey restoreKeys w = (Returned (Some m), w1)
    /\ k = cacheKey m.
Proof.
  intros H.
  destruct (restore_after_resolution cachePaths primaryKey restoreKeys
              options w) as [T N].
  destruct (resolution primaryKey restoreKeys w) as [[[m|]|e|] w1] eqn:R.
  - exists m, w1. split; [reflexivity|].
    destruct (@restore_key_or_nothing cachePaths _ _ options _ _ _ R)
      as [E|[E|E]];
      rewrite E in H; congruence.
  - rewrite (N _ eq_refl) in H. discriminate.
  - rewrite (T _ _ eq_refl) in H. discriminate.
  - pose proof (settles_resolution primaryKey restoreKeys w) as S.
    rewrite R in S. now contradiction S.
Qed.

(** X7. [restoreCache] reports no hit that is not there.  In every world,
    a key it returns is the primary key with a blob stored under its
    sanitized name, or (no such blob being stored) the key of a stored blob
    whose name starts with the sanitized form of one of the restore keys. *)
Theorem restore_reports_stored_blob (cachePaths : list jsstring)
  (primaryKey : jsstring) (restoreKeys : list jsstring)
  (options : option CacheRestoreOptions) (w : World) (k : jsstring) :
  fst (restoreCache cachePaths primaryKey restoreKeys options w)
  = Returned (Some k) ->
  (k = primaryKey /\ stored (sanitizeBlobName primaryKey) (blobs w) = true)
  \/ (stored (sanitizeBlobName primaryKey) (blobs w) = false
      /\ exists rk b,
           In rk restoreKeys
           /\ In b (blobs w)
           /\ startsWith (name b) (sanitizeBlobName rk) = true
           /\ k = original_key (properties_of (blobs w) b) b).
Proof.
  intros H. apply restore_hit in H as (m & w1 & R & ->).
  unfold resolution in R. apply bind_returned in R as ([] & w0 & He & Hf).
  pose proof (kept store_ensure He) as [_ B]. rewrite <- B.
  apply find_hit in Hf as [[S ->]|(S & rk & b & I & F & ->)].
  - left. now split.
  - right. split; [exact S|]. exists rk, b. split; [exact I|].
    apply first_latest_in in F. unfold listed in F.
    apply filter_In in F as [F1 F2]. now repeat split.
Qed.

Lemma restore_reports_stored_blob_witness :
  fst (restoreCache [str "build/"] (str "linux-a9-77")
         [str "linux-a9-"; str "linux-"] None two_under_second_prefix)
  = Returned (Some (str "linux-a2"))
  /\ exists rk b,
       In rk [str "linux-a9-"; str "linux-"]
       /\ In b (blobs two_under_second_prefix)
       /\ startsWith (name b) (sanitizeBlobName rk) = true.
Proof.
  assert (fst (restoreCache [str "build/"] (str "linux-a9-77")
                 [str "linux-a9-"; str "linux-"] None two_under_second_prefix)
          = Returned (Some (str "linux-a2"))) as H
    by (vm_compute; reflexivity).
  split; [exact H|].
  destruct (restore_reports_stored_blob _ _ _ _ _ H)
    as [[_ S]|(_ & rk & b & I & J & P & _)].
  - vm_compute in S. discriminate.
  - now exists rk, b.
Defined.

Lemma ensure_quiet (w : World) :
  faults w = [] ->
  ensureContainerExists w
  = (Returned tt, set_calls (calls w ++ [CreateIfNotExists]) w).
Proof.
  intros F. unfold ensureContainerExists, createIfNotExists, try_catch.
  now rewrite (outside_quiet _ _ F).
Qed.

(** X8. A miss costs queries only.  When nothing fails, no blob is stored
    under the sanitized primary key and no restore key lists a blob,
    [restoreCache] returns [undefined] after the container check, the
    existence check and one listing per restore key, in their order; it
    makes no temporary directory and leaves the disk as it was, and says
    that no cache was found. *)
Theorem restore_miss (cachePaths : list jsstring) (primaryKey : jsstring)
  (restoreKeys : list jsstring) (options : option CacheRestoreOptions)
  (w : World) :
  faults w = [] ->
  stored (sanitizeBlobName primaryKey) (blobs w) = false ->
  (forall q, In q restoreKeys ->
             listed (sanitizeBlobName q) (blobs w) = []) ->
  restoreCache cachePaths primaryKey restoreKeys options w
  = (Returned None,
     set_log (log w ++ [(Info,
                         str "No cache found matching the provided keys")])
       (set_calls (calls w
                     ++ CreateIfNotExists
                     :: Exists (sanitizeBlobName primaryKey)
                     :: map ListBlobsFlat (map sanitizeBlobName restoreKeys))
                  w)).
Proof.
  intros F S H.
  destruct (restore_after_resolution cachePaths primaryKey restoreKeys
              options w) as [_ N].
  rewrite (N (set_calls (calls w
                           ++ CreateIfNotExists
                           :: Exists (sanitizeBlobName primaryKey)
                           :: map ListBlobsFlat
                                  (map sanitizeBlobName restoreKeys)) w)).
  - reflexivity.
  - unfold resolution. rewrite (bind_run _ _ _ (ensure_quiet w F)).
    rewrite fallback_nothing by assumption.
    cbn [calls set_calls]. rewrite <- app_assoc. reflexivity.
Qed.

Lemma restore_miss_witness :
  faults exact_and_prefix = []
  /\ stored (sanitizeBlobName (str "macos-v1")) (blobs exact_and_prefix)
     = false
  /\ fst (restoreCache [str "build/"] (str "macos-v1") [str "macos-"] None
            exact_and_prefix)
     = Returned None.
Proof.
  split; [reflexivity|]. split; [reflexivity|].
  rewrite (restore_miss [str "build/"] (str "macos-v1") [str "macos-"] None
             exact_and_prefix eq_refl eq_refl).
  - reflexivity.
  - intros q [<-|[]]. reflexivity.
Defined.

(** ** The temporary directory *)

Lemma in_passing_refl (w : World) : in_passing w w.
Proof.
  repeat split; [auto|]. exists []. now rewrite app_nil_r.
Qed.

Lemma in_passing_trans (a b c : World) :
  in_passing a b -> in_passing b c -> in_passing a c.
Proof.
  intros (E1 & D1 & F1 & n1 & C1 & Q1) (E2 & D2 & F2 & n2 & C2 & Q2).
  split; [congruence|]. split; [congruence|]. split; [auto|].
  exists (n1 ++ n2). unfold elsewhere in *.
  rewrite C2, C1, app_assoc, forallb_app, Q1, Q2. now split.
Qed.

Lemma passing_outside (c : Call) :
  on_directories c = false -> keeps in_passing (outside c).
Proof.
  intros Q w. unfold outside.
  destruct (faults w) as [|[e|] rest] eqn:F0; cbn [snd];
    (split; [reflexivity|]; split; [reflexivity|];
     split; [intros F; cbn [faults set_calls set_faults]; congruence|]);
    exists [c]; cbn; now rewrite Q.
Qed.

Lemma passing_unheard (c : Call) :
  on_directories c = false -> keeps in_passing (unheard c).
Proof.
  intros Q w. unfold unheard.
  destruct (faults w) as [|[e|] rest] eqn:F0; cbn [snd];
    (split; [reflexivity|]; split; [reflexivity|];
     split; [intros F; cbn [faults set_calls set_faults]; congruence|]);
    exists [c]; cbn; now rewrite Q.
Qed.

Lemma passing_modify (f : World -> World) :
  (forall w, env (f w) = env w /\ dirs (f w) = dirs w
             /\ faults (f w) = faults w /\ calls (f w) = calls w) ->
  keeps in_passing (modify f).
Proof.
  intros H w. destruct (H w) as (E & D & F & C). unfold modify. cbn [snd].
  split; [exact E|]. split; [exact D|]. split; [congruence|].
  exists []. now rewrite app_nil_r.
Qed.

Lemma passing_log (l : Level) (msg : jsstring) :
  keeps in_passing (core_log l msg).
Proof. apply passing_modify. intros w. now repeat split. Qed.

#[local] Hint Resolve passing_log : keeps.
#[local] Hint Extern 1 (keeps in_passing (outside _)) =>
  apply passing_outside; reflexivity : keeps.
#[local] Hint Extern 1 (keeps in_passing (unheard _)) =>
  apply passing_unheard; reflexivity : keeps.
#[local] Hint Extern 1 (keeps in_passing (modify _)) =>
  apply passing_modify; intros ?; repeat split; reflexivity : keeps.

Ltac passing_steps := repeat keeps_step in_passing_refl in_passing_trans.

Lemma passing_ensure : keeps in_passing ensureContainerExists.
Proof.
  unfold ensureContainerExists, createIfNotExists, debug. passing_steps.
Qed.

Lemma passing_exists (n : jsstring) : keeps in_passing (blob_exists n).
Proof. unfold blob_exists. passing_steps. Qed.

Lemma passing_collect (listing : list BlobItem) :
  forall acc, keeps in_passing (collect_matches listing acc).
Proof.
  induction listing as [|b listing IH]; intros acc; cbn [collect_matches].
  - passing_steps.
  - unfold getProperties. passing_steps.
Qed.

Lemma passing_scan (restoreKeys : list jsstring) :
  keeps in_passing (scan_restore_keys restoreKeys).
Proof.
  induction restoreKeys as [|rk rest IH]; cbn [scan_restore_keys].
  - passing_steps.
  - unfold listBlobsFlat.
    apply (keeps_bind in_passing_trans); [passing_steps|intros listing].
    apply (keeps_bind in_passing_trans); [apply passing_collect|intros ms].
    destruct (0 <? length ms)%nat; [|exact IH].
    destruct (array_sort by_recency ms); passing_steps.
Qed.

Lemma passing_find (primaryKey : jsstring) (restoreKeys : list jsstring) :
  keeps in_passing (findMatchingBlob primaryKey restoreKeys).
Proof.
  unfold findMatchingBlob.
  apply (keeps_bind in_passing_trans); [apply passing_exists|intros ex].
  destruct ex; [passing_steps|apply passing_scan].
Qed.

Lemma passing_getTarPath : keeps in_passing getTarPath.
Proof. unfold getTarPath, io_which. passing_steps. Qed.

#[local] Hint Resolve passing_ensure passing_exists passing_find
  passing_getTarPath : keeps.

Lemma passing_createArchive (d : jsstring) (ps : list jsstring)
  (o : ArchiveOptions) : keeps in_passing (createArchive d ps o).
Proof.
  unfold createArchive, workspace_root, fs_writeFile, exec_exec, fs_unlink,
    debug.
  passing_steps.
Qed.

Lemma passing_extract (p : jsstring) (o : ArchiveOptions) :
  keeps in_passing (extractArchive p o).
Proof. unfold extractArchive, workspace_root, exec_exec, debug. passing_steps. Qed.

Lemma passing_download (n p : jsstring) : keeps in_passing (downloadBlob n p).
Proof.
  unfold downloadBlob, blob_download, pipe_to_file, info. passing_steps.
Qed.

Lemma passing_stat (p : jsstring) : keeps in_passing (fs_stat_size p).
Proof. unfold fs_stat_size. passing_steps. Qed.

Lemma passing_upload (n p k : jsstring) : keeps in_passing (uploadBlob n p k).
Proof.
  unfold uploadBlob, uploadStream, fs_stat_size, info. passing_steps.
Qed.

#[local] Hint Resolve passing_createArchive passing_extract passing_download
  passing_stat passing_upload : keeps.

(** What [saveCache] and [restoreCache] do between the making of the
    directory and its removal. *)
Lemma passing_save_body (cachePaths : list jsstring) (primaryKey d : jsstring) :
  keeps in_passing
    (archivePath <- createArchive d cachePaths
                      {| compressionMethod := this_compressionMethod |} ;;
     size <- fs_stat_size archivePath ;;
     info (str "Archive created: " ++ megabytes size ++ str " MB") ;;
     uploadBlob (sanitizeBlobName primaryKey) archivePath primaryKey ;;
     info (str "Cache saved with key: " ++ primaryKey) ;;
     now <- get (fun w => clock (env w)) ;;
     ret now).
Proof. unfold info. passing_steps. Qed.

Lemma passing_restore_body (m : Match) (d : jsstring) :
  keeps in_passing
    (let archiveExtension := getArchiveExtension this_compressionMethod in
     let archivePath := path_join d (str "cache" ++ archiveExtension) in
     downloadBlob (blobName m) archivePath ;;
     extractArchive archivePath
       {| compressionMethod := this_compressionMethod |} ;;
     info (str "Cache restored from key: " ++ cacheKey m) ;;
     ret (Some (cacheKey m))).
Proof. cbv zeta. unfold info. passing_steps. Qed.

Lemma temp_made (w : World) :
  env (snd (createTempDirectory w)) = env w
  /\ calls (snd (createTempDirectory w))
     = calls w ++ [Mkdir (temp_dir (env w))]
  /\ ((exists e, fst (createTempDirectory w) = Thrown e)
      \/ fst (createTempDirectory w) = Returned (temp_dir (env w))).
Proof.
  unfold createTempDirectory, fs_mkdir, outside, bind, get, modify, ret,
    temp_dir.
  destruct (faults w) as [|[e|] rest]; cbn; repeat split; eauto.
Qed.

Lemma temp_removed (d : jsstring) (w : World) :
  env (snd (cleanupTempDirectory d w)) = env w
  /\ calls (snd (cleanupTempDirectory d w)) = calls w ++ [Rm d]
  /\ exists u, fst (cleanupTempDirectory d w) = Returned u.
Proof.
  unfold cleanupTempDirectory, try_catch, fs_rm, outside, bind, modify, debug,
    core_log.
  destruct (faults w) as [|[e|] rest]; cbn; repeat split; eauto.
Qed.

Lemma elsewhere_app (a b : list Call) :
  elsewhere (a ++ b) = elsewhere a && elsewhere b.
Proof. apply forallb_app. Qed.

Lemma stalls_settles {A} (p : jsstring) (m : M A) :
  settles m -> stalls_at p m.
Proof. intros S w U. now apply S in U. Qed.

Lemma stalls_unheard (p : jsstring) : stalls_at p (unheard (Pipe p)).
Proof.
  intros w _. exists []. unfold unheard.
  now destruct (faults w) as [|[e|] rest].
Qed.

Lemma stalls_bind {A B} (p : jsstring) (m : M A) (k : A -> M B) :
  keeps in_passing m -> stalls_at p m -> (forall a, stalls_at p (k a)) ->
  stalls_at p (bind m k).
Proof.
  intros Hm Sm Sk w. unfold bind.
  pose proof (Hm w) as (_ & _ & _ & n1 & C1 & _). specialize (Sm w).
  destruct (m w) as [[a|e|] w1]; cbn [fst snd] in *.
  - intros U. destruct (Sk a w1 U) as (du & C2). exists (n1 ++ du).
    now rewrite C2, C1, <- !app_assoc.
  - discriminate.
  - intros _. exact (Sm eq_refl).
Qed.

Lemma quietly_settles {A} (m : M A) : settles m -> settles_quietly m.
Proof. intros S w _. apply S. Qed.

Lemma quietly_unheard (c : Call) : settles_quietly (unheard c).
Proof. intros w F. unfold unheard. now rewrite F. Qed.

Lemma quietly_bind {A B} (m : M A) (k : A -> M B) :
  keeps in_passing m -> settles_quietly m ->
  (forall a, settles_quietly (k a)) ->
  settles_quietly (bind m k).
Proof.
  intros Hm Sm Sk w F. unfold bind.
  pose proof (Hm w) as (_ & _ & F1 & _). specialize (Sm w F).
  destruct (m w) as [[a|e|] w1]; cbn [fst snd] in *.
  - apply Sk. now apply F1.
  - discriminate.
  - now contradiction Sm.
Qed.

Lemma settles_blob_download (n : jsstring) : settles (blob_download n).
Proof. unfold blob_download. settles_steps. Qed.

(** The download never ends only at the piping of the body. *)
Lemma download_stalls (n p : jsstring) : stalls_at p (downloadBlob n p).
Proof.
  unfold downloadBlob, info.
  apply stalls_bind; [passing_steps|apply stalls_settles, settles_log|].
  intros _.
  apply stalls_bind;
    [unfold blob_download; passing_steps
    |apply stalls_settles, settles_blob_download|].
  intros [stream|]; [|apply stalls_settles, settles_throw].
  apply stalls_bind;
    [unfold pipe_to_file; passing_steps| |
     intros _; apply stalls_settles, settles_log].
  unfold pipe_to_file.
  apply stalls_bind;
    [passing_steps|apply stalls_settles, settles_outside|intros _].
  apply stalls_bind;
    [passing_steps|apply stalls_unheard|
     intros _; apply stalls_settles, settles_modify].
Qed.

Lemma download_settles_quietly (n p : jsstring) :
  settles_quietly (downloadBlob n p).
Proof.
  unfold downloadBlob, info.
  apply quietly_bind; [passing_steps|apply quietly_settles, settles_log|].
  intros _.
  apply quietly_bind;
    [unfold blob_download; passing_steps
    |apply quietly_settles, settles_blob_download|].
  intros [stream|]; [|apply quietly_settles, settles_throw].
  apply quietly_bind;
    [unfold pipe_to_file; passing_steps| |
     intros _; apply quietly_settles, settles_log].
  unfold pipe_to_file.
  apply quietly_bind;
    [passing_steps|apply quietly_settles, settles_outside|intros _].
  apply quietly_bind;
    [passing_steps|apply quietly_unheard|
     intros _; apply quietly_settles, settles_modify].
Qed.

Lemma settles_after_download (p : jsstring) (m : Match) :
  settles
    (extractArchive p {| compressionMethod := this_compressionMethod |} ;;
     info (str "Cache restored from key: " ++ cacheKey m) ;;
     ret (Some (cacheKey m))).
Proof. unfold info. settles_steps. Qed.

Lemma scoped_after (n : list Call) (d : jsstring) (new : list Call) :
  elsewhere n = true -> scoped d new -> scoped d (n ++ new).
Proof.
  intros Q [S|[(b & -> & S)|(b & du & -> & S1 & S2)]].
  - left. now rewrite elsewhere_app, Q, S.
  - right; left. exists (n ++ b).
    split; [now rewrite app_assoc|]. now rewrite elsewhere_app, Q, S.
  - right; right. exists (n ++ b), du.
    split; [now rewrite app_assoc|].
    split; [|exact S2]. now rewrite elsewhere_app, Q, S1.
Qed.

Lemma stalled_after (n : list Call) (d p : jsstring) (new : list Call) :
  elsewhere n = true -> stalled d p new -> stalled d p (n ++ new).
Proof.
  intros Q (b & du & -> & S1 & S2). exists (n ++ b), du.
  split; [now rewrite app_assoc|].
  split; [|exact S2]. now rewrite elsewhere_app, Q, S1.
Qed.

(** A directory made, a body that works in passing, and the removal; no
    removal when the body never settles. *)
Lemma tidy_scope {A} (body : jsstring -> M A) :
  (forall d, keeps in_passing (body d)) ->
  (forall d, stalls_at (path_join d (str "cache.tar.gz")) (body d)) ->
  tidily
    (tempDir <- createTempDirectory ;;
     try_finally (body tempDir) (cleanupTempDirectory tempDir)).
Proof.
  intros H S w. unfold tidy, bind.
  destruct (temp_made w) as (E1 & C1 & R).
  destruct (createTempDirectory w) as [r w1]. cbn [fst snd] in *.
  destruct R as [[e ->]| ->]; cbn [fst snd].
  - split; [exact E1|]. exists [Mkdir (temp_dir (env w))].
    split; [exact C1|]. right; left. exists []. now split.
  - unfold try_finally.
    pose proof (H (temp_dir (env w)) w1) as (E2 & _ & _ & during & C2 & Q).
    pose proof (S (temp_dir (env w)) w1) as St.
    destruct (body (temp_dir (env w)) w1) as [r w2]. cbn [fst snd] in *.
    destruct (temp_removed (temp_dir (env w)) w2) as (E3 & C3 & u & U).
    destruct (cleanupTempDirectory (temp_dir (env w)) w2) as [r3 w3].
    cbn [fst snd] in *. subst r3.
    destruct r as [a|e|]; cbn [fst snd].
    + split; [congruence|].
      exists (Mkdir (temp_dir (env w)) :: during ++ [Rm (temp_dir (env w))]).
      split; [rewrite C3, C2, C1, <- !app_assoc; reflexivity|].
      right; right. exists [], during. now repeat split.
    + split; [congruence|].
      exists (Mkdir (temp_dir (env w)) :: during ++ [Rm (temp_dir (env w))]).
      split; [rewrite C3, C2, C1, <- !app_assoc; reflexivity|].
      right; right. exists [], during. now repeat split.
    + split; [congruence|]. destruct (St eq_refl) as (du & C4).
      rewrite C2 in C4. apply app_inv_head in C4. subst during.
      rewrite elsewhere_app in Q. apply andb_prop in Q as [Q _].
      exists (Mkdir (temp_dir (env w)) :: du ++ [Pipe (temp_archive (env w))]).
      split; [rewrite C2, C1, <- !app_assoc; reflexivity|].
      exists [], du. now repeat split.
Qed.

Lemma tidy_after {A B} (m : M A) (k : A -> M B) :
  keeps in_passing m -> settles m -> (forall a, tidily (k a)) ->
  tidily (bind m k).
Proof.
  intros Hm Sm Hk w. unfold tidy, bind.
  pose proof (Hm w) as (E1 & _ & _ & n1 & C1 & Q1). specialize (Sm w).
  destruct (m w) as [[a|e|] w1]; cbn [fst snd] in *.
  - pose proof (Hk a w1) as (E2 & n2 & C2 & S).
    split; [congruence|]. exists (n1 ++ n2).
    split; [rewrite C2, C1, app_assoc; reflexivity|].
    rewrite E1 in S.
    destruct (fst (k a w1));
      [now apply scoped_after|now apply scoped_after|now apply stalled_after].
  - split; [exact E1|]. exists n1. split; [exact C1|]. now left.
  - now contradiction Sm.
Qed.

Lemma tidy_passing {A} (m : M A) :
  keeps in_passing m -> settles m -> tidily m.
Proof.
  intros H S w. destruct (H w) as (E & _ & _ & n & C & Q). specialize (S w).
  split; [exact E|]. exists n. split; [exact C|].
  destruct (fst (m w)); [now left|now left|now contradiction S].
Qed.

(** An error caught and logged adds no call. *)
Lemma tidy_catch {A} (m : M A) (l : Level) (msg : Error -> jsstring) (a : A) :
  tidily m ->
  tidily (try_catch m (fun error => core_log l (msg error) ;; ret a)).
Proof.
  intros H w. unfold try_catch. specialize (H w).
  destruct (m w) as [[r|e|] w1]; exact H.
Qed.

Lemma tidy_save (cachePaths : list jsstring) (primaryKey : jsstring) :
  tidily (saveCache cachePaths primaryKey).
Proof.
  unfold saveCache, warning. apply tidy_catch. unfold saveCache_try.
  apply tidy_after; [apply passing_ensure|apply settles_ensure|intros _].
  apply tidy_after; [apply passing_exists|apply settles_exists|intros ex].
  destruct ex.
  - apply tidy_passing; unfold info; [passing_steps|settles_steps].
  - apply (tidy_scope (fun tempDir => _)); intros d.
    + apply passing_save_body.
    + apply stalls_settles, settles_save_body.
Qed.

Lemma restore_body_stalls (m : Match) (d : jsstring) :
  stalls_at (path_join d (str "cache.tar.gz"))
    (let archiveExtension := getArchiveExtension this_compressionMethod in
     let archivePath := path_join d (str "cache" ++ archiveExtension) in
     downloadBlob (blobName m) archivePath ;;
     extractArchive archivePath
       {| compressionMethod := this_compressionMethod |} ;;
     info (str "Cache restored from key: " ++ cacheKey m) ;;
     ret (Some (cacheKey m))).
Proof.
  cbv zeta.
  apply stalls_bind;
    [apply passing_download|exact (download_stalls _ _)|intros _].
  apply stalls_settles, settles_after_download.
Qed.

Lemma restore_body_settles_quietly (m : Match) (d : jsstring) :
  settles_quietly
    (let archiveExtension := getArchiveExtension this_compressionMethod in
     let archivePath := path_join d (str "cache" ++ archiveExtension) in
     downloadBlob (blobName m) archivePath ;;
     extractArchive archivePath
       {| compressionMethod := this_compressionMethod |} ;;
     info (str "Cache restored from key: " ++ cacheKey m) ;;
     ret (Some (cacheKey m))).
Proof.
  cbv zeta.
  apply quietly_bind;
    [apply passing_download|apply download_settles_quietly|intros _].
  apply quietly_settles, settles_after_download.
Qed.

Lemma tidy_restore (cachePaths : list jsstring) (primaryKey : jsstring)
  (restoreKeys : list jsstring) (options : option CacheRestoreOptions) :
  tidily (restoreCache cachePaths primaryKey restoreKeys options).
Proof.
  unfold restoreCache, warning. apply tidy_catch. unfold restoreCache_try.
  apply tidy_after; [apply passing_ensure|apply settles_ensure|intros _].
  apply tidy_after; [apply passing_find|apply settles_find|intros [m|]].
  - apply tidy_after;
      [unfold info; passing_steps|unfold info; settles_steps|intros _].
    destruct (lookupOnly_set options).
    + apply tidy_passing; unfold info; [passing_steps|settles_steps].
    + apply (tidy_scope (fun tempDir => _)); intros d.
      * apply passing_restore_body.
      * apply restore_body_stalls.
  - apply tidy_passing; unfold info; [passing_steps|settles_steps].
Qed.

Lemma settles_save (cachePaths : list jsstring) (primaryKey : jsstring) :
  settles (saveCache cachePaths primaryKey).
Proof.
  intros w. pose proof (save_returns cachePaths primaryKey w) as [z E].
  rewrite E. discriminate.
Qed.

(** X9. Both operations work in a directory of their own, and remove it
    whenever they come to an end.  On a runner that is not Windows (the
    paths are those of [path.posix]), in every world and whatever fails:
    [saveCache] always settles, and so does [restoreCache] unless the body
    of the download fails on its way to the file.  The calls of an
    operation that settled have one of three shapes: none makes or removes
    a directory; or one makes the directory that [createTempDirectory]
    names from RUNNER_TEMP (or the system's), the clock and the random
    string, and it is the last call (the making failed); or one makes that
    directory and the last call removes it, no other call making or
    removing a directory.  When [restoreCache] does not settle, the
    directory was made, the last call is the piping of the body to
    cache.tar.gz under it, and no call removes anything: the directory
    stays. *)
Theorem temp_directory_is_removed (cachePaths : list jsstring)
  (primaryKey : jsstring) (restoreKeys : list jsstring)
  (options : option CacheRestoreOptions) (w : World) :
  platform (env w) <> str "win32" ->
  let save := saveCache cachePaths primaryKey w in
  let restore := restoreCache cachePaths primaryKey restoreKeys options w in
  (fst save <> Unsettled
   /\ exists new,
        calls (snd save) = calls w ++ new
        /\ scoped (temp_dir (env w)) new)
  /\ (exists new,
         calls (snd restore) = calls w ++ new
         /\ (fst restore <> Unsettled -> scoped (temp_dir (env w)) new)
         /\ (fst restore = Unsettled ->
             stalled (temp_dir (env w)) (temp_archive (env w)) new)).
Proof.
  intros _ save restore. split.
  - pose proof (settles_save cachePaths primaryKey w) as S.
    split; [exact S|].
    destruct (tidy_save cachePaths primaryKey w) as (_ & new & C & T).
    exists new. split; [exact C|]. fold save in T, S.
    destruct (fst save); [exact T|exact T|now contradiction S].
  - destruct (tidy_restore cachePaths primaryKey restoreKeys options w)
      as (_ & new & C & T).
    exists new. split; [exact C|]. fold restore in T.
    destruct (fst restore).
    + split; [intros _; exact T|discriminate].
    + split; [intros _; exact T|discriminate].
    + split; [intros N; now contradiction N|intros _; exact T].
Qed.

Lemma temp_directory_is_removed_witness :
  platform (env body_stream_fails) <> str "win32"
  /\ fst (restoreCache [str "build/"] (str "linux-v1") [] None
            body_stream_fails) = Unsettled
  /\ exists new,
       calls (snd (restoreCache [str "build/"] (str "linux-v1") [] None
                     body_stream_fails)) = new
       /\ stalled (str "/home/runner/work/_temp/azure-cache-1700000000123-k3j9x1")
            (str "/home/runner/work/_temp/azure-cache-1700000000123-k3j9x1/cache.tar.gz")
            new.
Proof.
  assert (platform (env body_stream_fails) <> str "win32") as P
    by (vm_compute; discriminate).
  split; [exact P|].
  assert (fst (restoreCache [str "build/"] (str "linux-v1") [] None
                 body_stream_fails) = Unsettled) as U
    by (vm_compute; reflexivity).
  split; [exact U|].
  destruct (@temp_directory_is_removed [str "build/"] (str "linux-v1") []
              None body_stream_fails P) as (_ & new & C & _ & S).
  exists new. split; [exact C|]. exact (S U).
Defined.

Lemma file_get_removed (d p : jsstring) (fs : list (jsstring * list N)) :
  under d p = true ->
  file_get p (filter (fun e => negb (under d (fst e))) fs) = None.
Proof.
  intros U. induction fs as [|[q c] fs IH]; cbn [filter fst file_get];
    [reflexivity|].
  destruct (under d q) eqn:Uq; cbn [negb]; [exact IH|].
  cbn [file_get]. destruct (jseq q p) eqn:J; [|exact IH].
  apply jseq_eq in J. subst q. congruence.
Qed.

Lemma dir_removed (d p : jsstring) (ds : list jsstring) :
  under d p = true -> ~ In p (filter (fun x => negb (under d x)) ds).
Proof.
  intros U I. apply filter_In in I as [_ I]. rewrite U in I. discriminate.
Qed.

Lemma cleanup_quiet (d : jsstring) (w : World) :
  faults w = [] ->
  cleanupTempDirectory d w
  = (Returned tt,
     set_dirs (filter (fun x => negb (under d x)) (dirs w))
       (set_files (filter (fun e => negb (under d (fst e))) (files w))
          (set_calls (calls w ++ [Rm d]) w))).
Proof.
  intros F. unfold cleanupTempDirectory, try_catch, fs_rm.
  now rewrite (bind_run _ _ _ (outside_quiet _ _ F)).
Qed.

Lemma createTemp_quiet (w : World) :
  faults w = [] ->
  createTempDirectory w
  = (Returned (temp_dir (env w)),
     set_dirs (temp_dir (env w) :: dirs w)
       (set_calls (calls w ++ [Mkdir (temp_dir (env w))]) w)).
Proof.
  intros F. unfold createTempDirectory, fs_mkdir, get, temp_dir.
  unfold bind at 1 2 3.
  now rewrite (bind_run _ _ _ (bind_run _ _ _ (outside_quiet _ _ F))).
Qed.

Lemma clean_scope {A} (body : jsstring -> M A) :
  (forall d, keeps in_passing (body d)) ->
  (forall d, settles_quietly (body d)) ->
  keeps left_clean
    (tempDir <- createTempDirectory ;;
     try_finally (body tempDir) (cleanupTempDirectory tempDir)).
Proof.
  intros H S w F _. rewrite (bind_run _ _ _ (createTemp_quiet w F)).
  unfold try_finally.
  match goal with
  | |- context [body ?d ?w1] =>
      pose proof (H d w1) as (_ & _ & F2 & _);
      pose proof (S d w1 F) as S2;
      destruct (body d w1) as [r w2]
  end.
  cbn [fst snd faults set_dirs set_calls] in F2, S2.
  rewrite (cleanup_quiet _ w2 (F2 F)).
  destruct r as [a|e|]; [| |now contradiction S2];
    cbn [snd]; intros p U; cbn [files dirs set_dirs set_files];
    (split; [now apply file_get_removed|now apply dir_removed]).
Qed.

Lemma clean_asked {A} (m : M A) : keeps asked_only m -> keeps left_clean m.
Proof.
  intros H w _ N. destruct (H w) as (_ & _ & Fi & D & _).
  intros p U. rewrite Fi, D. now apply N.
Qed.

Lemma clean_after {A B} (m : M A) (k : A -> M B) :
  keeps asked_only m -> keeps in_passing m ->
  (forall a, keeps left_clean (k a)) ->
  keeps left_clean (bind m k).
Proof.
  intros Ha Hp Hk w F N. unfold bind.
  pose proof (Ha w) as (E & _ & Fi & D & _).
  pose proof (Hp w) as (_ & _ & F1 & _).
  destruct (m w) as [[a|e|] w1]; cbn [snd] in *.
  - rewrite <- E. apply Hk; [auto|].
    rewrite E. intros p U. rewrite Fi, D. now apply N.
  - intros p U. rewrite Fi, D. now apply N.
  - intros p U. rewrite Fi, D. now apply N.
Qed.

Lemma clean_catch {A} (m : M A) (l : Level) (msg : Error -> jsstring) (a : A) :
  keeps left_clean m ->
  keeps left_clean (try_catch m (fun error => core_log l (msg error) ;; ret a)).
Proof.
  intros H w F N. unfold try_catch. specialize (H w F N).
  destruct (m w) as [[r|e|] w1]; exact H.
Qed.

Lemma asked_exists (n : jsstring) : keeps asked_only (blob_exists n).
Proof. unfold blob_exists. asked_steps. Qed.

Lemma clean_save (cachePaths : list jsstring) (primaryKey : jsstring) :
  keeps left_clean (saveCache cachePaths primaryKey).
Proof.
  unfold saveCache, warning. apply clean_catch. unfold saveCache_try.
  apply clean_after; [apply asked_ensure|apply passing_ensure|intros _].
  apply clean_after; [apply asked_exists|apply passing_exists|intros ex].
  destruct ex.
  - apply clean_asked. unfold info. asked_steps.
  - apply (clean_scope (fun tempDir => _)); intros d.
    + apply passing_save_body.
    + apply quietly_settles, settles_save_body.
Qed.

Lemma clean_restore (cachePaths : list jsstring) (primaryKey : jsstring)
  (restoreKeys : list jsstring) (options : option CacheRestoreOptions) :
  keeps left_clean (restoreCache cachePaths primaryKey restoreKeys options).
Proof.
  unfold restoreCache, warning. apply clean_catch. unfold restoreCache_try.
  apply clean_after; [apply asked_ensure|apply passing_ensure|intros _].
  apply clean_after; [apply asked_find|apply passing_find|intros [m|]].
  - apply clean_after; [unfold info; asked_steps|unfold info; passing_steps|].
    intros _. destruct (lookupOnly_set options).
    + apply clean_asked. unfold info. asked_steps.
    + apply (clean_scope (fun tempDir => _)); intros d.
      * apply passing_restore_body.
      * apply restore_body_settles_quietly.
  - apply clean_asked. unfold info. asked_steps.
Qed.

(** X10. Nothing is left behind on disk.  When no call fails and nothing
    lies at the temporary directory or below it before, nothing lies there
    after [saveCache] or [restoreCache]: not the manifest, not the archive,
    not the directory, whether tar was found or not and whatever status it
    exits with.  (What tar extracts is not followed.) *)
Theorem nothing_left_in_temp (cachePaths : list jsstring)
  (primaryKey : jsstring) (restoreKeys : list jsstring)
  (options : option CacheRestoreOptions) (w : World) :
  faults w = [] ->
  nothing_under (temp_dir (env w)) w ->
  nothing_under (temp_dir (env w)) (snd (saveCache cachePaths primaryKey w))
  /\ nothing_under (temp_dir (env w))
       (snd (restoreCache cachePaths primaryKey restoreKeys options w)).
Proof.
  intros F N. split; [now apply clean_save|now apply clean_restore].
Qed.

Lemma nothing_left_in_temp_witness :
  faults tar_fails = []
  /\ fst (saveCache [str "build/"] (str "linux-v1") tar_fails)
     = Returned (-1)%Z
  /\ file_get (manifest_path (temp_dir (env tar_fails)))
       (files (snd (saveCache [str "build/"] (str "linux-v1") tar_fails)))
     = None.
Proof.
  split; [reflexivity|]. split; [vm_compute; reflexivity|].
  destruct (nothing_left_in_temp [str "build/"] (str "linux-v1") [] None
              (w := tar_fails) eq_refl
              (fun p _ => conj eq_refl (fun i : False => i))) as [S _].
  apply S. vm_compute. reflexivity.
Defined.

(** ** The archive, from tar to the container and back *)

Lemma at_rest_refl (w : World) : at_rest w w.
Proof. now repeat split. Qed.

Lemma at_rest_trans (a b c : World) :
  at_rest a b -> at_rest b c -> at_rest a c.
Proof.
  intros (E1 & B1 & F1 & T1) (E2 & B2 & F2 & T2). repeat split; congruence.
Qed.

Lemma rest_outside (c : Call) : keeps at_rest (outside c).
Proof.
  intros w. unfold outside.
  destruct (faults w) as [|[e|] rest]; now repeat split.
Qed.

Lemma rest_modify (f : World -> World) :
  (forall w, at_rest w (f w)) -> keeps at_rest (modify f).
Proof. intros H w. apply H. Qed.

Lemma rest_log (l : Level) (msg : jsstring) : keeps at_rest (core_log l msg).
Proof. apply rest_modify. now repeat split. Qed.

#[local] Hint Resolve rest_outside rest_log : keeps.
#[local] Hint Extern 1 (keeps at_rest (modify _)) =>
  apply rest_modify; intros ?; repeat split; reflexivity : keeps.

Ltac rest_steps := repeat keeps_step at_rest_refl at_rest_trans.

Lemma rest_ensure : keeps at_rest ensureContainerExists.
Proof. unfold ensureContainerExists, createIfNotExists, debug. rest_steps. Qed.

Lemma rest_exists (n : jsstring) : keeps at_rest (blob_exists n).
Proof. unfold blob_exists. rest_steps. Qed.

Lemma rest_createTemp : keeps at_rest createTempDirectory.
Proof. unfold createTempDirectory, fs_mkdir. rest_steps. Qed.

Lemma rest_getTarPath : keeps at_rest getTarPath.
Proof. unfold getTarPath, io_which. rest_steps. Qed.

Lemma rest_stat (p : jsstring) : keeps at_rest (fs_stat_size p).
Proof. unfold fs_stat_size. rest_steps. Qed.

Lemma file_get_put (p : jsstring) (c : list N) (fs : list (jsstring * list N)) :
  file_get p (file_put p c fs) = Some c.
Proof. unfold file_put. cbn [file_get]. now rewrite jseq_refl. Qed.

Lemma file_get_remove_other (p q : jsstring) (fs : list (jsstring * list N)) :
  jseq q p = false ->
  file_get p (file_remove q fs) = file_get p fs.
Proof.
  intros N. unfold file_remove.
  induction fs as [|[x c] fs IH]; cbn [filter fst file_get]; [reflexivity|].
  destruct (jseq x q) eqn:Q; cbn [negb file_get].
  - apply jseq_eq in Q. subst x. now rewrite N.
  - now rewrite IH.
Qed.

(** The manifest is removed, or the removal fails and is ignored: every
    other file is as it was. *)
Lemma unlink_tried (mp p : jsstring) (w : World) :
  jseq mp p = false ->
  let w' := snd (try_catch (fs_unlink mp) (fun _ => ret tt) w) in
  fst (try_catch (fs_unlink mp) (fun _ => ret tt) w) = Returned tt
  /\ env w' = env w /\ blobs w' = blobs w
  /\ file_get p (files w') = file_get p (files w).
Proof.
  intros N. unfold try_catch, fs_unlink, outside, bind, get, modify, ret,
    throw.
  destruct (faults w) as [|[e|] rest];
    cbn [fst snd env blobs files set_calls set_faults];
    try (now repeat split);
    destruct (file_get mp (files w));
    cbn [fst snd env blobs files set_calls set_faults set_files];
    repeat split; try reflexivity; now apply file_get_remove_other.
Qed.

Lemma writeFile_returned (p t : jsstring) (w : World) (u : unit) (w' : World) :
  fs_writeFile p t w = (Returned u, w') ->
  env w' = env w /\ blobs w' = blobs w /\ tar_runs w' = tar_runs w
  /\ files w' = file_put p (utf8 t) (files w).
Proof.
  unfold fs_writeFile, outside, bind, modify.
  destruct (faults w) as [|[e|] rest]; intros [= _ <-]; now repeat split.
Qed.

Lemma exec_returned (t : jsstring) (args : list jsstring) (d : jsstring)
  (w : World) (code : Z) (w' : World) :
  exec_exec t args d w = (Returned code, w') ->
  code = fst (next_run w)
  /\ env w' = env w /\ blobs w' = blobs w
  /\ files w' = tar_writes args (snd (next_run w)) (files w).
Proof.
  unfold exec_exec, outside, bind, modify, get, ret, throw, next_run.
  destruct (faults w) as [|[e|] rest];
    cbn [tar_runs set_calls set_faults];
    try discriminate;
    destruct (fst (hd (0%Z, []) (tar_runs w)) =? 0)%Z;
    try discriminate;
    intros [= <- <-]; now repeat split.
Qed.

(** [createArchive] returns only after tar exited with status 0, and the
    file at the path it returns holds what that run of tar wrote. *)
Lemma createArchive_made (d : jsstring) (ps : list jsstring)
  (o : ArchiveOptions) (w : World) (p : jsstring) (w' : World) :
  createArchive d ps o w = (Returned p, w') ->
  fst (next_run w) = 0%Z
  /\ file_get p (files w') = Some (snd (next_run w))
  /\ env w' = env w /\ blobs w' = blobs w.
Proof.
  intros E. pose proof (createArchive_returns _ _ _ _ E) as ->.
  unfold createArchive, workspace_root in E.
  apply bind_returned in E as (tp & w1 & Et & E).
  pose proof (kept rest_getTarPath Et) as (E1 & B1 & F1 & T1).
  apply bind_returned in E as (root & w2 & Eg & E).
  unfold get in Eg. injection Eg as <- <-.
  apply bind_returned in E as (content & w2 & Eg & E).
  unfold get in Eg. injection Eg as <- <-.
  apply bind_returned in E as ([] & w3 & Ew & E).
  apply writeFile_returned in Ew as (E3 & B3 & T3 & F3).
  unfold debug in E. rewrite (bind_run _ _ _ (log_run _ _ _)) in E.
  apply bind_returned in E as (code & w5 & Ee & E).
  apply exec_returned in Ee as (-> & E5 & B5 & F5).
  unfold next_run in *. cbn [tar_runs files env blobs set_log] in *.
  rewrite T3, T1 in *.
  destruct (fst (hd (0%Z, []) (tar_runs w)) =? 0)%Z eqn:Z;
    cbn [negb] in E; [|discriminate].
  apply Z.eqb_eq in Z. split; [exact Z|].
  destruct (manifest_is_not_archive d (compressionMethod o)) as [_ N].
  apply bind_returned in E as ([] & w6 & Eu & E). injection E as <-.
  destruct (unlink_tried (manifest_path d)
              (archive_path d (compressionMethod o)) w5 N) as (_ & E6 & B6 & F6).
  rewrite Eu in E6, B6, F6. cbn [snd] in E6, B6, F6.
  rewrite F6, F5, tar_creates, file_get_put.
  repeat split; congruence.
Qed.

Lemma stat_returned (p : jsstring) (w : World) (size : nat) (w' : World) :
  fs_stat_size p w = (Returned size, w') ->
  exists c, file_get p (files w) = Some c.
Proof.
  unfold fs_stat_size, outside, bind, get, ret, throw.
  destruct (faults w) as [|[e|] rest];
    cbn [files set_calls set_faults];
    destruct (file_get p (files w)) as [c|]; try discriminate; eauto.
Qed.

(** What [uploadBlob] puts in the container is the file it was given. *)
Lemma uploadBlob_sent (n path key : jsstring) (w : World) (u : unit)
  (w' : World) :
  uploadBlob n path key w = (Returned u, w') ->
  exists c,
    file_get path (files w) = Some c
    /\ blobs w'
       = store_put
           {| name := n;
              metadata := Some [(CACHE_KEY_METADATA, key);
                                (CREATED_AT_METADATA,
                                 toISOString (clock (env w)))];
              lastModified := Some (clock (env w));
              body := c |} (blobs w).
Proof.
  unfold uploadBlob, info. rewrite (bind_run _ _ _ (log_run _ _ _)).
  intros E. apply bind_returned in E as (size & w1 & Es & E).
  pose proof (kept (rest_stat _) Es) as (E1 & B1 & F1 & _).
  apply stat_returned in Es as [c Hc]. cbn [files set_log] in Hc.
  apply bind_returned in E as (now & w2 & Eg & E).
  unfold get in Eg. injection Eg as <- <-.
  apply bind_returned in E as ([] & w3 & Eu & E).
  rewrite log_run in E. injection E as _ <-.
  exists c. split; [exact Hc|]. cbn [blobs set_log].
  cbn [env blobs files set_log] in E1, B1, F1.
  unfold uploadStream, outside, bind, get, modify, throw in Eu.
  destruct (faults w1) as [|[e|] rest];
    cbn [files set_calls set_faults] in Eu; try discriminate;
    rewrite F1, Hc in Eu; injection Eu as <-;
    cbn [blobs env set_blobs set_calls set_faults];
    now rewrite E1, B1.
Qed.

Lemma saveCache_saved (cachePaths : list jsstring) (primaryKey : jsstring)
  (w : World) (id : Z) :
  fst (saveCache cachePaths primaryKey w) = Returned id ->
  id <> (-1)%Z ->
  stored (sanitizeBlobName primaryKey) (blobs w) = false
  /\ id = clock (env w)
  /\ fst (next_run w) = 0%Z
  /\ blobs (snd (saveCache cachePaths primaryKey w))
     = store_put (saved_blob w primaryKey (snd (next_run w))) (blobs w).
Proof.
  unfold saveCache, try_catch.
  destruct (saveCache_try cachePaths primaryKey w) as [[r|e|] w'] eqn:E;
    cbn [fst snd]; [|intros [= <-]; congruence|discriminate].
  intros [= ->] N. unfold saveCache_try in E.
  apply bind_returned in E as ([] & w1 & Em & E).
  pose proof (kept rest_ensure Em) as (E1 & B1 & _ & T1).
  apply bind_returned in E as (ex & w2 & Ex & E).
  pose proof (kept (rest_exists _) Ex) as (E2 & B2 & _ & T2).
  apply exists_answer in Ex as [[e [=]]|[= ->]].
  rewrite B1 in E.
  destruct (stored (sanitizeBlobName primaryKey) (blobs w)) eqn:S.
  { unfold info in E. rewrite (bind_run _ _ _ (log_run _ _ _)) in E.
    injection E as <- _. congruence. }
  split; [reflexivity|].
  apply bind_returned in E as (tempDir & w3 & Et & E).
  pose proof (kept rest_createTemp Et) as (E3 & B3 & _ & T3).
  apply (finally_cases (settles_save_body _ _ _) (cleanup_total _)) in E
    as (w4 & Eb & _ & Ec).
  pose proof (kept (store_cleanup tempDir) Ec) as [_ B5].
  apply bind_returned in Eb as (archivePath & w6 & Ea & Eb).
  apply createArchive_made in Ea as (X & Fa & E6 & B6).
  apply bind_returned in Eb as (size & w7 & Es & Eb).
  pose proof (kept (rest_stat _) Es) as (E7 & B7 & F7 & _).
  unfold info in Eb. rewrite (bind_run _ _ _ (log_run _ _ _)) in Eb.
  apply bind_returned in Eb as ([] & w8 & Eu & Eb).
  pose proof (uploadBlob_result Eu) as [E8 _]. cbn [env set_log] in E8.
  apply uploadBlob_sent in Eu as (c & Hc & Bu).
  cbn [files env blobs set_log] in Hc, Bu.
  rewrite (bind_run _ _ _ (log_run _ _ _)) in Eb.
  injection Eb as <- <-. cbn [env blobs set_log] in *.
  rewrite F7, Fa in Hc. injection Hc as <-.
  assert (next_run w3 = next_run w) as T
    by (unfold next_run; congruence).
  rewrite T in X, Bu.
  split; [congruence|]. split; [exact X|].
  rewrite B5, Bu. unfold saved_blob.
  replace (env w7) with (env w) by congruence.
  replace (blobs w7) with (blobs w) by congruence. reflexivity.
Qed.

(** X11. What a successful save stores is the archive, untouched.  In
    every world, when [saveCache] returns an identifier other than -1 no
    blob was stored under the sanitized name before, the run of tar exited
    with status 0, the identifier is the time of the call, and the
    container afterwards is the container before with one blob put under
    the sanitized name, whose body is byte for byte what that run of tar
    wrote. *)
Theorem saved_blob_is_the_archive (cachePaths : list jsstring)
  (primaryKey : jsstring) (w : World) (id : Z) :
  fst (saveCache cachePaths primaryKey w) = Returned id ->
  id <> (-1)%Z ->
  stored (sanitizeBlobName primaryKey) (blobs w) = false
  /\ id = clock (env w)
  /\ fst (next_run w) = 0%Z
  /\ blobs (snd (saveCache cachePaths primaryKey w))
     = store_put (saved_blob w primaryKey (snd (next_run w))) (blobs w).
Proof. apply saveCache_saved. Qed.

Lemma saved_blob_is_the_archive_witness :
  fst (saveCache [str "build/"] (str "linux-v1") tar_writes_three)
  = Returned 1700000000123%Z
  /\ option_map body
       (find (named (str "linux-v1"))
          (blobs (snd (saveCache [str "build/"] (str "linux-v1")
                         tar_writes_three))))
     = Some [31%N; 139%N; 8%N].
Proof.
  assert (fst (saveCache [str "build/"] (str "linux-v1") tar_writes_three)
          = Returned 1700000000123%Z) as H by (vm_compute; reflexivity).
  split; [exact H|].
  destruct (saved_blob_is_the_archive _ _ _ H ltac:(discriminate))
    as (_ & _ & _ & B).
  rewrite B. vm_compute. reflexivity.
Defined.

Lemma resolution_exact (primaryKey : jsstring) (restoreKeys : list jsstring)
  (w : World) :
  faults w = [] ->
  stored (sanitizeBlobName primaryKey) (blobs w) = true ->
  resolution primaryKey restoreKeys w
  = (Returned (Some {| cacheKey := primaryKey;
                       blobName := sanitizeBlobName primaryKey |}),
     set_calls (calls w ++ [CreateIfNotExists;
                            Exists (sanitizeBlobName primaryKey)]) w).
Proof.
  intros F S. unfold resolution.
  rewrite (bind_run _ _ _ (ensure_quiet w F)).
  rewrite find_quiet by exact F. cbn [blobs set_calls]. rewrite S.
  cbn [calls set_calls]. same_world.
Qed.

Lemma restore_lookup (cachePaths : list jsstring) (primaryKey : jsstring)
  (restoreKeys : list jsstring) (w : World) (m : Match) (w1 : World) :
  resolution primaryKey restoreKeys w = (Returned (Some m), w1) ->
  fst (restoreCache cachePaths primaryKey restoreKeys
         (Some {| lookupOnly := Some true |}) w)
  = Returned (Some (cacheKey m)).
Proof.
  intros H. unfold resolution in H.
  apply bind_returned in H as ([] & w0 & He & Hf).
  unfold restoreCache, try_catch, restoreCache_try.
  rewrite (bind_run _ _ _ He), (bind_run _ _ _ Hf).
  cbn [lookupOnly_set lookupOnly]. unfold info.
  rewrite (bind_run _ _ _ (log_run _ _ _)).
  rewrite (bind_run _ _ _ (log_run _ _ _)). reflexivity.
Qed.

Lemma download_quiet (n dest : jsstring) (w : World) (b : BlobItem) :
  faults w = [] ->
  find (named n) (blobs w) = Some b ->
  fst (downloadBlob n dest w) = Returned tt
  /\ file_get dest (files (snd (downloadBlob n dest w))) = Some (body b).
Proof.
  intros F B. destruct w as [en bs fs ds fl tr cs lg].
  cbn [faults blobs] in F, B. subst fl.
  unfold downloadBlob, blob_download, pipe_to_file, info, core_log, bind,
    outside, get, modify, ret, throw.
  cbn [fst snd env blobs files dirs faults tar_runs calls log
       set_blobs set_files set_dirs set_faults set_tar_runs set_calls set_log].
  rewrite B.
  cbn [fst snd env blobs files dirs faults tar_runs calls log
       set_blobs set_files set_dirs set_faults set_tar_runs set_calls set_log].
  split; [reflexivity|apply file_get_put].
Qed.

Lemma find_is_stored (n : jsstring) (bs : list BlobItem) (b : BlobItem) :
  find (named n) bs = Some b -> stored n bs = true.
Proof.
  intros H. apply find_some in H as [I N].
  apply existsb_exists. now exists b.
Qed.

(** X12. What was saved comes back.  After a save that returned an
    identifier other than -1, in any later world where the blob under the
    sanitized name is still the one saved and no call fails: downloading
    that blob writes, byte for byte, what tar wrote when the cache was
    saved; a lookup with the same primary key reports that key, whatever
    the restore keys; and so does a full restore when tar is found and
    exits with status 0. *)
Theorem save_then_restore (cachePaths : list jsstring) (primaryKey : jsstring)
  (w : World) (id : Z) (later : World) :
  fst (saveCache cachePaths primaryKey w) = Returned id ->
  id <> (-1)%Z ->
  find (named (sanitizeBlobName primaryKey)) (blobs later)
  = find (named (sanitizeBlobName primaryKey))
      (blobs (snd (saveCache cachePaths primaryKey w))) ->
  faults later = [] ->
  (forall dest,
      fst (downloadBlob (sanitizeBlobName primaryKey) dest later)
      = Returned tt
      /\ file_get dest
           (files (snd (downloadBlob (sanitizeBlobName primaryKey) dest
                          later)))
         = Some (snd (next_run w)))
  /\ (forall paths restoreKeys,
         fst (restoreCache paths primaryKey restoreKeys
                (Some {| lookupOnly := Some true |}) later)
         = Returned (Some primaryKey))
  /\ (forall paths restoreKeys tp,
         tar_on_path (env later) = Some tp ->
         fst (next_run later) = 0%Z ->
         fst (restoreCache paths primaryKey restoreKeys None later)
         = Returned (Some primaryKey)).
Proof.
  intros H N B F.
  destruct (saveCache_saved _ _ _ H N) as (_ & _ & _ & S).
  rewrite S in B.
  pose proof (find_store_put (saved_blob w primaryKey (snd (next_run w)))
                (blobs w)) as P.
  cbn [saved_blob name] in P. rewrite P in B. clear P S.
  pose proof (find_is_stored _ _ B) as St.
  split; [|split].
  - intros dest. apply (@download_quiet _ dest _ _ F B).
  - intros paths restoreKeys.
    apply (@restore_lookup paths _ _ _ _ _
             (@resolution_exact primaryKey restoreKeys later F St)).
  - intros paths restoreKeys tp T X.
    apply (@restore_full_success paths primaryKey restoreKeys None later
             _ _ tp (@resolution_exact primaryKey restoreKeys later F St));
      [reflexivity|exact F|exact T|exact X].
Qed.

Lemma save_then_restore_witness :
  fst (saveCache [str "build/"] (str "linux-v1") tar_writes_three)
  = Returned 1700000000123%Z
  /\ file_get (str "/tmp/cache.tar.gz")
       (files (snd (downloadBlob (sanitizeBlobName (str "linux-v1"))
                      (str "/tmp/cache.tar.gz")
                      (snd (saveCache [str "build/"] (str "linux-v1")
                              tar_writes_three)))))
     = Some [31%N; 139%N; 8%N].
Proof.
  assert (fst (saveCache [str "build/"] (str "linux-v1") tar_writes_three)
          = Returned 1700000000123%Z) as H by (vm_compute; reflexivity).
  assert (faults (snd (saveCache [str "build/"] (str "linux-v1")
                         tar_writes_three)) = []) as F
    by (vm_compute; reflexivity).
  split; [exact H|].
  destruct (@save_then_restore [str "build/"] (str "linux-v1")
              tar_writes_three _
              (snd (saveCache [str "build/"] (str "linux-v1")
                      tar_writes_three))
              H ltac:(discriminate) eq_refl F) as [D _].
  rewrite (proj2 (D (str "/tmp/cache.tar.gz"))). reflexivity.
Defined.

(** X13. Keys that sanitize alike share one blob.  When two keys have the
    same sanitized name (as a key and its own sanitized form always do),
    a cache saved under the first answers for the second: in a later world
    where that blob is still stored and no call fails, a lookup with the
    second key as primary key reports the second key as found, and a save
    under the second key is skipped with -1 and leaves the container as it
    is. *)
Theorem keys_that_sanitize_alike_share_a_blob (cachePaths : list jsstring)
  (saved asked : jsstring) (w : World) (id : Z) (later : World) :
  sanitizeBlobName saved = sanitizeBlobName asked ->
  fst (saveCache cachePaths saved w) = Returned id ->
  id <> (-1)%Z ->
  find (named (sanitizeBlobName saved)) (blobs later)
  = find (named (sanitizeBlobName saved))
      (blobs (snd (saveCache cachePaths saved w))) ->
  faults later = [] ->
  (forall paths restoreKeys,
      fst (restoreCache paths asked restoreKeys
             (Some {| lookupOnly := Some true |}) later)
      = Returned (Some asked))
  /\ (forall paths,
         fst (saveCache paths asked later) = Returned (-1)%Z
         /\ blobs (snd (saveCache paths asked later)) = blobs later).
Proof.
  intros Q H N B F.
  destruct (saveCache_saved _ _ _ H N) as (_ & _ & _ & S).
  rewrite S in B.
  pose proof (find_store_put (saved_blob w saved (snd (next_run w)))
                (blobs w)) as P.
  cbn [saved_blob name] in P. rewrite P in B. clear P S.
  pose proof (find_is_stored _ _ B) as St. rewrite Q in St.
  split.
  - intros paths restoreKeys.
    apply (@restore_lookup paths _ _ _ _ _
             (@resolution_exact asked restoreKeys later F St)).
  - intros paths. destruct (save_skips paths asked later St) as (R & C & _).
    now split.
Qed.

Lemma keys_that_sanitize_alike_share_a_blob_witness :
  str "deps v1" <> str "deps_v1"
  /\ sanitizeBlobName (str "deps v1") = sanitizeBlobName (str "deps_v1")
  /\ fst (restoreCache [str "build/"] (str "deps_v1") []
            (Some {| lookupOnly := Some true |})
            (snd (saveCache [str "build/"] (str "deps v1") tar_writes_three)))
     = Returned (Some (str "deps_v1")).
Proof.
  assert (fst (saveCache [str "build/"] (str "deps v1") tar_writes_three)
          = Returned 1700000000123%Z) as H by (vm_compute; reflexivity).
  assert (faults (snd (saveCache [str "build/"] (str "deps v1")
                         tar_writes_three)) = []) as F
    by (vm_compute; reflexivity).
  assert (sanitizeBlobName (str "deps v1") = sanitizeBlobName (str "deps_v1"))
    as Q by (vm_compute; reflexivity).
  split; [vm_compute; discriminate|]. split; [exact Q|].
  destruct (@keys_that_sanitize_alike_share_a_blob [str "build/"]
              (str "deps v1") (str "deps_v1") tar_writes_three _
              (snd (saveCache [str "build/"] (str "deps v1")
                      tar_writes_three))
              Q H ltac:(discriminate) eq_refl F) as [L _].
  apply L.
Defined.

(** ** tar *)

Lemma which_returned (check : bool) (w : World) (p : jsstring) (w' : World) :
  io_which (str "tar") check w = (Returned p, w') ->
  tar_on_path (env w) = Some p \/ (check = false /\ p = []).
Proof.
  unfold io_which, outside, bind, get, ret, throw.
  destruct (faults w) as [|[e|] rest]; cbn [env set_calls set_faults];
    try discriminate;
    destruct (tar_on_path (env w)) as [tp|]; destruct check;
    intros [= <- <-]; auto; discriminate.
Qed.

Lemma getTarPath_returned (w : World) (p : jsstring) (w' : World) :
  getTarPath w = (Returned p, w') -> tar_on_path (env w) = Some p.
Proof.
  unfold getTarPath. intros E.
  apply bind_returned in E as (plat & w1 & Eg & E).
  unfold get in Eg. injection Eg as <- <-.
  destruct (jseq (platform (env w)) (str "win32")).
  - apply bind_returned in E as (gnuTar & w2 & Et & E).
    assert (env w2 = env w
            /\ (gnuTar = None \/ gnuTar = Some []
                \/ exists c t, gnuTar = Some (c :: t)
                               /\ tar_on_path (env w) = Some (c :: t)))
      as [E2 G].
    { unfold try_catch in Et.
      destruct (bind (io_which (str "tar") false)
                  (fun p0 => ret (Some p0)) w) as [[r|e|] w3] eqn:Eb;
        [| |discriminate].
      - injection Et as <- <-.
        apply bind_returned in Eb as (q & w4 & Ew & Eb).
        injection Eb as <- <-.
        pose proof (kept (store_which _ _) Ew) as [E4 _].
        split; [exact E4|].
        apply which_returned in Ew as [T|[_ ->]]; [|now right; left].
        destruct q as [|c t]; [now right; left|].
        right; right. now exists c, t.
      - injection Et as <- <-.
        apply (bind_cases (settles_which _ _)) in Eb
          as [(e' & Ew & _)|(q & w4 & _ & [=])].
        pose proof (kept (store_which _ _) Ew) as [E4 _].
        split; [exact E4|now left]. }
    destruct G as [->|[->|(c & t & -> & T)]].
    + apply which_returned in E as [T|[[=] _]]. congruence.
    + apply which_returned in E as [T|[[=] _]]. congruence.
    + now injection E as <- _.
  - now apply which_returned in E as [T|[[=] _]].
Qed.

(** X14. The tar that is run is the tar that was found.  In every world
    and on every platform, a path that [getTarPath] returns is the one
    [io.which] finds for tar: on Windows an empty answer of the unchecked
    lookup, or its failure, is not taken for a path, the checked lookup
    follows.  So when tar is not installed [getTarPath] throws, and neither
    [createArchive] nor [extractArchive] returns. *)
Theorem tar_path_is_the_one_found (w : World) :
  (forall p w', getTarPath w = (Returned p, w') ->
                tar_on_path (env w) = Some p)
  /\ (tar_on_path (env w) = None ->
      (exists e, fst (getTarPath w) = Thrown e)
      /\ (forall d ps o, exists e, fst (createArchive d ps o w) = Thrown e)
      /\ (forall a o, exists e, fst (extractArchive a o w) = Thrown e)).
Proof.
  split; [apply getTarPath_returned|]. intros T.
  assert (exists e w1, getTarPath w = (Thrown e, w1)) as (e & w1 & G).
  { pose proof (settles_getTarPath w) as S.
    destruct (getTarPath w) as [[p|e|] w1] eqn:G;
      [|now exists e, w1|now contradiction S].
    apply getTarPath_returned in G. congruence. }
  split; [|split].
  - exists e. now rewrite G.
  - intros d ps o. exists e. unfold createArchive.
    now rewrite (bind_thrown _ _ _ G).
  - intros a o. exists e. unfold extractArchive.
    now rewrite (bind_thrown _ _ _ G).
Qed.

Lemma tar_path_is_the_one_found_witness :
  tar_on_path (env no_tar) = None
  /\ exists e,
       fst (createArchive (str "/tmp/azure-cache-1") [str "build/"]
              {| compressionMethod := gzip |} no_tar) = Thrown e.
Proof.
  split; [reflexivity|].
  destruct (tar_path_is_the_one_found no_tar) as [_ H].
  destruct (H eq_refl) as (_ & C & _). apply C.
Defined.

Lemma exec_called (t : jsstring) (args : list jsstring) (d : jsstring)
  (w : World) (code : Z) (w' : World) :
  exec_exec t args d w = (Returned code, w') ->
  calls w' = calls w ++ [Exec t args d].
Proof.
  unfold exec_exec, outside, bind, modify, get, ret, throw.
  destruct (faults w) as [|[e|] rest];
    cbn [tar_runs set_calls set_faults];
    try discriminate;
    destruct (fst (hd (0%Z, []) (tar_runs w)) =? 0)%Z;
    try discriminate;
    intros [= _ <-]; reflexivity.
Qed.

Lemma extract_returned (a : jsstring) (o : ArchiveOptions) (w : World)
  (u : unit) (w' : World) :
  extractArchive a o w = (Returned u, w') ->
  fst (next_run w) = 0%Z
  /\ exists tp,
       tar_on_path (env w) = Some tp
       /\ In (Exec tp (extract_args (compressionMethod o) a
                         (workspace_of (env w)))
                (workspace_of (env w)))
             (calls w').
Proof.
  unfold extractArchive, workspace_root. intros E.
  apply bind_returned in E as (tp & w1 & Et & E).
  pose proof (kept rest_getTarPath Et) as (E1 & _ & _ & T1).
  apply getTarPath_returned in Et.
  apply bind_returned in E as (root & w2 & Eg & E).
  unfold get in Eg. injection Eg as <- <-.
  unfold debug in E. rewrite (bind_run _ _ _ (log_run _ _ _)) in E.
  apply bind_returned in E as (code & w3 & Ee & E).
  pose proof (exec_called _ _ _ _ Ee) as C.
  apply exec_returned in Ee as (-> & _).
  unfold next_run in *. cbn [tar_runs set_log] in E. rewrite T1 in E.
  destruct (fst (hd (0%Z, []) (tar_runs w)) =? 0)%Z eqn:Z;
    cbn [negb] in E; [|discriminate].
  injection E as _ <-. apply Z.eqb_eq in Z. split; [exact Z|].
  exists tp. split; [exact Et|].
  rewrite C. unfold workspace_of. rewrite <- E1.
  apply in_or_app. right. now left.
Qed.

Lemma extract_tar_failure (a : jsstring) (o : ArchiveOptions) (w : World)
  (tp : jsstring) :
  faults w = [] ->
  tar_on_path (env w) = Some tp ->
  fst (next_run w) <> 0%Z ->
  fst (extractArchive a o w) = Thrown (exec_failed tp (fst (next_run w))).
Proof.
  destruct w as [en bs fs ds fl tr cs lg].
  unfold next_run. cbn [faults env tar_runs]. intros -> T N.
  apply Z.eqb_neq in N.
  unfold extractArchive, getTarPath, io_which, workspace_root,
    exec_exec, try_catch, debug, core_log, bind, outside, get, modify, ret,
    throw.
  repeat
    (cbn [fst snd env blobs files dirs faults tar_runs calls log
          set_blobs set_files set_dirs set_faults set_tar_runs set_calls
          set_log negb];
     first
       [ rewrite T | rewrite N
       | match goal with
         | |- context [jseq (platform en) ?s] =>
             destruct (jseq (platform en) s)
         | |- context [match tp with [] => _ | _ :: _ => _ end] =>
             destruct tp
         end ]);
    reflexivity.
Qed.

(** X15. [extractArchive] answers for tar.  In every world it returns only
    after tar, at the path found, was run with [-x], the flag of the
    compression method, [-f] and the archive, [-P], and [-C] and the
    workspace root, in the workspace root, and exited with status 0.  When
    no call fails and tar exits with another status N, [exec.exec] rejects
    and [extractArchive] throws what it rejects with,
    [The process '<tar>' failed with exit code N]: the status never reaches
    the check that [extractArchive] makes of it. *)
Theorem extract_runs_tar (archivePath : jsstring) (options : ArchiveOptions)
  (w : World) :
  (forall u w',
      extractArchive archivePath options w = (Returned u, w') ->
      fst (next_run w) = 0%Z
      /\ exists tp,
           tar_on_path (env w) = Some tp
           /\ In (Exec tp
                    (extract_args (compressionMethod options) archivePath
                       (workspace_of (env w)))
                    (workspace_of (env w)))
                 (calls w'))
  /\ (forall tp,
         faults w = [] ->
         tar_on_path (env w) = Some tp ->
         fst (next_run w) <> 0%Z ->
         fst (extractArchive archivePath options w)
         = Thrown (exec_failed tp (fst (next_run w)))).
Proof.
  split.
  - intros u w'. apply extract_returned.
  - intros tp. apply extract_tar_failure.
Qed.

Lemma extract_runs_tar_witness :
  faults tar_fails = []
  /\ fst (next_run tar_fails) <> 0%Z
  /\ fst (extractArchive (str "/tmp/azure-cache-1/cache.tar.gz")
            {| compressionMethod := gzip |} tar_fails)
     = Thrown (str "The process '/usr/bin/tar' failed with exit code 2").
Proof.
  split; [reflexivity|]. split; [discriminate|].
  destruct (extract_runs_tar (str "/tmp/azure-cache-1/cache.tar.gz")
              {| compressionMethod := gzip |} tar_fails) as [_ H].
  rewrite (H (str "/usr/bin/tar") eq_refl eq_refl ltac:(discriminate)).
  vm_compute. reflexivity.
Defined.

(** ** What a full restore has done *)

Lemma download_returned (n p : jsstring) (w : World) (u : unit) (w' : World) :
  downloadBlob n p w = (Returned u, w') ->
  env w' = env w /\ tar_runs w' = tar_runs w
  /\ calls w' = calls w ++ [Download n; WriteStream p; Pipe p].
Proof.
  destruct w as [en bs fs ds fl tr cs lg].
  unfold downloadBlob, blob_download, pipe_to_file, info, core_log, bind,
    outside, unheard, get, modify, ret, throw.
  cbn [fst snd env blobs files dirs faults tar_runs calls log
       set_blobs set_files set_dirs set_faults set_tar_runs set_calls set_log].
  destruct fl as [|[e|] [|[e'|] [|[e''|] rest]]];
    cbn [fst snd env blobs files dirs faults tar_runs calls log
         set_blobs set_files set_dirs set_faults set_tar_runs set_calls
         set_log];
    try discriminate;
    destruct (find (named n) bs);
    cbn [fst snd env blobs files dirs faults tar_runs calls log
         set_blobs set_files set_dirs set_faults set_tar_runs set_calls
         set_log];
    try discriminate;
    intros [= _ <-];
    cbn [env tar_runs calls set_log set_files set_calls set_faults];
    rewrite <- !app_assoc; now repeat split.
Qed.

Lemma restore_extracted (cachePaths : list jsstring) (primaryKey : jsstring)
  (restoreKeys : list jsstring) (options : option CacheRestoreOptions)
  (w : World) (key : jsstring) :
  lookupOnly_set options = false ->
  fst (restoreCache cachePaths primaryKey restoreKeys options w)
  = Returned (Some key) ->
  let after := snd (restoreCache cachePaths primaryKey restoreKeys options w) in
  let archive := archive_path (temp_dir (env w)) this_compressionMethod in
  fst (next_run w) = 0%Z
  /\ exists n tp,
       stored n (blobs w) = true
       /\ tar_on_path (env w) = Some tp
       /\ In (Download n) (calls after)
       /\ In (WriteStream archive) (calls after)
       /\ In (Exec tp
                (extract_args this_compressionMethod archive
                   (workspace_of (env w)))
                (workspace_of (env w)))
             (calls after).
Proof.
  intros L. unfold restoreCache, try_catch.
  destruct (restoreCache_try cachePaths primaryKey restoreKeys options w)
    as [[r|e|] w'] eqn:E; cbn [fst snd]; [|discriminate|discriminate].
  intros [= ->]. unfold restoreCache_try in E.
  apply bind_returned in E as ([] & w1 & Em & E).
  pose proof (kept asked_ensure Em) as (E1 & B1 & _ & _ & T1 & _).
  apply bind_returned in E as (found & w2 & Ef & E).
  pose proof (kept (asked_find _ _) Ef) as (E2 & B2 & _ & _ & T2 & _).
  destruct found as [m|].
  2:{ unfold info in E. rewrite (bind_run _ _ _ (log_run _ _ _)) in E.
      discriminate. }
  apply find_sound in Ef. rewrite B1 in Ef.
  unfold info in E. rewrite (bind_run _ _ _ (log_run _ _ _)) in E.
  rewrite L in E.
  apply bind_returned in E as (tempDir & w3 & Et & E).
  match type of Et with
  | createTempDirectory ?x = _ => pose proof (temp_made x) as (E3 & _ & R)
  end.
  pose proof (kept rest_createTemp Et) as (_ & _ & _ & T3).
  rewrite Et in E3, R. cbn [fst snd env tar_runs set_log] in E3, R, T3.
  destruct R as [[e [=]]|[= ->]].
  apply finally_returned in E as (w4 & Eb & Ec).
  destruct (temp_removed (temp_dir (env w2)) w4) as (_ & C5 & _).
  rewrite Ec in C5. cbn [snd] in C5.
  apply bind_returned in Eb as ([] & w6 & Ed & Eb).
  apply download_returned in Ed as (E6 & T6 & C6).
  apply bind_returned in Eb as ([] & w7 & Ex & Eb).
  pose proof (kept (passing_extract _ _) Ex) as (_ & _ & _ & new & C7 & _).
  apply extract_returned in Ex as (X & tp & T & I).
  rewrite (bind_run _ _ _ (log_run _ _ _)) in Eb. injection Eb as _ <-.
  assert (env w6 = env w) as Ew by congruence.
  assert (env w2 = env w) as Ew2 by congruence.
  unfold next_run in *.
  replace (tar_runs w6) with (tar_runs w) in X by congruence.
  rewrite Ew in T, I. rewrite Ew2 in *.
  split; [exact X|]. exists (blobName m), tp.
  split; [exact Ef|]. split; [exact T|].
  rewrite C5. cbn [calls set_log].
  split; [|split].
  - rewrite C7, C6. apply in_or_app; left. apply in_or_app; left.
    apply in_or_app; right. now left.
  - rewrite C7, C6. apply in_or_app; left. apply in_or_app; left.
    apply in_or_app; right. right. now left.
  - apply in_or_app; left. exact I.
Qed.

(** X16. A full restore reports a key only for what it extracted.  In
    every world, when [restoreCache] without [lookupOnly] returns a key,
    then a blob that was in the container was downloaded into
    [cache.tar.gz] in the temporary directory, tar was found and was run to
    extract that very file into the workspace root, and it exited with
    status 0. *)
Theorem full_restore_hit_was_extracted (cachePaths : list jsstring)
  (primaryKey : jsstring) (restoreKeys : list jsstring)
  (options : option CacheRestoreOptions) (w : World) (key : jsstring) :
  lookupOnly_set options = false ->
  fst (restoreCache cachePaths primaryKey restoreKeys options w)
  = Returned (Some key) ->
  let after := snd (restoreCache cachePaths primaryKey restoreKeys options w) in
  let archive := archive_path (temp_dir (env w)) this_compressionMethod in
  fst (next_run w) = 0%Z
  /\ exists n tp,
       stored n (blobs w) = true
       /\ tar_on_path (env w) = Some tp
       /\ In (Download n) (calls after)
       /\ In (WriteStream archive) (calls after)
       /\ In (Exec tp
                (extract_args this_compressionMethod archive
                   (workspace_of (env w)))
                (workspace_of (env w)))
             (calls after).
Proof. apply restore_extracted. Qed.

Lemma full_restore_hit_was_extracted_witness :
  fst (restoreCache [str "build/"] (str "linux-v2") [str "linux-"] None
         exact_and_prefix)
  = Returned (Some (str "linux-v2"))
  /\ exists n tp,
       In (Download n)
          (calls (snd (restoreCache [str "build/"] (str "linux-v2")
                         [str "linux-"] None exact_and_prefix)))
       /\ tar_on_path (env exact_and_prefix) = Some tp.
Proof.
  assert (fst (restoreCache [str "build/"] (str "linux-v2") [str "linux-"]
                 None exact_and_prefix)
          = Returned (Some (str "linux-v2"))) as H
    by (vm_compute; reflexivity).
  split; [exact H|].
  destruct (@full_restore_hit_was_extracted [str "build/"] (str "linux-v2")
              [str "linux-"] None exact_and_prefix _ eq_refl H)
    as (_ & n & tp & _ & T & D & _).
  now exists n, tp.
Defined.

(** ** Looking up *)

#[local] Hint Resolve asked_ensure asked_find : keeps.

Lemma asked_lookup (cachePaths : list jsstring) (primaryKey : jsstring)
  (restoreKeys : list jsstring) (options : option CacheRestoreOptions) :
  lookupOnly_set options = true ->
  keeps asked_only (restoreCache cachePaths primaryKey restoreKeys options).
Proof.
  intros L. unfold restoreCache, restoreCache_try. rewrite L.
  unfold info, warning. asked_steps.
Qed.

(** X17. A lookup only asks.  With [lookupOnly] set, and in every world,
    hit or miss and whatever fails, [restoreCache] leaves the container,
    the files and the directories as they were and runs no tool: every
    call it makes is the container check, an existence check, a listing or
    a reading of properties. *)
Theorem lookup_only_asks (cachePaths : list jsstring) (primaryKey : jsstring)
  (restoreKeys : list jsstring) (options : option CacheRestoreOptions)
  (w : World) :
  lookupOnly_set options = true ->
  let after := snd (restoreCache cachePaths primaryKey restoreKeys options w) in
  blobs after = blobs w /\ files after = files w /\ dirs after = dirs w
  /\ tar_runs after = tar_runs w
  /\ exists new, calls after = calls w ++ new /\ forallb is_query new = true.
Proof.
  intros L.
  destruct (asked_lookup cachePaths primaryKey restoreKeys options L w)
    as (_ & B & F & D & T & Q).
  now repeat split.
Qed.

Lemma lookup_only_asks_witness :
  files (snd (restoreCache [str "build/"] (str "linux-v1") [str "linux-"]
                (Some {| lookupOnly := Some true |}) backend_down))
  = files backend_down
  /\ exists new,
       calls (snd (restoreCache [str "build/"] (str "linux-v1")
                     [str "linux-"] (Some {| lookupOnly := Some true |})
                     backend_down))
       = calls backend_down ++ new
       /\ forallb is_query new = true.
Proof.
  destruct (@lookup_only_asks [str "build/"] (str "linux-v1") [str "linux-"]
              (Some {| lookupOnly := Some true |}) backend_down eq_refl)
    as (_ & F & _ & _ & Q).
  split; [exact F|exact Q].
Defined.

Lemma find_exact (primaryKey : jsstring) (restoreKeys : list jsstring)
  (w : World) :
  stored (sanitizeBlobName primaryKey) (blobs w) = true ->
  hd None (faults w) = None ->
  exists w',
    findMatchingBlob primaryKey restoreKeys w
    = (Returned (Some {| cacheKey := primaryKey;
                         blobName := sanitizeBlobName primaryKey |}), w').
Proof.
  intros S F.
  unfold findMatchingBlob, blob_exists, bind, outside, get.
  destruct (faults w) as [|[e|] rest]; try discriminate;
    cbn [blobs set_calls set_faults]; rewrite S; eexists; reflexivity.
Qed.

Lemma ensure_failed (w : World) (e : Error) (rest : list (option Error)) :
  faults w = Some e :: rest ->
  ensureContainerExists w
  = (Returned tt,
     set_log (log w ++ [(Debug, str "Container check/create: " ++ e)])
       (set_faults rest (set_calls (calls w ++ [CreateIfNotExists]) w))).
Proof.
  intros F.
  unfold ensureContainerExists, createIfNotExists, try_catch, outside, debug,
    core_log, modify.
  now rewrite F.
Qed.

(** X18. The container need not be creatable.  When
    [createIfNotExists] fails (the identity may lack the permission), the
    error goes to the debug log and the operation carries on: with a blob
    stored under the sanitized primary key and the existence check
    answered, a lookup still reports the primary key, and the log gains
    the debug line and the two lines of a hit, no warning. *)
Theorem container_creation_may_fail (cachePaths : list jsstring)
  (primaryKey : jsstring) (restoreKeys : list jsstring) (w : World)
  (e : Error) (rest : list (option Error)) :
  faults w = Some e :: rest ->
  hd None rest = None ->
  stored (sanitizeBlobName primaryKey) (blobs w) = true ->
  let probe := restoreCache cachePaths primaryKey restoreKeys
                 (Some {| lookupOnly := Some true |}) w in
  fst probe = Returned (Some primaryKey)
  /\ log (snd probe)
     = log w
       ++ [(Debug, str "Container check/create: " ++ e);
           (Info, str "Cache found for key: " ++ primaryKey);
           (Info, str "Lookup only mode - skipping download")].
Proof.
  intros F H S probe.
  pose proof (ensure_failed w F) as He.
  destruct (find_exact primaryKey restoreKeys
              (set_log (log w ++ [(Debug, str "Container check/create: " ++ e)])
                 (set_faults rest
                    (set_calls (calls w ++ [CreateIfNotExists]) w))) S H)
    as [w2 Hf].
  assert (log w2 = log w ++ [(Debug, str "Container check/create: " ++ e)])
    as Lg.
  { revert Hf. unfold findMatchingBlob, blob_exists, bind, outside, get.
    cbn [faults set_log set_faults set_calls].
    destruct rest as [|[e'|] rest']; try discriminate;
      cbn [blobs set_log set_calls set_faults]; rewrite S;
      intros [= <-]; reflexivity. }
  assert (probe
          = (Returned (Some primaryKey),
             set_log ((log w2
                         ++ [(Info, str "Cache found for key: " ++ primaryKey)])
                        ++ [(Info, str "Lookup only mode - skipping download")])
                     (set_log
                        (log w2
                           ++ [(Info, str "Cache found for key: "
                                        ++ primaryKey)]) w2))) as P.
  { unfold probe, restoreCache, try_catch, restoreCache_try.
    rewrite (bind_run _ _ _ He), (bind_run _ _ _ Hf).
    cbn [lookupOnly_set lookupOnly cacheKey]. unfold info.
    rewrite (bind_run _ _ _ (log_run _ _ _)).
    rewrite (bind_run _ _ _ (log_run _ _ _)). reflexivity. }
  rewrite P. cbn [fst snd log set_log]. rewrite Lg.
  split; [reflexivity|]. now rewrite <- !app_assoc.
Qed.

Lemma container_creation_may_fail_witness :
  fst (restoreCache [str "build/"] (str "linux-v1") []
         (Some {| lookupOnly := Some true |}) no_create_no_cleanup)
  = Returned (Some (str "linux-v1"))
  /\ hd None (faults no_create_no_cleanup)
     = Some (str "AuthorizationFailure").
Proof.
  split; [|reflexivity].
  apply (@container_creation_may_fail [str "build/"] (str "linux-v1") []
           no_create_no_cleanup (str "AuthorizationFailure")
           [None; None; None; None; None; None; None; Some (str "EBUSY")]);
    reflexivity.
Defined.

(** ** The archive that is made *)

Lemma file_get_remove_same (p : jsstring) (fs : list (jsstring * list N)) :
  file_get p (file_remove p fs) = None.
Proof.
  unfold file_remove.
  induction fs as [|[x c] fs IH]; cbn [filter fst file_get]; [reflexivity|].
  destruct (jseq x p) eqn:Q; cbn [negb file_get]; [exact IH|].
  now rewrite Q.
Qed.

Lemma file_get_put_other (p q : jsstring) (c : list N)
  (fs : list (jsstring * list N)) :
  jseq q p = false -> file_get p (file_put q c fs) = file_get p fs.
Proof.
  intros N. unfold file_put. cbn [file_get]. rewrite N.
  now apply file_get_remove_other.
Qed.

Lemma jseq_differ (a b : jsstring) : a <> b -> jseq a b = false.
Proof.
  intros N. destruct (jseq a b) eqn:E; [|reflexivity].
  apply jseq_eq in E. contradiction.
Qed.

Lemma getTarPath_quiet (w : World) (tp : jsstring) :
  faults w = [] ->
  tar_on_path (env w) = Some tp ->
  exists w',
    getTarPath w = (Returned tp, w')
    /\ faults w' = [] /\ env w' = env w /\ blobs w' = blobs w
    /\ files w' = files w /\ tar_runs w' = tar_runs w.
Proof.
  destruct w as [en bs fs ds fl tr cs lg].
  cbn [faults env blobs files tar_runs]. intros -> T.
  unfold getTarPath, io_which, try_catch, bind, outside, get, ret, throw.
  cbn [fst snd env blobs files dirs faults tar_runs calls log
       set_blobs set_files set_dirs set_faults set_tar_runs set_calls set_log].
  destruct (jseq (platform en) (str "win32")); [destruct tp|];
    repeat
      (cbn [fst snd env blobs files dirs faults tar_runs calls log
            set_blobs set_files set_dirs set_faults set_tar_runs set_calls
            set_log];
       rewrite T);
    eexists; (split; [reflexivity|]); now repeat split.
Qed.

Lemma exec_quiet (t : jsstring) (args : list jsstring) (d : jsstring)
  (w : World) :
  faults w = [] ->
  fst (next_run w) = 0%Z ->
  exec_exec t args d w
  = (Returned 0%Z,
     set_tar_runs (tl (tar_runs w))
       (set_files (tar_writes args (snd (next_run w)) (files w))
          (set_calls (calls w ++ [Exec t args d]) w))).
Proof.
  intros F X. unfold exec_exec.
  rewrite (bind_run _ _ _ (outside_quiet _ _ F)).
  unfold next_run in X. unfold bind, get, modify, ret.
  cbn [tar_runs set_calls]. now rewrite X.
Qed.

(** [exec.exec] rejects when the tool exits with another status. *)
Lemma exec_rejects (t : jsstring) (args : list jsstring) (d : jsstring)
  (w : World) :
  faults w = [] ->
  fst (next_run w) <> 0%Z ->
  exec_exec t args d w
  = (Thrown (exec_failed t (fst (next_run w))),
     set_tar_runs (tl (tar_runs w))
       (set_files (tar_writes args (snd (next_run w)) (files w))
          (set_calls (calls w ++ [Exec t args d]) w))).
Proof.
  intros F X. unfold exec_exec.
  rewrite (bind_run _ _ _ (outside_quiet _ _ F)).
  unfold next_run in *. unfold bind, get, modify, ret, throw.
  cbn [tar_runs set_calls]. apply Z.eqb_neq in X. now rewrite X.
Qed.

Lemma writeFile_quiet (p t : jsstring) (w : World) :
  faults w = [] ->
  fs_writeFile p t w
  = (Returned tt,
     set_files (file_put p (utf8 t) (files w))
       (set_calls (calls w ++ [WriteFile p]) w)).
Proof.
  intros F. unfold fs_writeFile.
  now rewrite (bind_run _ _ _ (outside_quiet _ _ F)).
Qed.

Lemma unlink_quiet (p : jsstring) (w : World) (c : list N) :
  faults w = [] ->
  file_get p (files w) = Some c ->
  fs_unlink p w
  = (Returned tt,
     set_files (file_remove p (files w))
       (set_calls (calls w ++ [Unlink p]) w)).
Proof.
  intros F G. unfold fs_unlink.
  rewrite (bind_run _ _ _ (outside_quiet _ _ F)).
  unfold bind, get. cbn [files set_calls]. now rewrite G.
Qed.

Lemma createArchive_quiet (d : jsstring) (ps : list jsstring)
  (o : ArchiveOptions) (w : World) (tp : jsstring) :
  faults w = [] ->
  tar_on_path (env w) = Some tp ->
  fst (next_run w) = 0%Z ->
  exists w',
    createArchive d ps o w
    = (Returned (archive_path d (compressionMethod o)), w')
    /\ faults w' = [] /\ env w' = env w /\ blobs w' = blobs w
    /\ files w'
       = file_remove (manifest_path d)
           (file_put (archive_path d (compressionMethod o))
              (snd (next_run w))
              (file_put (manifest_path d)
                 (utf8 (manifest_content (cwd (env w))
                          (workspace_of (env w)) ps))
                 (files w)))
    /\ In (Exec tp
             (create_args (compressionMethod o)
                (archive_path d (compressionMethod o))
                (workspace_of (env w)) (manifest_path d))
             (workspace_of (env w)))
          (calls w').
Proof.
  intros F T X. unfold createArchive, workspace_root.
  destruct (getTarPath_quiet w F T) as (w1 & E1 & F1 & V1 & B1 & G1 & R1).
  rewrite (bind_run _ _ _ E1).
  unfold get at 1. unfold bind at 1.
  unfold get at 1. unfold bind at 1.
  rewrite (bind_run _ _ _ (writeFile_quiet _ _ _ F1)).
  unfold debug. rewrite (bind_run _ _ _ (log_run _ _ _)).
  match goal with
  | |- context [bind (exec_exec ?t ?a ?r) ?k ?w2] =>
      assert (next_run w2 = next_run w) as N
        by (unfold next_run; cbn [tar_runs set_log set_files set_calls];
            now rewrite R1);
      rewrite (bind_run _ _ _
                 (@exec_quiet t a r w2 F1 (eq_trans (f_equal fst N) X)))
  end.
  rewrite !N. cbn [negb Z.eqb].
  cbn [files set_log set_files set_calls]. rewrite tar_creates.
  match goal with
  | |- context [bind (try_catch (fs_unlink ?p) ?h) ?k ?w3] =>
      assert (try_catch (fs_unlink p) h w3
              = (Returned tt,
                 set_files (file_remove p (files w3))
                   (set_calls (calls w3 ++ [Unlink p]) w3))) as U
  end.
  { unfold try_catch.
    erewrite unlink_quiet;
      [reflexivity|exact F1|apply manifest_survives_tar]. }
  rewrite (bind_run _ _ _ U). unfold ret.
  eexists. split; [reflexivity|].
  cbn [faults env blobs files calls
       set_files set_calls set_tar_runs set_log].
  unfold workspace_of. rewrite V1, G1.
  split; [exact F1|]. split; [reflexivity|]. split; [exact B1|].
  split; [reflexivity|].
  apply in_or_app; left. apply in_or_app; right. now left.
Qed.

(** X19. [createArchive] when tar succeeds.  When no call fails, tar is
    found and exits with status 0, [createArchive] returns the path of
    [cache] with the extension of the method in the archive folder; the
    file at that path holds what tar wrote; the manifest is gone; every
    other file is as it was; and tar was run in the workspace root with
    [--posix -c], the flag of the method, [-f] and the archive, [-P],
    [-C] and the workspace root, [--files-from] and the manifest. *)
Theorem createArchive_makes_the_archive (archiveFolder : jsstring)
  (cachePaths : list jsstring) (options : ArchiveOptions) (w : World)
  (tp : jsstring) :
  faults w = [] ->
  tar_on_path (env w) = Some tp ->
  fst (next_run w) = 0%Z ->
  let after := snd (createArchive archiveFolder cachePaths options w) in
  let archive := archive_path archiveFolder (compressionMethod options) in
  let manifest := manifest_path archiveFolder in
  fst (createArchive archiveFolder cachePaths options w) = Returned archive
  /\ file_get archive (files after) = Some (snd (next_run w))
  /\ file_get manifest (files after) = None
  /\ (forall p, p <> archive -> p <> manifest ->
                file_get p (files after) = file_get p (files w))
  /\ In (Exec tp
           (create_args (compressionMethod options) archive
              (workspace_of (env w)) manifest)
           (workspace_of (env w)))
        (calls after).
Proof.
  intros F T X after archive manifest.
  destruct (createArchive_quiet archiveFolder cachePaths options w F T X)
    as (w' & E & _ & _ & _ & G & I).
  subst after. rewrite E. cbn [fst snd]. rewrite G.
  destruct (manifest_is_not_archive archiveFolder (compressionMethod options))
    as [_ N].
  split; [reflexivity|]. split; [|split; [|split]].
  - rewrite file_get_remove_other by exact N. apply file_get_put.
  - apply file_get_remove_same.
  - intros p Pa Pm.
    rewrite file_get_remove_other
      by (apply jseq_differ; intros Q; now apply Pm).
    rewrite file_get_put_other
      by (apply jseq_differ; intros Q; now apply Pa).
    apply file_get_put_other, jseq_differ. intros Q. now apply Pm.
  - exact I.
Qed.

Lemma createArchive_makes_the_archive_witness :
  faults tar_writes_three = []
  /\ fst (next_run tar_writes_three) = 0%Z
  /\ file_get (str "/tmp/azure-cache-1/cache.tar.gz")
       (files (snd (createArchive (str "/tmp/azure-cache-1") [str "build/"]
                      {| compressionMethod := gzip |} tar_writes_three)))
     = Some [31%N; 139%N; 8%N].
Proof.
  split; [reflexivity|]. split; [reflexivity|].
  destruct (@createArchive_makes_the_archive (str "/tmp/azure-cache-1")
              [str "build/"] {| compressionMethod := gzip |}
              tar_writes_three (str "/usr/bin/tar") eq_refl eq_refl eq_refl)
    as (_ & A & _).
  exact A.
Defined.

(** ** When a save goes through, and what -1 means *)

Lemma exists_quiet (n : jsstring) (w : World) :
  faults w = [] ->
  blob_exists n w
  = (Returned (stored n (blobs w)), set_calls (calls w ++ [Exists n]) w).
Proof.
  intros F. unfold blob_exists.
  now rewrite (bind_run _ _ _ (outside_quiet _ _ F)).
Qed.

Lemma stat_quiet (p : jsstring) (w : World) (c : list N) :
  faults w = [] ->
  file_get p (files w) = Some c ->
  fs_stat_size p w
  = (Returned (length c), set_calls (calls w ++ [Stat p]) w).
Proof.
  intros F G. unfold fs_stat_size.
  rewrite (bind_run _ _ _ (outside_quiet _ _ F)).
  unfold bind, get. cbn [files set_calls]. now rewrite G.
Qed.

Lemma upload_quiet (n p k : jsstring) (w : World) (c : list N) :
  faults w = [] ->
  file_get p (files w) = Some c ->
  exists w',
    uploadBlob n p k w = (Returned tt, w')
    /\ faults w' = [] /\ env w' = env w
    /\ blobs w'
       = store_put
           {| name := n;
              metadata := Some [(CACHE_KEY_METADATA, k);
                                (CREATED_AT_METADATA,
                                 toISOString (clock (env w)))];
              lastModified := Some (clock (env w));
              body := c |} (blobs w).
Proof.
  destruct w as [en bs fs ds fl tr cs lg]. cbn [faults files env blobs].
  intros -> G.
  unfold uploadBlob, uploadStream, fs_stat_size, info, core_log, bind,
    outside, get, modify, ret, throw.
  cbn [fst snd env blobs files dirs faults tar_runs calls log
       set_blobs set_files set_dirs set_faults set_tar_runs set_calls set_log].
  rewrite G.
  cbn [fst snd env blobs files dirs faults tar_runs calls log
       set_blobs set_files set_dirs set_faults set_tar_runs set_calls set_log].
  rewrite G.
  eexists. split; [reflexivity|]. now repeat split.
Qed.

Lemma ensure_went (w : World) :
  faults w = [] ->
  exists w',
    ensureContainerExists w = (Returned tt, w')
    /\ faults w' = [] /\ env w' = env w /\ blobs w' = blobs w
    /\ tar_runs w' = tar_runs w.
Proof.
  intros F. eexists. split; [apply (ensure_quiet w F)|]. now repeat split.
Qed.

Lemma exists_went (n : jsstring) (w : World) :
  faults w = [] ->
  exists w',
    blob_exists n w = (Returned (stored n (blobs w)), w')
    /\ faults w' = [] /\ env w' = env w /\ blobs w' = blobs w
    /\ tar_runs w' = tar_runs w.
Proof.
  intros F. eexists. split; [apply (exists_quiet n w F)|]. now repeat split.
Qed.

Lemma temp_went (w : World) :
  faults w = [] ->
  exists w',
    createTempDirectory w = (Returned (temp_dir (env w)), w')
    /\ faults w' = [] /\ env w' = env w /\ blobs w' = blobs w
    /\ tar_runs w' = tar_runs w.
Proof.
  intros F. eexists. split; [apply (createTemp_quiet w F)|].
  now repeat split.
Qed.

Lemma archive_went (d : jsstring) (ps : list jsstring) (o : ArchiveOptions)
  (w : World) (tp : jsstring) :
  faults w = [] ->
  tar_on_path (env w) = Some tp ->
  fst (next_run w) = 0%Z ->
  exists w',
    createArchive d ps o w
    = (Returned (archive_path d (compressionMethod o)), w')
    /\ faults w' = [] /\ env w' = env w /\ blobs w' = blobs w
    /\ file_get (archive_path d (compressionMethod o)) (files w')
       = Some (snd (next_run w)).
Proof.
  intros F T X.
  destruct (createArchive_quiet d ps o w F T X)
    as (w' & E & F' & V & B & G & _).
  exists w'. split; [exact E|]. split; [exact F'|]. split; [exact V|].
  split; [exact B|]. rewrite G.
  rewrite file_get_remove_other by apply manifest_is_not_archive.
  apply file_get_put.
Qed.

Lemma stat_went (p : jsstring) (w : World) (c : list N) :
  faults w = [] ->
  file_get p (files w) = Some c ->
  exists w',
    fs_stat_size p w = (Returned (length c), w')
    /\ faults w' = [] /\ env w' = env w /\ blobs w' = blobs w
    /\ files w' = files w.
Proof.
  intros F G. eexists. split; [apply (stat_quiet p w F G)|].
  now repeat split.
Qed.

Lemma save_goes_through (cachePaths : list jsstring) (primaryKey : jsstring)
  (w : World) (tp : jsstring) :
  faults w = [] ->
  stored (sanitizeBlobName primaryKey) (blobs w) = false ->
  tar_on_path (env w) = Some tp ->
  fst (next_run w) = 0%Z ->
  exists w',
    saveCache cachePaths primaryKey w = (Returned (clock (env w)), w')
    /\ blobs w'
       = store_put (saved_blob w primaryKey (snd (next_run w))) (blobs w).
Proof.
  intros F S T X. unfold saveCache, try_catch, saveCache_try.
  destruct (ensure_went w F) as (w1 & E1 & F1 & V1 & B1 & R1).
  rewrite (bind_run _ _ _ E1).
  destruct (exists_went (sanitizeBlobName primaryKey) w1 F1)
    as (w2 & E2 & F2 & V2 & B2 & R2).
  rewrite (bind_run _ _ _ E2), B1, S.
  destruct (temp_went w2 F2) as (w3 & E3 & F3 & V3 & B3 & R3).
  rewrite (bind_run _ _ _ E3).
  assert (tar_on_path (env w3) = Some tp) as T3 by congruence.
  assert (next_run w3 = next_run w) as N3
    by (unfold next_run; congruence).
  rewrite <- N3 in X.
  destruct (archive_went (temp_dir (env w2)) cachePaths
              {| compressionMethod := this_compressionMethod |} w3 F3 T3 X)
    as (w4 & E4 & F4 & V4 & B4 & G4).
  destruct (stat_went _ w4 F4 G4) as (w5 & E5 & F5 & V5 & B5 & G5).
  rewrite <- G5 in G4.
  destruct (@upload_quiet (sanitizeBlobName primaryKey)
              (archive_path (temp_dir (env w2)) this_compressionMethod)
              primaryKey
              (set_log
                 (log w5
                    ++ [(Info, str "Archive created: "
                                 ++ megabytes (length (snd (next_run w3)))
                                 ++ str " MB")]) w5)
              (snd (next_run w3)) F5 G4)
    as (w6 & E6 & F6 & V6 & B6).
  cbn [env blobs set_log] in V6, B6.
  unfold try_finally.
  rewrite (bind_run _ _ _ E4). cbn [compressionMethod].
  rewrite (bind_run _ _ _ E5).
  unfold info. rewrite (bind_run _ _ _ (log_run _ _ _)).
  rewrite (bind_run _ _ _ E6).
  rewrite (bind_run _ _ _ (log_run _ _ _)).
  unfold bind, get, ret.
  rewrite cleanup_quiet by exact F6.
  cbn [env set_log]. rewrite V6.
  replace (env w5) with (env w) by congruence.
  eexists. split; [reflexivity|].
  cbn [blobs set_log set_calls set_dirs set_files].
  rewrite B6, N3. unfold saved_blob.
  replace (env w5) with (env w) by congruence.
  replace (blobs w5) with (blobs w) by congruence.
  reflexivity.
Qed.

(** X20. When a save goes through.  With no blob stored under the
    sanitized name, tar found and exiting with status 0, and no call
    failing, [saveCache] returns the time of the call and the container
    gains the blob: the sanitized name, the two metadata fields, the bytes
    tar wrote. *)
Theorem save_succeeds (cachePaths : list jsstring) (primaryKey : jsstring)
  (w : World) (tp : jsstring) :
  faults w = [] ->
  stored (sanitizeBlobName primaryKey) (blobs w) = false ->
  tar_on_path (env w) = Some tp ->
  fst (next_run w) = 0%Z ->
  fst (saveCache cachePaths primaryKey w) = Returned (clock (env w))
  /\ blobs (snd (saveCache cachePaths primaryKey w))
     = store_put (saved_blob w primaryKey (snd (next_run w))) (blobs w).
Proof.
  intros F S T X.
  destruct (save_goes_through cachePaths primaryKey w F S T X)
    as (w' & E & B).
  rewrite E. now split.
Qed.

Lemma save_succeeds_witness :
  stored (sanitizeBlobName (str "linux-v9")) (blobs exact_and_prefix) = false
  /\ fst (saveCache [str "build/"] (str "linux-v9") exact_and_prefix)
     = Returned 1700000000123%Z.
Proof.
  split; [reflexivity|].
  apply (@save_succeeds [str "build/"] (str "linux-v9") exact_and_prefix
           (str "/usr/bin/tar") eq_refl eq_refl eq_refl eq_refl).
Defined.

(** X21. What -1 means.  Unless the clock itself reads -1, a call of
    [saveCache] that returns -1 has stored nothing: the container is as it
    was.  (With X11: the identifier tells whether the blob was put.) *)
Theorem minus_one_stores_nothing (cachePaths : list jsstring)
  (primaryKey : jsstring) (w : World) :
  clock (env w) <> (-1)%Z ->
  fst (saveCache cachePaths primaryKey w) = Returned (-1)%Z ->
  blobs (snd (saveCache cachePaths primaryKey w)) = blobs w.
Proof.
  intros C R.
  destruct (saveCache_result cachePaths primaryKey w)
    as [_ [[_ B]|(_ & R' & _)]]; [exact B|].
  rewrite R in R'. injection R' as R'. congruence.
Qed.

Lemma minus_one_stores_nothing_witness :
  fst (saveCache [str "build/"] (str "linux-v1") tar_fails) = Returned (-1)%Z
  /\ blobs (snd (saveCache [str "build/"] (str "linux-v1") tar_fails)) = [].
Proof.
  assert (fst (saveCache [str "build/"] (str "linux-v1") tar_fails)
          = Returned (-1)%Z) as H by (vm_compute; reflexivity).
  split; [exact H|].
  apply (@minus_one_stores_nothing [str "build/"] (str "linux-v1") tar_fails
           ltac:(discriminate) H).
Defined.

(** X22. The manifest outlives a failed tar, in general.  On a runner
    that is not Windows (the paths are those of [path.posix]), whenever no
    call fails, tar is found and exits with a status N other than 0,
    [createArchive] throws what [exec.exec] rejects with,
    [The process '<tar>' failed with exit code N], and the manifest it
    wrote is still in the archive folder: one line per cache path, each
    the path that [path.relative] gives from the workspace root to the
    cache path joined to it (an absolute cache path is taken as it is), so
    that [./build] and [build/] both give [build] and a path above the
    root starts with [..].  (Within [saveCache] the removal of the
    temporary directory takes it away, see X10.) *)
Theorem tar_failure_leaves_manifest (archiveFolder : jsstring)
  (cachePaths : list jsstring) (options : ArchiveOptions) (w : World)
  (tp : jsstring) :
  platform (env w) <> str "win32" ->
  faults w = [] ->
  tar_on_path (env w) = Some tp ->
  fst (next_run w) <> 0%Z ->
  fst (createArchive archiveFolder cachePaths options w)
  = Thrown (exec_failed tp (fst (next_run w)))
  /\ file_get (manifest_path archiveFolder)
       (files (snd (createArchive archiveFolder cachePaths options w)))
     = Some (utf8 (manifest_content (cwd (env w)) (workspace_of (env w))
                     cachePaths)).
Proof.
  intros _ F T X. unfold next_run in *.
  destruct (tar_runs w) as [|[code bytes] rest] eqn:R;
    [now contradiction X|].
  cbn [hd fst] in *.
  exact (@createArchive_tar_failure archiveFolder cachePaths options w tp
           code bytes rest F T R X).
Qed.

Lemma tar_failure_leaves_manifest_witness :
  platform (env tar_fails) <> str "win32"
  /\ faults tar_fails = []
  /\ fst (next_run tar_fails) <> 0%Z
  /\ fst (createArchive (str "/tmp/azure-cache-1")
            [str "./build"; str "build/"; str "/home/runner/work/app/dist";
             str "../other"]
            {| compressionMethod := gzip |} tar_fails)
     = Thrown (str "The process '/usr/bin/tar' failed with exit code 2")
  /\ file_get (manifest_path (str "/tmp/azure-cache-1"))
       (files (snd (createArchive (str "/tmp/azure-cache-1")
                      [str "./build"; str "build/";
                       str "/home/runner/work/app/dist"; str "../other"]
                      {| compressionMethod := gzip |} tar_fails)))
     = Some (utf8 (str "build" ++ [10%N] ++ str "build" ++ [10%N]
                   ++ str "dist" ++ [10%N] ++ str "../other")).
Proof.
  assert (platform (env tar_fails) <> str "win32") as P
    by (vm_compute; discriminate).
  split; [exact P|]. split; [reflexivity|]. split; [discriminate|].
  destruct (@tar_failure_leaves_manifest (str "/tmp/azure-cache-1")
              [str "./build"; str "build/"; str "/home/runner/work/app/dist";
               str "../other"]
              {| compressionMethod := gzip |} tar_fails (str "/usr/bin/tar")
              P eq_refl eq_refl ltac:(discriminate)) as [E M].
  rewrite E, M. split; vm_compute; reflexivity.
Defined.
